(** * The schema normalizer of json-schema-to-typescript

    A shallow embedding of [src/normalizer.ts]: the twelve built-in rules, the
    rule registry, and [normalize], which clones its input and runs every rule
    over every node of the clone.

    Modelling conventions.
    - A schema document is a JSON value as [JSON.parse] produces it: a finite
      tree.  Objects are association lists in insertion order (the order of
      [Object.keys]); a key that is absent reads as [undefined], which is
      [None] here.
    - Numbers are the integers [Z]: every numeric keyword the normalizer
      inspects ([minItems], [maxItems]) is an integer in a JSON schema.
    - A rule mutates the node it is handed.  Here it is a function from the
      node to the mutated node; a rule can also raise, so the result is in
      the [result] monad.
    - Where the source puts one object in several places ([fill] puts the
      schema of [items] in every place of the tuple, and in
      [additionalItems]), the tree has equal subtrees in these places.  The
      traversal runs a rule once on the shared object; here it runs the rule
      once on each of the equal subtrees, with equal results, since a rule
      reads and writes nothing but the node it is given.
    - [normalize] itself is written against a store of documents, so that
      the difference between the caller's object and the clone is visible. *)

From Stdlib Require Import ZArith String Ascii.
From stdpp Require Import gmap strings list.

Local Open Scope string_scope.

(** ** JSON values *)

#[local] Set Warnings "-register-all".

Inductive JSON : Type :=
| JNull : JSON
| JBool (b : bool) : JSON
| JNum (n : Z) : JSON
| JStr (s : string) : JSON
| JArr (l : list JSON) : JSON
| JObj (o : list (string * JSON)) : JSON.

(** A schema node is the content of an object. *)
Definition Schema : Type := list (string * JSON).

(** ** The store

    A reference designates a whole document, the content of its root. *)
Abbreviation loc := positive (only parsing).
Abbreviation store := (gmap positive Schema) (only parsing).

(** ** Errors *)

Inductive error : Type :=
| RangeError          (* [Array(n)] with an invalid length *)
| TypeError           (* a reference that designates no object *)
| CallDepthExceeded   (* the traversal ran out of fuel *)
| UserError (msg : string).  (* raised by a caller-supplied rule *)

Inductive result (A : Type) : Type :=
| Ok (a : A)
| Err (e : error).
Arguments Ok {A} a.
Arguments Err {A} e.

#[global] Instance result_ret : MRet result := fun _ a => Ok a.
#[global] Instance result_bind : MBind result :=
  fun _ _ f m => match m with Ok a => f a | Err e => Err e end.
#[global] Instance result_fmap : FMap result :=
  fun _ _ f m => match m with Ok a => Ok (f a) | Err e => Err e end.

(** ** Property access on objects *)

Fixpoint get (k : string) (s : Schema) : option JSON :=
  match s with
  | [] => None
  | (k', v) :: s' => if String.eqb k k' then Some v else get k s'
  end.

(** [k in schema] *)
Definition has (k : string) (s : Schema) : bool :=
  match get k s with Some _ => true | None => false end.

(** [schema.k = v]: an existing key keeps its position, a new key goes last. *)
Fixpoint set (k : string) (v : JSON) (s : Schema) : Schema :=
  match s with
  | [] => [(k, v)]
  | (k', v') :: s' =>
      if String.eqb k k' then (k', v) :: s' else (k', v') :: set k v s'
  end.

(** [delete schema.k] *)
Fixpoint delete (k : string) (s : Schema) : Schema :=
  match s with
  | [] => []
  | (k', v') :: s' =>
      if String.eqb k k' then delete k s' else (k', v') :: delete k s'
  end.

(** JavaScript truthiness; [undefined] is [None]. *)
Definition truthy (v : JSON) : bool :=
  match v with
  | JNull => false
  | JBool b => b
  | JNum n => negb (Z.eqb n 0)
  | JStr s => negb (String.eqb s "")
  | JArr _ => true
  | JObj _ => true
  end.

Definition truthy' (v : option JSON) : bool :=
  match v with Some v => truthy v | None => false end.

(** [Array.isArray] *)
Definition isArray (v : JSON) : bool :=
  match v with JArr _ => true | _ => false end.

(** [e === null] and [e === 'name'] *)
Definition isNull (v : JSON) : bool :=
  match v with JNull => true | _ => false end.

Definition isStr (name : string) (v : JSON) : bool :=
  match v with JStr s => String.eqb s name | _ => false end.

(** [a || b], for a possibly-undefined [a] and [b], and for a defined [b] *)
Definition or_else (a b : option JSON) : option JSON :=
  if truthy' a then a else b.

Definition or_value (a : option JSON) (b : JSON) : JSON :=
  match a with
  | Some v => if truthy v then v else b
  | None => b
  end.

(** ** Arrays

    [Array(x)] makes [n] holes when [x] is a number that is a valid array
    length (an integer in [0, 2^32 - 1]), raises [RangeError] when [x] is a
    number that is not, and makes the one-element array [[x]] when [x] is not
    a number.  A hole is [None]. *)
Definition Array (x : JSON) : result (list (option JSON)) :=
  match x with
  | JNum n =>
      if (0 <=? n)%Z && (n <? 2 ^ 32)%Z
      then Ok (replicate (Z.to_nat n) None)
      else Err RangeError
  | _ => Ok [Some x]
  end.

(** [arr.fill(v)] *)
Definition fill (v : JSON) (arr : list (option JSON)) : list JSON :=
  map (fun _ => v) arr.

(** ** Options

    The fields of [Options] that are plain data.  [style] and [$refOptions]
    have types of other packages and the normalizer never reads them. *)
Record OptionsData : Type := {
  bannerComment : string;
  cwd : string;
  declareExternallyReferenced : bool;
  enableConstEnums : bool;
  format : bool;
  ignoreMinAndMaxItems : bool;
  strictIndexSignatures : bool;
  unreachableDefinitions : bool;
  unknownAny : bool
}.

(** [Rule]: the node, the root of the document, the file name, the options
    and [isRoot].  The node comes by value and the rule returns it as
    mutated; the root comes as the reference of the document, and no
    built-in rule reads it.  A rule sees the data fields of the options. *)
Definition Rule : Type :=
  Schema -> loc -> string -> OptionsData -> bool -> result Schema.

Record Options : Type := {
  data :> OptionsData;
  normalizerRules : option (list (string * Rule))
}.

(** [cwd] is [process.cwd()] in the source, the directory the process runs
    in; it comes from the environment and is the empty string here.  No
    rule reads it. *)
Definition DEFAULT_DATA : OptionsData := {|
  bannerComment := "/* tslint:disable */
/**
* This file was automatically generated by json-schema-to-typescript.
* DO NOT MODIFY IT BY HAND. Instead, modify the source JSONSchema file,
* and run json-schema-to-typescript to regenerate this file.
*/";
  cwd := "";
  declareExternallyReferenced := true;
  enableConstEnums := true;
  format := true;
  ignoreMinAndMaxItems := false;
  strictIndexSignatures := false;
  unreachableDefinitions := false;
  unknownAny := true
|}.

Definition DEFAULT_OPTIONS : Options :=
  {| data := DEFAULT_DATA; normalizerRules := None |}.

(** ** The helpers of the utils module

    [justName] and [toSafeString] turn a file name into an identifier;
    [escapeText] rewrites a text so that it cannot close a block comment.
    The module is not part of the sources at hand, so the three string
    functions are an interface. *)
Class Utils : Type := {
  justName : string -> string;
  toSafeString : string -> string;
  escapeText : string -> string
}.

(** An implementation of the interface, used to run the model: the name is
    kept, and a slash that follows a star gets a blank before it. *)
Fixpoint splitAfterStar (afterStar : bool) (s : string) : string :=
  match s with
  | String c r =>
      if afterStar && Ascii.eqb c "/"
      then String " " (String c (splitAfterStar false r))
      else String c (splitAfterStar (Ascii.eqb c "*") r)
  | EmptyString => EmptyString
  end.

Definition splitCommentEnd (s : string) : string := splitAfterStar false s.

Definition plainUtils : Utils := {|
  justName := fun f => f;
  toSafeString := fun f => f;
  escapeText := splitCommentEnd
|}.

Section Normalizer.
Context {U : Utils}.

(** Modelled from the spec: [escapeBlockComment] belongs to the utils module,
    which is missing from the sources.  The spec has it escape, inside the
    descriptive text of a node, whatever would end a block comment; the
    descriptive text is the [description] of the node when it is a string. *)
Definition escapeBlockComment (schema : Schema) : Schema :=
  match get "description" schema with
  | Some (JStr d) => set "description" (JStr (escapeText d)) schema
  | _ => schema
  end.

(** ** Type tests *)

Definition hasType (schema : Schema) (type : string) : bool :=
  match get "type" schema with
  | Some (JStr t) => String.eqb t type
  | Some (JArr l) => existsb (isStr type) l
  | _ => false
  end.

Definition isObjectType (schema : Schema) : bool :=
  has "properties" schema || hasType schema "object" || hasType schema "any".

Definition isArrayType (schema : Schema) : bool :=
  has "items" schema || hasType schema "array" || hasType schema "any".

(** ** The built-in rules, in registration order *)

Definition rule_remove_null_type : Rule := fun schema _ _ _ _ =>
  match get "enum" schema, get "type" schema with
  | Some (JArr e), Some (JArr t) =>
      if existsb isNull e && existsb (isStr "null") t
      then Ok (set "type" (JArr (List.filter (fun ty => negb (isStr "null" ty)) t)) schema)
      else Ok schema
  | _, _ => Ok schema
  end.

Definition rule_destructure_unary_types : Rule := fun schema _ _ _ _ =>
  match get "type" schema with
  | Some (JArr [t]) => Ok (set "type" t schema)
  | _ => Ok schema
  end.

Definition rule_add_empty_required : Rule := fun schema _ _ _ _ =>
  if isObjectType schema && negb (has "required" schema)
  then Ok (set "required" (JArr []) schema)
  else Ok schema.

Definition rule_required_false : Rule := fun schema _ _ _ _ =>
  match get "required" schema with
  | Some (JBool false) => Ok (set "required" (JArr []) schema)
  | _ => Ok schema
  end.

Definition rule_default_additionalProperties : Rule := fun schema _ _ _ _ =>
  if isObjectType schema && negb (has "additionalProperties" schema)
     && negb (has "patternProperties" schema)
  then Ok (set "additionalProperties" (JBool true) schema)
  else Ok schema.

Definition rule_default_id : Rule := fun schema _rootSchema fileName _options isRoot =>
  if isRoot && negb (truthy' (get "id" schema))
  then Ok (set "id" (JStr (toSafeString (justName fileName))) schema)
  else Ok schema.

Definition rule_escape_comment : Rule := fun schema _ _ _ _ =>
  Ok (escapeBlockComment schema).

Definition rule_remove_min_max : Rule := fun schema _rootSchema _fileName options _ =>
  if ignoreMinAndMaxItems options then
    let schema1 := if has "maxItems" schema then delete "maxItems" schema else schema in
    let schema2 := if has "minItems" schema1 then delete "minItems" schema1 else schema1 in
    Ok schema2
  else Ok schema.

Definition rule_normalise_minItems : Rule := fun schema _rootSchema _fileName options _ =>
  if ignoreMinAndMaxItems options then Ok schema
  else if isArrayType schema then
    let minItems := get "minItems" schema in
    Ok (set "minItems"
          (match minItems with Some (JNum n) => JNum n | _ => JNum 0 end) schema)
  else Ok schema.

Definition rule_normalize_items : Rule := fun schema _rootSchema _fileName options _ =>
  if ignoreMinAndMaxItems options then Ok schema
  else
    let maxItems := get "maxItems" schema in
    let minItems := get "minItems" schema in
    let hasMaxItems :=
      match maxItems with Some (JNum n) => (0 <=? n)%Z | _ => false end in
    let hasMinItems :=
      match minItems with Some (JNum n) => (0 <? n)%Z | _ => false end in
    schema1 ←
      match get "items" schema with
      | Some items =>
          if truthy items && negb (isArray items) && (hasMaxItems || hasMinItems)
          then
            newItems ← fill items <$>
              Array (or_value (or_else maxItems minItems) (JNum 0));
            let schema' :=
              if negb hasMaxItems then set "additionalItems" items schema else schema in
            Ok (set "items" (JArr newItems) schema')
          else Ok schema
      | None => Ok schema
      end;
    match get "items" schema1, maxItems with
    | Some (JArr l), Some (JNum n) =>
        if (0 <=? n)%Z && (n <? Z.of_nat (length l))%Z
        then Ok (set "items" (JArr (take (Z.to_nat n) l)) schema1)
        else Ok schema1
    | _, _ => Ok schema1
    end.

Definition rule_defs_to_definitions : Rule := fun schema _ _ _ _ =>
  match get "$defs" schema with
  | Some defs =>
      if truthy defs
      then Ok (delete "$defs" (set "definitions" defs schema))
      else Ok schema
  | None => Ok schema
  end.

Definition rule_const_to_enum : Rule := fun schema _ _ _ _ =>
  match get "const" schema with
  | Some c =>
      if truthy c
      then Ok (delete "const" (set "enum" (JArr [c]) schema))
      else Ok schema
  | None => Ok schema
  end.

(** The registry [rules], a [Map] in insertion order.  The double quote
    inside the first name is spelled by its character code. *)
Definition dq : string := String (ascii_of_nat 34) EmptyString.

Definition rules : list (string * Rule) := [
  ("Remove `type=[" ++ dq ++ "null" ++ dq ++ "]` if `enum=[null]`", rule_remove_null_type);
  ("Destructure unary types", rule_destructure_unary_types);
  ("Add empty `required` property if none is defined", rule_add_empty_required);
  ("Transform `required`=false to `required`=[]", rule_required_false);
  ("Default additionalProperties to true", rule_default_additionalProperties);
  ("Default top level `id`", rule_default_id);
  ("Escape closing JSDoc Comment", rule_escape_comment);
  ("Optionally remove maxItems and minItems", rule_remove_min_max);
  ("Normalise schema.minItems", rule_normalise_minItems);
  ("Normalize schema.items", rule_normalize_items);
  ("Transform $defs to definitions", rule_defs_to_definitions);
  ("Transform const to singleton enum", rule_const_to_enum)
].

(** ** Traversal

    Modelled from the spec: [traverse] belongs to the utils module, which is
    missing from the sources.  The spec has it walk the tree in pre-order:
    the callback runs on a node, then on the nodes below it, which are the
    values of [properties], [definitions] and [$defs], the members of
    [allOf], [anyOf] and [oneOf], [items] (one node or an array of nodes),
    and [additionalItems], [additionalProperties] and [not] when they are
    nodes.  Only the entry node is the root.  The children are read from the
    node as the callback left it.

    A node is an object.  The recursion follows what the callback returns,
    so it is bounded by [fuel], the depth of calls available. *)
Inductive keyKind : Type := KMap | KList | KItems | KNode | KOther.

Definition kindOf (k : string) : keyKind :=
  if existsb (String.eqb k) ["properties"; "definitions"; "$defs"] then KMap
  else if existsb (String.eqb k) ["allOf"; "anyOf"; "oneOf"] then KList
  else if String.eqb k "items" then KItems
  else if existsb (String.eqb k) ["additionalItems"; "additionalProperties"; "not"]
  then KNode
  else KOther.

Section Visit.
Variable visitNode : Schema -> result Schema.

Definition visit (v : JSON) : result JSON :=
  match v with
  | JObj o => JObj <$> visitNode o
  | _ => Ok v
  end.

Definition visitEntry (kv : string * JSON) : result (string * JSON) :=
  pair (fst kv) <$> visit (snd kv).

Definition visitKey (k : string) (v : JSON) : result JSON :=
  match kindOf k, v with
  | KMap, JObj m => JObj <$> mapM visitEntry m
  | KList, JArr l => JArr <$> mapM visit l
  | KItems, JArr l => JArr <$> mapM visit l
  | KItems, JObj _ => visit v
  | KNode, JObj _ => visit v
  | _, _ => Ok v
  end.

Definition visitChildren (schema : Schema) : result Schema :=
  mapM (fun kv => pair (fst kv) <$> visitKey (fst kv) (snd kv)) schema.
End Visit.

Fixpoint traverse (fuel : nat) (schema : Schema)
    (callback : Schema -> bool -> result Schema) (isRoot : bool) : result Schema :=
  match fuel with
  | O => Err CallDepthExceeded
  | S fuel' =>
      schema' ← callback schema isRoot;
      visitChildren (fun child => traverse fuel' child callback false) schema'
  end.

(** [cloneDeep] (lodash) makes a copy that shares nothing with its argument:
    a new reference with the same content. *)

Definition cloneDeep (schema : loc) (σ : store) : result (loc * store) :=
  match σ !! schema with
  | Some content => let l := fresh (dom σ) in Ok (l, <[l := content]> σ)
  | None => Err TypeError
  end.

(** [map.forEach(f)]: [f value key], entry after entry, on the store. *)
Fixpoint forEach (m : list (string * Rule))
    (f : Rule -> string -> store -> result store) (σ : store) : result store :=
  match m with
  | [] => Ok σ
  | (key, rule) :: m' => σ' ← f rule key σ; forEach m' f σ'
  end.

(** ** normalize

    [apply] is the closure of the source: one traversal of [_schema] with
    the rule.  The [log] call prints and is left out. *)
Definition apply (fuel : nat) (_schema : loc) (filename : string) (options : Options)
    (rule : Rule) (key : string) (σ : store) : result store :=
  match σ !! _schema with
  | Some content =>
      content' ← traverse fuel content
                   (fun schema isRoot => rule schema _schema filename options isRoot)
                   true;
      Ok (<[_schema := content']> σ)
  | None => Err TypeError
  end.

Definition normalize (fuel : nat) (schema : loc) (filename : string) (options : Options)
    (σ : store) : result (loc * store) :=
  '(_schema, σ0) ← cloneDeep schema σ;
  σ1 ← forEach rules (apply fuel _schema filename options) σ0;
  σ2 ← match normalizerRules options with
       | Some userRules => forEach userRules (apply fuel _schema filename options) σ1
       | None => Ok σ1
       end;
  Ok (_schema, σ2).

End Normalizer.

(** ** Notions used to state the properties *)

(** The rules of a registry run one after the other on the content of the
    document [_schema]: what the cell of [_schema] goes through in
    [normalize]. *)
Fixpoint applyAll {U : Utils} (fuel : nat) (m : list (string * Rule)) (_schema : loc)
    (filename : string) (options : Options) (content : Schema) : result Schema :=
  match m with
  | [] => Ok content
  | (_, rule) :: m' =>
      content' ← traverse fuel content
                   (fun schema isRoot => rule schema _schema filename options isRoot)
                   true;
      applyAll fuel m' _schema filename options content'
  end.

(** The nodes directly below a node, as [traverse] finds them. *)
Definition nodeOf (v : JSON) : list Schema :=
  match v with JObj o => [o] | _ => [] end.

Definition childrenAt (k : string) (v : JSON) : list Schema :=
  match kindOf k, v with
  | KMap, JObj m => flat_map (fun kv => nodeOf (snd kv)) m
  | KList, JArr l => flat_map nodeOf l
  | KItems, JArr l => flat_map nodeOf l
  | KItems, JObj o => [o]
  | KNode, JObj o => [o]
  | _, _ => []
  end.

Definition children (schema : Schema) : list Schema :=
  flat_map (fun kv => childrenAt (fst kv) (snd kv)) schema.

(** [AllNodes P isRoot s]: [P] holds of every node of the tree [s], the flag
    telling the entry node from the others. *)
Inductive AllNodes (P : bool -> Schema -> Prop) : bool -> Schema -> Prop :=
| AllNodes_intro (isRoot : bool) (s : Schema) :
    P isRoot s -> Forall (AllNodes P false) (children s) -> AllNodes P isRoot s.

(** The same for a tree of at most [n] levels of nodes. *)
Fixpoint Nodes (n : nat) (P : bool -> Schema -> Prop) (isRoot : bool) (s : Schema) : Prop :=
  match n with
  | O => False
  | S n' => P isRoot s /\ Forall (Nodes n' P false) (children s)
  end.

(** Nesting depth of a value. *)
Fixpoint depth (v : JSON) : nat :=
  match v with
  | JArr l => S (foldr (fun x d => Nat.max (depth x) d) 0 l)
  | JObj o => S (foldr (fun kv d => Nat.max (depth (snd kv)) d) 0 o)
  | _ => 0
  end.

(** The node with every node below it emptied: what a rule can tell about
    the children without looking into them. *)
Definition eraseValue (v : JSON) : JSON :=
  match v with JObj _ => JObj [] | _ => v end.

Definition eraseKey (k : string) (v : JSON) : JSON :=
  match kindOf k, v with
  | KMap, JObj m => JObj (map (fun kv => (fst kv, eraseValue (snd kv))) m)
  | KList, JArr l => JArr (map eraseValue l)
  | KItems, JArr l => JArr (map eraseValue l)
  | KItems, JObj _ => JObj []
  | KNode, JObj _ => JObj []
  | _, _ => v
  end.

Definition erase (schema : Schema) : Schema :=
  map (fun kv => (fst kv, eraseKey (fst kv) (snd kv))) schema.

(** What the shape of a node tells about a key. *)
Definition look (k : string) (s : Schema) : option JSON := eraseKey k <$> get k s.

(** [minItems] and [maxItems], when numbers, are array lengths. *)
Definition isLength (v : option JSON) : Prop :=
  forall n, v = Some (JNum n) -> (0 <= n < 2 ^ 32)%Z.

Definition lengthsOK (schema : Schema) : Prop :=
  isLength (get "maxItems" schema) /\ isLength (get "minItems" schema).

(** A [type] that is an array holds no array. *)
Definition typeOK (schema : Schema) : Prop :=
  forall l, get "type" schema = Some (JArr l) -> forallb (fun t => negb (isArray t)) l = true.


(** Modelled from the spec (section 4.1): the registry contract by which a
    rule registered under a name already present replaces the rule of that
    name at its position, and any other rule goes last. *)
Fixpoint register (key : string) (rule : Rule) (m : list (string * Rule)) :
    list (string * Rule) :=
  match m with
  | [] => [(key, rule)]
  | (key', rule') :: m' =>
      if String.eqb key key' then (key', rule) :: m'
      else (key', rule') :: register key rule m'
  end.

Definition registerAll (user m : list (string * Rule)) : list (string * Rule) :=
  fold_left (fun m kr => register (fst kr) (snd kr) m) user m.

(** ** Sample documents and rules *)

(** A caller's rule that marks the node it visits. *)
Definition markSeen : Rule := fun schema _ _ _ _ =>
  Ok (set "seen" (JBool true) schema).

(** A caller's rule that lengthens the title of the node it visits. *)
Definition growTitle : Rule := fun schema _ _ _ _ =>
  match get "title" schema with
  | Some (JStr t) => Ok (set "title" (JStr (t ++ "x")) schema)
  | _ => Ok (set "title" (JStr "x") schema)
  end.

Definition withRules (user : list (string * Rule)) : Options :=
  {| data := DEFAULT_DATA; normalizerRules := Some user |}.

Definition unaryString : Schema := [("type", JArr [JStr "string"])].

Definition storeOf (content : Schema) : store := {[ 1%positive := content ]}.

(** What the spec says of [$defs]: the node loses [$defs], and its
    [definitions] afterwards hold every entry of [$defs] and every entry
    that [definitions] held under a key that [$defs] does not have. *)
Definition defsMerged (schema schema' : Schema) : Prop :=
  get "$defs" schema' = None
  /\ exists merged, get "definitions" schema' = Some (JObj merged)
     /\ (forall defs k v, get "$defs" schema = Some (JObj defs) ->
           get k defs = Some v -> get k merged = Some v)
     /\ (forall old defs k v, get "definitions" schema = Some (JObj old) ->
           get "$defs" schema = Some (JObj defs) ->
           get k old = Some v -> get k defs = None -> get k merged = Some v).

Definition bothDefinitions : Schema :=
  [("definitions", JObj [("a", JObj [])]); ("$defs", JObj [("b", JObj [])])].

Definition hugeMaxItems : Schema :=
  [("items", JObj []); ("maxItems", JNum (2 ^ 32))].


Definition nullableString : Schema :=
  [("enum", JArr [JNull]); ("type", JArr [JStr "string"; JStr "null"])].

Definition emptyTuple : Schema :=
  [("items", JObj [("type", JStr "string")]); ("minItems", JNum 2); ("maxItems", JNum 0)].

Definition openPair : Schema :=
  [("items", JObj [("type", JStr "string")]); ("minItems", JNum 2)].

Definition withData (d : OptionsData) : Options :=
  {| data := d; normalizerRules := None |}.

(** ** Nodes on which a rule has nothing left to do

    One test per rule, on the keys the rule reads: where the test holds, the
    rule leaves the node as it is. *)
Section Settled.
Context {U : Utils}.
Variables (fileName : string) (options : OptionsData).

Definition hasMaxItems (schema : Schema) : bool :=
  match get "maxItems" schema with Some (JNum n) => (0 <=? n)%Z | _ => false end.

Definition hasMinItems (schema : Schema) : bool :=
  match get "minItems" schema with Some (JNum n) => (0 <? n)%Z | _ => false end.

Definition tupleDue (schema : Schema) : bool :=
  match get "items" schema with
  | Some items => truthy items && negb (isArray items)
                  && (hasMaxItems schema || hasMinItems schema)
  | None => false
  end.

Definition sliceDue (schema : Schema) : bool :=
  match get "items" schema, get "maxItems" schema with
  | Some (JArr l), Some (JNum n) => (0 <=? n)%Z && (n <? Z.of_nat (length l))%Z
  | _, _ => false
  end.

(** The two steps of the rule on [items]: the tuple is made, then cut. *)
Definition tupleStep (schema : Schema) : result Schema :=
  match get "items" schema with
  | Some items =>
      if tupleDue schema then
        newItems ← fill items <$>
          Array (or_value (or_else (get "maxItems" schema) (get "minItems" schema))
                   (JNum 0));
        Ok (set "items" (JArr newItems)
              (if hasMaxItems schema then schema
               else set "additionalItems" items schema))
      else Ok schema
  | None => Ok schema
  end.

Definition sliceStep (schema : Schema) : Schema :=
  match get "items" schema, get "maxItems" schema with
  | Some (JArr l), Some (JNum n) =>
      if sliceDue schema
      then set "items" (JArr (take (Z.to_nat n) l)) schema
      else schema
  | _, _ => schema
  end.

Definition settled_remove_null_type (schema : Schema) : bool :=
  match get "enum" schema, get "type" schema with
  | Some (JArr e), Some (JArr t) => negb (existsb isNull e && existsb (isStr "null") t)
  | _, _ => true
  end.

Definition settled_destructure_unary_types (schema : Schema) : bool :=
  match get "type" schema with
  | Some (JArr [_]) => false
  | _ => true
  end.

Definition settled_add_empty_required (schema : Schema) : bool :=
  negb (isObjectType schema && negb (has "required" schema)).

Definition settled_required_false (schema : Schema) : bool :=
  match get "required" schema with
  | Some (JBool false) => false
  | _ => true
  end.

Definition settled_default_additionalProperties (schema : Schema) : bool :=
  negb (isObjectType schema && negb (has "additionalProperties" schema)
        && negb (has "patternProperties" schema)).

Definition settled_default_id (isRoot : bool) (schema : Schema) : bool :=
  negb isRoot || truthy' (get "id" schema)
  || match get "id" schema with
     | Some (JStr i) => String.eqb i (toSafeString (justName fileName))
     | _ => false
     end.

Definition settled_escape_comment (schema : Schema) : bool :=
  match get "description" schema with
  | Some (JStr d) => String.eqb (escapeText d) d
  | _ => true
  end.

Definition settled_remove_min_max (schema : Schema) : bool :=
  negb (ignoreMinAndMaxItems options)
  || (negb (has "maxItems" schema) && negb (has "minItems" schema)).

Definition settled_normalise_minItems (schema : Schema) : bool :=
  ignoreMinAndMaxItems options || negb (isArrayType schema)
  || match get "minItems" schema with Some (JNum _) => true | _ => false end.

Definition settled_normalize_items (schema : Schema) : bool :=
  ignoreMinAndMaxItems options || (negb (tupleDue schema) && negb (sliceDue schema)).

Definition settled_defs_to_definitions (schema : Schema) : bool :=
  negb (truthy' (get "$defs" schema)).

Definition settled_const_to_enum (schema : Schema) : bool :=
  negb (truthy' (get "const" schema)).

(** The tests in the order of the rules. *)
Definition settled : list (bool -> Schema -> bool) := [
  fun _ => settled_remove_null_type;
  fun _ => settled_destructure_unary_types;
  fun _ => settled_add_empty_required;
  fun _ => settled_required_false;
  fun _ => settled_default_additionalProperties;
  settled_default_id;
  fun _ => settled_escape_comment;
  fun _ => settled_remove_min_max;
  fun _ => settled_normalise_minItems;
  fun _ => settled_normalize_items;
  fun _ => settled_defs_to_definitions;
  fun _ => settled_const_to_enum
].

Definition settledBy (tests : list (bool -> Schema -> bool)) (isRoot : bool)
    (schema : Schema) : Prop :=
  foldr (fun test rest => test isRoot schema = true /\ rest) True tests.

End Settled.

(** What a rule owes when it turns the node [s] into [s']: it keeps the
    children or drops some and keeps lengths and types in order; and it
    takes a node settled by the tests [before] to one settled by the tests
    [after]. *)
Definition ruleKeeps (s s' : Schema) : Prop :=
  children s' ⊆ children s
  /\ (lengthsOK s -> lengthsOK s')
  /\ (typeOK s -> typeOK s').

Definition ruleStep (before after : list (bool -> Schema -> bool)) (isRoot : bool)
    (s s' : Schema) : Prop :=
  ruleKeeps s s'
  /\ (typeOK s -> settledBy before isRoot s -> settledBy after isRoot s').

Definition describedString : Schema :=
  [("description", JStr "ends */ here"); ("type", JArr [JStr "string"]);
   ("items", JObj [("const", JNum 1)]); ("minItems", JNum 1)].

Definition nestedType : Schema := [("type", JArr [JArr [JStr "string"]])].

(** A caller's rule that raises. *)
Definition refuse : Rule := fun _ _ _ _ _ => Err (UserError "refused").

Definition nestedNullable : Schema :=
  [("properties", JObj [("p", JObj nullableString)])].

(** The keys each built-in rule may write, in the order of the rules. *)
Definition written (options : OptionsData) : list (list string) := [
  ["type"]; ["type"]; ["required"]; ["required"]; ["additionalProperties"];
  ["id"]; ["description"];
  (if ignoreMinAndMaxItems options then ["maxItems"; "minItems"] else []);
  (if ignoreMinAndMaxItems options then [] else ["minItems"]);
  (if ignoreMinAndMaxItems options then [] else ["items"; "additionalItems"]);
  ["definitions"; "$defs"]; ["enum"; "const"]
].

(** The rules of a registry, one pass after the other, over a node that the
    traversal reaches with the flag [isRoot]: the entry node of the
    document with [true], as in [applyAll], and a node below it with
    [false]. *)
Fixpoint applyAllAt {U : Utils} (isRoot : bool) (fuel : nat) (m : list (string * Rule))
    (_schema : loc) (filename : string) (options : Options) (content : Schema)
    : result Schema :=
  match m with
  | [] => Ok content
  | (_, rule) :: m' =>
      content' ← traverse fuel content
                   (fun schema isRoot => rule schema _schema filename options isRoot)
                   isRoot;
      applyAllAt isRoot fuel m' _schema filename options content'
  end.

(** The nullable string with a [const] beside it. *)
Definition nullableConst : Schema :=
  [("enum", JArr [JNull]); ("type", JArr [JStr "string"; JStr "null"]);
   ("const", JStr "x")].
(** * Properties *)

(** ** Reading after writing *)

Lemma get_set (k k' : string) (v : JSON) (s : Schema) :
  get k (set k' v s) = if String.eqb k k' then Some v else get k s.
Proof.
  induction s as [|[k0 v0] s IH]; simpl.
  - destruct (String.eqb k k'); reflexivity.
  - destruct (String.eqb_spec k' k0) as [->|Hne]; simpl.
    + destruct (String.eqb k k0); reflexivity.
    + rewrite IH. destruct (String.eqb_spec k k0) as [->|Hne'].
      * destruct (String.eqb_spec k0 k'); congruence.
      * reflexivity.
Qed.

Lemma get_delete (k k' : string) (s : Schema) :
  get k (delete k' s) = if String.eqb k k' then None else get k s.
Proof.
  induction s as [|[k0 v0] s IH]; simpl.
  - destruct (String.eqb k k'); reflexivity.
  - destruct (String.eqb_spec k' k0) as [->|Hne]; simpl.
    + rewrite IH. destruct (String.eqb k k0); reflexivity.
    + rewrite IH. destruct (String.eqb_spec k k0) as [->|Hne'].
      * destruct (String.eqb_spec k0 k'); congruence.
      * reflexivity.
Qed.

Lemma set_same (k : string) (v : JSON) (s : Schema) :
  get k s = Some v -> set k v s = s.
Proof.
  induction s as [|[k0 v0] s IH]; simpl; [discriminate|].
  destruct (String.eqb_spec k k0) as [->|Hne]; intros H.
  - congruence.
  - rewrite IH; auto.
Qed.

Lemma set_set (k : string) (v w : JSON) (s : Schema) :
  set k w (set k v s) = set k w s.
Proof.
  induction s as [|[k0 v0] s IH]; simpl.
  - rewrite String.eqb_refl. reflexivity.
  - destruct (String.eqb k k0) eqn:E; simpl; rewrite E; [reflexivity|].
    rewrite IH. reflexivity.
Qed.

(** ** The result monad on lists *)

Lemma bind_Ok {A B} (m : result A) (f : A -> result B) (b : B) :
  m ≫= f = Ok b <-> exists a, m = Ok a /\ f a = Ok b.
Proof.
  destruct m as [a|e]; simpl; split.
  - eauto.
  - intros (a' & [= ->] & H). exact H.
  - discriminate.
  - intros (a' & [=] & _).
Qed.

Lemma fmap_Ok {A B} (f : A -> B) (m : result A) (b : B) :
  f <$> m = Ok b <-> exists a, m = Ok a /\ b = f a.
Proof.
  destruct m as [a|e]; simpl; split.
  - intros [= <-]. eauto.
  - intros (a' & [= ->] & ->). reflexivity.
  - discriminate.
  - intros (a' & [=] & _).
Qed.

Lemma mapM_Ok {A B} (f : A -> result B) (l : list A) (k : list B) :
  mapM f l = Ok k <-> Forall2 (fun x y => f x = Ok y) l k.
Proof.
  revert k. induction l as [|x l IH]; intros k; simpl.
  - split.
    + intros [= <-]. constructor.
    + intros H. inversion H. reflexivity.
  - split.
    + intros H. apply bind_Ok in H as (y & Hy & H).
      apply bind_Ok in H as (k' & Hk' & [= <-]).
      constructor; [exact Hy|]. apply IH. exact Hk'.
    + intros H. inversion H as [|? y ? k' Hy Hk']; subst.
      apply bind_Ok. exists y. split; [exact Hy|].
      apply bind_Ok. exists k'. split; [|reflexivity].
      apply IH. exact Hk'.
Qed.

Lemma mapM_same {A} (f : A -> result A) (l : list A) :
  Forall (fun x => f x = Ok x) l -> mapM f l = Ok l.
Proof.
  intros H. apply mapM_Ok. induction H; constructor; auto.
Qed.

Lemma mapM_exists {A B} (f : A -> result B) (l : list A) :
  Forall (fun x => exists y, f x = Ok y) l -> exists k, mapM f l = Ok k.
Proof.
  induction 1 as [|x l [y Hy] _ [k Hk]].
  - exists []. reflexivity.
  - exists (y :: k). apply mapM_Ok. constructor; [exact Hy|].
    apply mapM_Ok. exact Hk.
Qed.

(** ** What a visit of the children changes *)

Section VisitFacts.
Variable g : Schema -> result Schema.

Lemma visit_inv (v v' : JSON) :
  visit g v = Ok v' ->
  (exists o o', v = JObj o /\ v' = JObj o' /\ g o = Ok o')
  \/ (nodeOf v = [] /\ v' = v).
Proof.
  destruct v; simpl; try (intros [= <-]; right; split; reflexivity).
  intros H. apply fmap_Ok in H as (o' & Ho' & ->). left. eauto.
Qed.

Lemma visit_erase (v v' : JSON) :
  visit g v = Ok v' -> eraseValue v' = eraseValue v.
Proof.
  intros H. apply visit_inv in H as [(o & o' & -> & -> & _)|[_ ->]]; reflexivity.
Qed.

Lemma visit_nodes (v v' : JSON) :
  visit g v = Ok v' -> Forall2 (fun c c' => g c = Ok c') (nodeOf v) (nodeOf v').
Proof.
  intros H. apply visit_inv in H as [(o & o' & -> & -> & H)|[E ->]]; simpl.
  - constructor; [exact H|constructor].
  - rewrite E. constructor.
Qed.

Lemma visit_list_erase (l l' : list JSON) :
  mapM (visit g) l = Ok l' -> map eraseValue l' = map eraseValue l.
Proof.
  intros H. apply mapM_Ok in H.
  induction H as [|v v' l l' Hv _ IH]; simpl; [reflexivity|].
  rewrite IH, (visit_erase _ _ Hv). reflexivity.
Qed.

Lemma visit_list_nodes (l l' : list JSON) :
  mapM (visit g) l = Ok l' ->
  Forall2 (fun c c' => g c = Ok c') (flat_map nodeOf l) (flat_map nodeOf l').
Proof.
  intros H. apply mapM_Ok in H.
  induction H as [|v v' l l' Hv _ IH]; simpl; [constructor|].
  apply Forall2_app; [apply visit_nodes; exact Hv|exact IH].
Qed.

Lemma visit_map_erase (m m' : Schema) :
  mapM (visitEntry g) m = Ok m' ->
  map (fun kv => (fst kv, eraseValue (snd kv))) m'
  = map (fun kv => (fst kv, eraseValue (snd kv))) m.
Proof.
  intros H. apply mapM_Ok in H.
  induction H as [|[k v] [k' v'] l l' Hv _ IH]; simpl; [reflexivity|].
  unfold visitEntry in Hv. simpl in Hv.
  apply fmap_Ok in Hv as (w & Hw & [= -> ->]).
  rewrite IH, (visit_erase _ _ Hw). reflexivity.
Qed.

Lemma visit_map_nodes (m m' : Schema) :
  mapM (visitEntry g) m = Ok m' ->
  Forall2 (fun c c' => g c = Ok c')
    (flat_map (fun kv => nodeOf (snd kv)) m) (flat_map (fun kv => nodeOf (snd kv)) m').
Proof.
  intros H. apply mapM_Ok in H.
  induction H as [|[k v] [k' v'] l l' Hv _ IH]; simpl; [constructor|].
  unfold visitEntry in Hv. simpl in Hv.
  apply fmap_Ok in Hv as (w & Hw & [= -> ->]).
  apply Forall2_app; [apply visit_nodes; exact Hw|exact IH].
Qed.

Lemma visitKey_erase (k : string) (v v' : JSON) :
  visitKey g k v = Ok v' -> eraseKey k v' = eraseKey k v.
Proof.
  unfold visitKey, eraseKey.
  destruct (kindOf k), v; simpl; try (intros [= <-]; reflexivity); intros H.
  - apply fmap_Ok in H as (m' & Hm & ->). rewrite (visit_map_erase _ _ Hm). reflexivity.
  - apply fmap_Ok in H as (l' & Hl & ->). rewrite (visit_list_erase _ _ Hl). reflexivity.
  - apply fmap_Ok in H as (l' & Hl & ->). rewrite (visit_list_erase _ _ Hl). reflexivity.
  - apply fmap_Ok in H as (o' & _ & ->). reflexivity.
  - apply fmap_Ok in H as (o' & _ & ->). reflexivity.
Qed.

Lemma visitKey_nodes (k : string) (v v' : JSON) :
  visitKey g k v = Ok v' ->
  Forall2 (fun c c' => g c = Ok c') (childrenAt k v) (childrenAt k v').
Proof.
  unfold visitKey, childrenAt.
  destruct (kindOf k), v; simpl; try (intros [= <-]; constructor); intros H.
  - apply fmap_Ok in H as (m' & Hm & ->). apply visit_map_nodes. exact Hm.
  - apply fmap_Ok in H as (l' & Hl & ->). apply visit_list_nodes. exact Hl.
  - apply fmap_Ok in H as (l' & Hl & ->). apply visit_list_nodes. exact Hl.
  - apply fmap_Ok in H as (o' & Ho & ->). constructor; [exact Ho|constructor].
  - apply fmap_Ok in H as (o' & Ho & ->). constructor; [exact Ho|constructor].
Qed.

Lemma visitChildren_erase (s t : Schema) :
  visitChildren g s = Ok t -> erase t = erase s.
Proof.
  unfold visitChildren, erase. intros H. apply mapM_Ok in H.
  induction H as [|[k v] [k' v'] l l' Hv _ IH]; simpl; [reflexivity|].
  simpl in Hv. apply fmap_Ok in Hv as (w & Hw & [= -> ->]).
  rewrite IH, (visitKey_erase _ _ _ Hw). reflexivity.
Qed.

Lemma visitChildren_nodes (s t : Schema) :
  visitChildren g s = Ok t ->
  Forall2 (fun c c' => g c = Ok c') (children s) (children t).
Proof.
  unfold visitChildren, children. intros H. apply mapM_Ok in H.
  induction H as [|[k v] [k' v'] l l' Hv _ IH]; simpl; [constructor|].
  simpl in Hv. apply fmap_Ok in Hv as (w & Hw & [= -> ->]).
  apply Forall2_app; [apply visitKey_nodes; exact Hw|exact IH].
Qed.

(** When the visit succeeds on every child, it succeeds on the node. *)
(** When the visit succeeds on every child, it succeeds on the node. *)
Lemma visit_exists (v : JSON) :
  Forall (fun c => exists c', g c = Ok c') (nodeOf v) -> exists v', visit g v = Ok v'.
Proof.
  destruct v; simpl; eauto.
  intros H. inversion H as [|? ? Hc _]; subst. destruct Hc as [c' Hc'].
  exists (JObj c'). rewrite Hc'. reflexivity.
Qed.

Lemma visit_list_exists (l : list JSON) :
  Forall (fun c => exists c', g c = Ok c') (flat_map nodeOf l) ->
  exists l', mapM (visit g) l = Ok l'.
Proof.
  intros H. apply mapM_exists.
  induction l as [|v l IH]; simpl in *; [constructor|].
  apply Forall_app in H as [Hv Hl].
  constructor; [apply visit_exists; exact Hv|apply IH; exact Hl].
Qed.

Lemma visit_map_exists (m : Schema) :
  Forall (fun c => exists c', g c = Ok c') (flat_map (fun kv => nodeOf (snd kv)) m) ->
  exists m', mapM (visitEntry g) m = Ok m'.
Proof.
  intros H. apply mapM_exists.
  induction m as [|[k v] l IH]; simpl in *; [constructor|].
  apply Forall_app in H as [Hv Hl].
  constructor; [|apply IH; exact Hl].
  destruct (visit_exists _ Hv) as [v' Hv'].
  exists (k, v'). unfold visitEntry. simpl. rewrite Hv'. reflexivity.
Qed.

Lemma visitKey_exists (k : string) (v : JSON) :
  Forall (fun c => exists c', g c = Ok c') (childrenAt k v) ->
  exists v', visitKey g k v = Ok v'.
Proof.
  unfold visitKey, childrenAt.
  destruct (kindOf k), v; simpl; eauto; intros H.
  - destruct (visit_map_exists _ H) as [m' ->]. simpl. eauto.
  - destruct (visit_list_exists _ H) as [l' ->]. simpl. eauto.
  - destruct (visit_list_exists _ H) as [l' ->]. simpl. eauto.
  - inversion H as [|? ? Hc _]; subst. destruct Hc as [c' ->]. simpl. eauto.
  - inversion H as [|? ? Hc _]; subst. destruct Hc as [c' ->]. simpl. eauto.
Qed.

Lemma visitChildren_exists (s : Schema) :
  Forall (fun c => exists c', g c = Ok c') (children s) ->
  exists t, visitChildren g s = Ok t.
Proof.
  unfold visitChildren, children. intros H. apply mapM_exists.
  induction s as [|[k v] l IH]; simpl in *; [constructor|].
  apply Forall_app in H as [Hv Hl].
  constructor; [|apply IH; exact Hl].
  destruct (visitKey_exists _ _ Hv) as [v' Hv'].
  exists (k, v'). simpl. rewrite Hv'. reflexivity.
Qed.

(** When the visit leaves every child as it is, it leaves the node as it is. *)
Lemma visit_same (v : JSON) :
  Forall (fun c => g c = Ok c) (nodeOf v) -> visit g v = Ok v.
Proof.
  destruct v; simpl; auto.
  intros H. inversion H as [|? ? Hc _]; subst. rewrite Hc. reflexivity.
Qed.

Lemma visit_list_same (l : list JSON) :
  Forall (fun c => g c = Ok c) (flat_map nodeOf l) -> mapM (visit g) l = Ok l.
Proof.
  intros H. apply mapM_same.
  induction l as [|v l IH]; simpl in *; [constructor|].
  apply Forall_app in H as [Hv Hl].
  constructor; [apply visit_same; exact Hv|apply IH; exact Hl].
Qed.

Lemma visit_map_same (m : Schema) :
  Forall (fun c => g c = Ok c) (flat_map (fun kv => nodeOf (snd kv)) m) ->
  mapM (visitEntry g) m = Ok m.
Proof.
  intros H. apply mapM_same.
  induction m as [|[k v] l IH]; simpl in *; [constructor|].
  apply Forall_app in H as [Hv Hl].
  constructor; [|apply IH; exact Hl].
  unfold visitEntry. simpl. rewrite (visit_same _ Hv). reflexivity.
Qed.

Lemma visitKey_same (k : string) (v : JSON) :
  Forall (fun c => g c = Ok c) (childrenAt k v) -> visitKey g k v = Ok v.
Proof.
  unfold visitKey, childrenAt.
  destruct (kindOf k), v; simpl; auto; intros H.
  - rewrite (visit_map_same _ H). reflexivity.
  - rewrite (visit_list_same _ H). reflexivity.
  - rewrite (visit_list_same _ H). reflexivity.
  - inversion H as [|? ? Hc _]; subst. rewrite Hc. reflexivity.
  - inversion H as [|? ? Hc _]; subst. rewrite Hc. reflexivity.
Qed.

Lemma visitChildren_same (s : Schema) :
  Forall (fun c => g c = Ok c) (children s) -> visitChildren g s = Ok s.
Proof.
  unfold visitChildren, children. intros H. apply mapM_same.
  induction s as [|[k v] l IH]; simpl in *; [constructor|].
  apply Forall_app in H as [Hv Hl].
  constructor; [|apply IH; exact Hl].
  simpl. rewrite (visitKey_same _ _ Hv). reflexivity.
Qed.

End VisitFacts.

(** A visit that does at least what another does. *)
Section VisitMono.
Variables g g' : Schema -> result Schema.
Hypothesis g_g' : forall c c', g c = Ok c' -> g' c = Ok c'.

Lemma visit_mono (v v' : JSON) : visit g v = Ok v' -> visit g' v = Ok v'.
Proof.
  destruct v; simpl; auto.
  intros H. apply fmap_Ok in H as (o' & Ho' & ->).
  rewrite (g_g' _ _ Ho'). reflexivity.
Qed.

Lemma visitEntry_mono (kv kv' : string * JSON) :
  visitEntry g kv = Ok kv' -> visitEntry g' kv = Ok kv'.
Proof.
  unfold visitEntry. intros H. apply fmap_Ok in H as (w & Hw & ->).
  rewrite (visit_mono _ _ Hw). reflexivity.
Qed.

Lemma mapM_mono {A B} (f f' : A -> result B) (l : list A) (k : list B) :
  (forall x y, f x = Ok y -> f' x = Ok y) -> mapM f l = Ok k -> mapM f' l = Ok k.
Proof.
  intros Hf H. apply mapM_Ok. apply mapM_Ok in H.
  eapply Forall2_impl; [exact H|]. exact Hf.
Qed.

Lemma visitKey_mono (k : string) (v v' : JSON) :
  visitKey g k v = Ok v' -> visitKey g' k v = Ok v'.
Proof.
  unfold visitKey.
  destruct (kindOf k), v; simpl; auto; intros H.
  - apply fmap_Ok in H as (m' & Hm & ->).
    rewrite (mapM_mono _ _ _ _ visitEntry_mono Hm). reflexivity.
  - apply fmap_Ok in H as (l' & Hl & ->).
    rewrite (mapM_mono _ _ _ _ visit_mono Hl). reflexivity.
  - apply fmap_Ok in H as (l' & Hl & ->).
    rewrite (mapM_mono _ _ _ _ visit_mono Hl). reflexivity.
  - apply fmap_Ok in H as (o' & Ho & ->). rewrite (g_g' _ _ Ho). reflexivity.
  - apply fmap_Ok in H as (o' & Ho & ->). rewrite (g_g' _ _ Ho). reflexivity.
Qed.

Lemma visitChildren_mono (s t : Schema) :
  visitChildren g s = Ok t -> visitChildren g' s = Ok t.
Proof.
  unfold visitChildren. apply mapM_mono.
  intros [k v] [k' v'] H. simpl in *.
  apply fmap_Ok in H as (w & Hw & [= -> ->]).
  rewrite (visitKey_mono _ _ _ Hw). reflexivity.
Qed.
End VisitMono.

(** ** Trees of nodes *)

Lemma Nodes_impl (P Q : bool -> Schema -> Prop) (n : nat) :
  (forall r s, P r s -> Q r s) -> forall r s, Nodes n P r s -> Nodes n Q r s.
Proof.
  intros HPQ. induction n as [|n IH]; intros r s H; [destruct H|].
  destruct H as [HP Hc]. split; [auto|].
  eapply Forall_impl; [exact Hc|]. intros c. apply IH.
Qed.

Lemma depth_node_of (v : JSON) (c : Schema) :
  c ∈ nodeOf v -> depth (JObj c) <= depth v.
Proof.
  destruct v; simpl; try (intros H; inversion H; fail).
  intros H. apply list_elem_of_singleton in H. subst. reflexivity.
Qed.

Lemma depth_list_nodes (l : list JSON) (c : Schema) :
  c ∈ flat_map nodeOf l ->
  depth (JObj c) <= foldr (fun x d => Nat.max (depth x) d) 0 l.
Proof.
  induction l as [|v l IH]; simpl; [intros H; inversion H|].
  intros H. apply elem_of_app in H as [H|H].
  - apply depth_node_of in H. simpl in H. lia.
  - apply IH in H. simpl in H. lia.
Qed.

Lemma depth_map_nodes (m : Schema) (c : Schema) :
  c ∈ flat_map (fun kv => nodeOf (snd kv)) m ->
  depth (JObj c) <= foldr (fun kv d => Nat.max (depth (snd kv)) d) 0 m.
Proof.
  induction m as [|[k v] l IH]; simpl; [intros H; inversion H|].
  intros H. apply elem_of_app in H as [H|H].
  - apply depth_node_of in H. simpl in H. lia.
  - apply IH in H. simpl in H. lia.
Qed.

Lemma depth_childrenAt (k : string) (v : JSON) (c : Schema) :
  c ∈ childrenAt k v -> depth (JObj c) <= depth v.
Proof.
  unfold childrenAt.
  destruct (kindOf k), v; try (intros H; inversion H; fail); intros H.
  - apply depth_map_nodes in H. simpl in *. lia.
  - apply depth_list_nodes in H. simpl in *. lia.
  - apply depth_list_nodes in H. simpl in *. lia.
  - apply list_elem_of_singleton in H. subst. reflexivity.
  - apply list_elem_of_singleton in H. subst. reflexivity.
Qed.

Lemma depth_children (s c : Schema) :
  c ∈ children s -> depth (JObj c) < depth (JObj s).
Proof.
  unfold children. induction s as [|[k v] l IH]; simpl; [intros H; inversion H|].
  intros H. apply elem_of_app in H as [H|H].
  - apply depth_childrenAt in H. simpl in *. lia.
  - apply IH in H. simpl in *. lia.
Qed.

Lemma AllNodes_Nodes (P : bool -> Schema -> Prop) (n : nat) :
  forall r s, depth (JObj s) <= n -> AllNodes P r s -> Nodes n P r s.
Proof.
  induction n as [|n IH]; intros r s Hd H.
  - simpl in Hd. lia.
  - inversion H as [? ? HP Hc]; subst. split; [exact HP|].
    rewrite Forall_forall in *. intros c Hin.
    apply IH; [|auto]. apply depth_children in Hin. lia.
Qed.

(** ** One traversal *)

Lemma traverse_S (n : nat) (s : Schema) (cb : Schema -> bool -> result Schema) (r : bool) :
  traverse (S n) s cb r
  = cb s r ≫= visitChildren (fun child => traverse n child cb false).
Proof. reflexivity. Qed.

Lemma traverse_fuel (cb : Schema -> bool -> result Schema) (n m : nat) :
  n <= m -> forall s r t, traverse n s cb r = Ok t -> traverse m s cb r = Ok t.
Proof.
  revert m. induction n as [|n IH]; intros m Hle s r t H; [discriminate|].
  destruct m as [|m]; [lia|].
  rewrite traverse_S in *. apply bind_Ok in H as (s' & Hs' & H).
  apply bind_Ok. exists s'. split; [exact Hs'|].
  eapply visitChildren_mono; [|exact H].
  intros c c'. apply IH. lia.
Qed.

Section Traversal.
Variable cb : Schema -> bool -> result Schema.
Variables P Q : bool -> Schema -> Prop.

(** The callback keeps the children it finds, or fewer. *)
Hypothesis cb_post : forall r s s',
  P r s -> cb s r = Ok s' -> Q r s' /\ children s' ⊆ children s.
(** [Q] looks at the node, not into its children. *)
Hypothesis Q_erase : forall r s t, Q r s -> erase t = erase s -> Q r t.

Lemma traverse_post (n : nat) :
  forall m r s t, Nodes m P r s -> traverse n s cb r = Ok t -> Nodes n Q r t.
Proof.
  induction n as [|n IH]; intros m r s t HP H; [discriminate|].
  destruct m as [|m]; [destruct HP|]. destruct HP as [HP Hc].
  rewrite traverse_S in H. apply bind_Ok in H as (s' & Hs' & H).
  destruct (cb_post _ _ _ HP Hs') as [HQ Hsub].
  split.
  - eapply Q_erase; [exact HQ|]. eapply visitChildren_erase. exact H.
  - apply visitChildren_nodes in H.
    rewrite Forall_forall in Hc.
    assert (Hc' : Forall (Nodes m P false) (children s')).
    { apply Forall_forall. intros c Hin. apply Hc, Hsub, Hin. }
    clear - IH H Hc'. induction H as [|c c' l l' Hcc' _ IHl]; [constructor|].
    inversion Hc' as [|? ? Hc0 Hl0]; subst.
    constructor; [eapply IH; eauto|auto].
Qed.

Hypothesis cb_total : forall r s, P r s -> exists s', cb s r = Ok s'.

Lemma traverse_total (n : nat) :
  forall r s, Nodes n P r s -> exists t, traverse n s cb r = Ok t.
Proof.
  induction n as [|n IH]; intros r s HP; [destruct HP|].
  destruct HP as [HP Hc].
  destruct (cb_total _ _ HP) as [s' Hs'].
  destruct (cb_post _ _ _ HP Hs') as [_ Hsub].
  destruct (visitChildren_exists (fun child => traverse n child cb false) s') as [t Ht].
  - rewrite Forall_forall in *. intros c Hin. apply IH, Hc, Hsub, Hin.
  - exists t. rewrite traverse_S, Hs'. exact Ht.
Qed.
End Traversal.

(** A tree whose nodes the callback leaves alone is left alone. *)
Lemma traverse_same (cb : Schema -> bool -> result Schema) (P : bool -> Schema -> Prop) :
  (forall r s, P r s -> cb s r = Ok s) ->
  forall n r s, Nodes n P r s -> traverse n s cb r = Ok s.
Proof.
  intros Hcb. induction n as [|n IH]; intros r s HP; [destruct HP|].
  destruct HP as [HP Hc]. rewrite traverse_S, (Hcb _ _ HP). simpl.
  apply visitChildren_same.
  eapply Forall_impl; [exact Hc|]. intros c. apply IH.
Qed.

(** ** The store of documents *)

Section StoreFacts.
Context {U : Utils}.

Lemma applyAll_app (fuel : nat) (m1 m2 : list (string * Rule)) (l : loc)
    (f : string) (o : Options) (c : Schema) :
  applyAll fuel (m1 ++ m2) l f o c = applyAll fuel m1 l f o c ≫= applyAll fuel m2 l f o.
Proof.
  revert c. induction m1 as [|[k r] m1 IH]; intros c; simpl; [reflexivity|].
  destruct (traverse fuel c _ true) as [c'|e]; simpl; [apply IH|reflexivity].
Qed.

Lemma apply_eq (fuel : nat) (l : loc) (f : string) (o : Options) (r : Rule)
    (k : string) (σ : store) (c : Schema) :
  σ !! l = Some c ->
  apply fuel l f o r k σ
  = (c' ← traverse fuel c (fun schema isRoot => r schema l f o isRoot) true;
     Ok (<[l := c']> σ)).
Proof. intros Hc. unfold apply. rewrite Hc. reflexivity. Qed.

Lemma forEach_apply (fuel : nat) (l : loc) (f : string) (o : Options)
    (m : list (string * Rule)) :
  forall (σ : store) (c : Schema),
    σ !! l = Some c ->
    forEach m (apply fuel l f o) σ
    = (c' ← applyAll fuel m l f o c; Ok (<[l := c']> σ)).
Proof.
  induction m as [|[k r] m IH]; intros σ c Hc; simpl.
  - rewrite insert_id by exact Hc. reflexivity.
  - rewrite (apply_eq _ _ _ _ _ _ _ c Hc).
    destruct (traverse fuel c _ true) as [c1|e]; simpl; [|reflexivity].
    rewrite (IH _ c1) by apply lookup_insert_eq.
    destruct (applyAll fuel m l f o c1) as [c'|e]; simpl; [|reflexivity].
    rewrite insert_insert_eq. reflexivity.
Qed.

(** [normalize] in one equation: the clone goes through the built-in rules
    and then through the caller's. *)
Lemma normalize_eq (fuel : nat) (schema : loc) (f : string) (o : Options)
    (σ : store) (c : Schema) :
  σ !! schema = Some c ->
  normalize fuel schema f o σ
  = (c1 ← applyAll fuel rules (fresh (dom σ)) f o c;
     c2 ← applyAll fuel (default [] (normalizerRules o)) (fresh (dom σ)) f o c1;
     Ok (fresh (dom σ), <[fresh (dom σ) := c2]> σ)).
Proof.
  intros Hc. unfold normalize, cloneDeep. rewrite Hc.
  cbv beta iota delta [mbind result_bind].
  set (l := fresh (dom σ)).
  rewrite (forEach_apply _ _ _ _ _ _ c) by apply lookup_insert_eq.
  cbv beta iota delta [mbind result_bind].
  destruct (applyAll fuel rules l f o c) as [c1|e]; [|reflexivity].
  rewrite insert_insert_eq.
  destruct (normalizerRules o) as [user|].
  - rewrite (forEach_apply _ _ _ _ _ _ c1) by apply lookup_insert_eq.
    cbv beta iota delta [mbind result_bind]. simpl (default _ _).
    destruct (applyAll fuel user l f o c1) as [c2|e]; [|reflexivity].
    rewrite insert_insert_eq. reflexivity.
  - reflexivity.
Qed.

Lemma normalize_Ok (fuel : nat) (schema : loc) (f : string) (o : Options)
    (σ σ' : store) (l : loc) :
  normalize fuel schema f o σ = Ok (l, σ') ->
  exists c c', σ !! schema = Some c
    /\ applyAll fuel (rules ++ default [] (normalizerRules o)) l f o c = Ok c'
    /\ l = fresh (dom σ) /\ σ' = <[l := c']> σ.
Proof.
  intros Hn. destruct (σ !! schema) as [c|] eqn:Hc.
  - rewrite (normalize_eq _ _ _ _ _ c Hc) in Hn.
    apply bind_Ok in Hn as (c1 & E1 & Hn).
    apply bind_Ok in Hn as (c2 & E2 & [= <- <-]).
    exists c, c2. rewrite applyAll_app, E1. auto.
  - unfold normalize, cloneDeep in Hn. rewrite Hc in Hn. discriminate.
Qed.

End StoreFacts.

(** ** The caller's document *)

(** C7.  [normalize] leaves the caller's document as it was.  The rules work
    on a copy made on entry, which sits at a reference the store did not
    have before: when [normalize] returns, every reference of the store it
    was given, the argument among them, holds what it held, and the
    reference returned is the new one, holding the document the rules
    produced. *)
Theorem normalize_leaves_input {U : Utils} (fuel : nat) (schema : loc) (f : string)
    (o : Options) (σ σ' : store) (l : loc) :
  normalize fuel schema f o σ = Ok (l, σ') ->
  (σ' !! schema = σ !! schema)
  /\ (l <> schema)
  /\ (l ∉ dom σ)
  /\ (forall l0, l0 ∈ dom σ -> σ' !! l0 = σ !! l0)
  /\ (exists c', σ' = <[l := c']> σ).
Proof.
  intros Hn. apply normalize_Ok in Hn as (c & c' & Hc & _ & -> & ->).
  assert (Hfresh : fresh (dom σ) ∉ dom σ) by apply is_fresh.
  assert (Hin : schema ∈ dom σ) by (apply elem_of_dom; eauto).
  assert (Hne : fresh (dom σ) <> schema) by (intros E; rewrite E in Hfresh; auto).
  repeat split.
  - apply lookup_insert_ne. exact Hne.
  - exact Hne.
  - exact Hfresh.
  - intros l0 Hl0. apply lookup_insert_ne. intros E. rewrite E in Hfresh. auto.
  - eauto.
Qed.

Lemma normalize_leaves_input_witness :
  let σ := storeOf unaryString in
  let σ' := <[2%positive := [("type", JStr "string"); ("id", JStr "a")]]> σ in
  normalize (U := plainUtils) 1 1%positive "a" DEFAULT_OPTIONS σ = Ok (2%positive, σ')
  /\ σ' !! 1%positive = σ !! 1%positive.
Proof.
  intros σ σ'.
  assert (Hn : normalize (U := plainUtils) 1 1%positive "a" DEFAULT_OPTIONS σ
               = Ok (2%positive, σ')) by (vm_compute; reflexivity).
  split; [exact Hn|].
  exact (proj1 (normalize_leaves_input (U := plainUtils) _ _ _ _ _ _ _ Hn)).
Defined.

(** ** The caller's rules *)

(** C9.  The caller's rules do not go into the registry.  Whatever their
    names, a name of a built-in rule among them, [normalize] runs the twelve
    built-in rules over the whole tree, each at its place, and then the
    caller's rules over the whole tree in their order: a caller's rule that
    bears the name of a built-in rule runs in addition to it, last, and
    does not replace it. *)
Theorem caller_rules_run_after_builtins {U : Utils} (fuel : nat) (schema : loc)
    (f : string) (o : Options) (σ : store) (c : Schema) (user : list (string * Rule)) :
  σ !! schema = Some c ->
  normalizerRules o = Some user ->
  normalize fuel schema f o σ
  = (c1 ← applyAll fuel rules (fresh (dom σ)) f o c;
     c2 ← applyAll fuel user (fresh (dom σ)) f o c1;
     Ok (fresh (dom σ), <[fresh (dom σ) := c2]> σ)).
Proof.
  intros Hc Hu. rewrite (normalize_eq _ _ _ _ _ c Hc), Hu. reflexivity.
Qed.

(** A caller's rule under the name of the second built-in rule: the type is
    destructured by the built-in rule and the node is marked by the
    caller's. *)
Lemma caller_rules_run_after_builtins_witness :
  let o := withRules [("Destructure unary types", markSeen)] in
  let σ := storeOf unaryString in
  σ !! 1%positive = Some unaryString
  /\ normalizerRules o = Some [("Destructure unary types", markSeen)]
  /\ normalize (U := plainUtils) 1 1%positive "a" o σ
     = Ok (2%positive,
           <[2%positive := [("type", JStr "string"); ("id", JStr "a");
                            ("seen", JBool true)]]> σ).
Proof.
  intros o σ. split; [reflexivity|]. split; [reflexivity|].
  rewrite (caller_rules_run_after_builtins (U := plainUtils) 1 1%positive "a" o σ
             unaryString [("Destructure unary types", markSeen)]
             eq_refl eq_refl).
  vm_compute. reflexivity.
Defined.

(** Had the caller's rule replaced the built-in rule of its name, as the
    registry contract of the spec has it, the type would have stayed an
    array. *)
Example replacing_registry_differs :
  applyAll (U := plainUtils) 1
    (registerAll [("Destructure unary types", markSeen)] (rules (U := plainUtils)))
    1%positive "a"
    (withRules [("Destructure unary types", markSeen)]) unaryString
  = Ok [("type", JArr [JStr "string"]); ("seen", JBool true); ("id", JStr "a")].
Proof. vm_compute. reflexivity. Qed.

(** ** The rules one by one *)


Lemma visitChildren_unchanged (g : Schema -> result Schema) (s t : Schema) :
  (forall c c', g c = Ok c' -> c' = c) -> visitChildren g s = Ok t -> t = s.
Proof.
  intros Hg Ht.
  assert (Hs : visitChildren g s = Ok s).
  { apply visitChildren_same. apply visitChildren_nodes in Ht.
    induction Ht as [|c c' l l' Hc _ IH]; constructor; [|exact IH].
    rewrite Hc. f_equal. apply Hg. exact Hc. }
  congruence.
Qed.

Lemma traverse_unchanged (cb : Schema -> bool -> result Schema) :
  (forall s, cb s false = Ok s) ->
  forall n s t, traverse n s cb false = Ok t -> t = s.
Proof.
  intros Hcb. induction n as [|n IH]; intros s t Ht; [discriminate|].
  rewrite traverse_S, Hcb in Ht. simpl in Ht.
  eapply visitChildren_unchanged; [|exact Ht]. exact IH.
Qed.

(** A pass of the rule that defaults the top-level [id] changes the tree
    as the rule changes its root, and nothing below. *)
Lemma rule_default_id_pass {U : Utils} (schema : Schema) (root : loc)
    (f : string) (o : OptionsData) (fuel : nat) (t : Schema) :
  traverse fuel schema (fun s isRoot => rule_default_id s root f o isRoot) true = Ok t ->
  rule_default_id schema root f o true = Ok t.
Proof.
  intros Ht.
  destruct fuel as [|n]; [discriminate|].
  rewrite traverse_S in Ht. apply bind_Ok in Ht as (s' & Hs' & Ht).
  rewrite Hs'. f_equal. symmetry.
  eapply visitChildren_unchanged; [|exact Ht].
  intros c c'. apply traverse_unchanged. reflexivity.
Qed.

(** C3.  A [const] that is falsy is not folded: the rule tests the value of
    [const] for truthiness, so with [0], the empty string, [false] or
    [null] the node keeps [const] and gets no [enum].  The four documents
    below come out of [normalize] with [const] in place. *)
Theorem falsy_const_survives {U : Utils} (f : string) (c : JSON) :
  c ∈ [JNum 0; JStr ""; JBool false; JNull] ->
  normalize 1 1%positive f DEFAULT_OPTIONS (storeOf [("const", c)])
  = Ok (2%positive,
        <[2%positive := [("const", c); ("id", JStr (toSafeString (justName f)))]]>
          (storeOf [("const", c)])).
Proof.
  intros Hc. repeat (apply elem_of_cons in Hc as [->|Hc]; [vm_compute; reflexivity|]).
  inversion Hc.
Qed.

Lemma falsy_const_survives_witness :
  normalize (U := plainUtils) 1 1%positive "a" DEFAULT_OPTIONS (storeOf [("const", JNum 0)])
  = Ok (2%positive,
        <[2%positive := [("const", JNum 0); ("id", JStr "a")]]>
          (storeOf [("const", JNum 0)])).
Proof.
  apply (falsy_const_survives (U := plainUtils) "a" (JNum 0)).
  apply elem_of_cons. left. reflexivity.
Defined.

(** A truthy [const] is folded into a one-element [enum]. *)
Lemma truthy_const_folded (schema : Schema) (c : JSON) (root : loc) (f : string)
    (o : OptionsData) (r : bool) :
  get "const" schema = Some c -> truthy c = true ->
  exists schema', rule_const_to_enum schema root f o r = Ok schema'
    /\ get "enum" schema' = Some (JArr [c]) /\ get "const" schema' = None.
Proof.
  intros Hc Ht. unfold rule_const_to_enum. rewrite Hc, Ht.
  eexists. split; [reflexivity|].
  rewrite !get_delete, !get_set. simpl. auto.
Qed.

(** The rule that renames [$defs] assigns: for
    every node whose [$defs] is truthy, as every object is, the node loses
    [$defs] and its [definitions] become the value that [$defs] had;
    what [definitions] held before is dropped, and no other key changes. *)
Lemma rule_defs_overwrite (schema : Schema) (defs : JSON) (root : loc)
    (f : string) (o : OptionsData) (r : bool) :
  get "$defs" schema = Some defs -> truthy defs = true ->
  exists schema', rule_defs_to_definitions schema root f o r = Ok schema'
    /\ get "$defs" schema' = None
    /\ get "definitions" schema' = Some defs
    /\ (forall k, k <> "$defs" -> k <> "definitions" -> get k schema' = get k schema).
Proof.
  intros Hd Ht. unfold rule_defs_to_definitions. rewrite Hd, Ht.
  eexists. split; [reflexivity|].
  rewrite !get_delete, !get_set. simpl. repeat split.
  intros k H1 H2. rewrite get_delete, get_set.
  destruct (String.eqb_spec k "$defs"); [congruence|].
  destruct (String.eqb_spec k "definitions"); [congruence|]. reflexivity.
Qed.

(** The entry [a] of [definitions] collides with nothing in [$defs], and it
    is gone after the rule, and after [normalize]. *)
Lemma definitions_not_merged :
  (exists schema', rule_defs_to_definitions bothDefinitions 1%positive "a" DEFAULT_DATA true = Ok schema'
     /\ ~ defsMerged bothDefinitions schema')
  /\ (exists l σ' schema',
        normalize (U := plainUtils) 2 1%positive "a" DEFAULT_OPTIONS (storeOf bothDefinitions)
        = Ok (l, σ')
        /\ σ' !! l = Some schema' /\ ~ defsMerged bothDefinitions schema').
Proof.
  assert (Hno : ~ defsMerged bothDefinitions [("definitions", JObj [("b", JObj [])])]).
  { intros (_ & merged & Hm & _ & Hold). simpl in Hm. injection Hm as <-.
    specialize (Hold [("a", JObj [])] [("b", JObj [])] "a" (JObj [])
                  eq_refl eq_refl eq_refl eq_refl).
    discriminate. }
  split.
  - eexists. split; [reflexivity|]. exact Hno.
  - exists 2%positive. eexists. exists [("definitions", JObj [("b", JObj [])]); ("id", JStr "a")].
    split; [vm_compute; reflexivity|]. split; [reflexivity|].
    intros (_ & merged & Hm & _ & Hold). simpl in Hm. injection Hm as <-.
    specialize (Hold [("a", JObj [])] [("b", JObj [])] "a" (JObj [])
                  eq_refl eq_refl eq_refl eq_refl).
    discriminate.
Qed.





(** ** A whole normalization *)

(** The document that is the nullable string alone, and the one that has it
    as the schema of a property, for every file name, every setting of the
    options without caller's rules, and every depth of calls that reaches
    the node. *)
Example nullable_string_documents {U : Utils} (fuel : nat) (schema : loc)
    (f : string) (d : OptionsData) (σ : store) :
  (σ !! schema = Some nullableString ->
   normalize (S fuel) schema f (withData d) σ
   = Ok (fresh (dom σ),
         <[fresh (dom σ) := [("enum", JArr [JNull]); ("type", JStr "string");
                             ("id", JStr (toSafeString (justName f)))]]> σ))
  /\ (σ !! schema = Some nestedNullable ->
      normalize (S (S fuel)) schema f (withData d) σ
      = Ok (fresh (dom σ),
            <[fresh (dom σ) :=
                [("properties",
                  JObj [("p", JObj [("enum", JArr [JNull]); ("type", JStr "string")])]);
                 ("required", JArr []); ("additionalProperties", JBool true);
                 ("id", JStr (toSafeString (justName f)))]]> σ)).
Proof.
  destruct d as [b c e1 e2 e3 ig e4 e5 e6].
  split; intros Hc; rewrite (normalize_eq _ _ _ _ _ _ Hc); destruct ig; reflexivity.
Qed.

(** ** The children and the shape of a node after a write *)

Lemma childrenAt_other (k : string) (v : JSON) :
  kindOf k = KOther -> childrenAt k v = [].
Proof. unfold childrenAt. intros ->. reflexivity. Qed.

Lemma eraseKey_other (k : string) (v : JSON) :
  kindOf k = KOther -> eraseKey k v = v.
Proof. unfold eraseKey. intros ->. reflexivity. Qed.

Lemma children_set (k : string) (v : JSON) (s : Schema) :
  children (set k v s) ⊆ (childrenAt k v ++ children s)%list.
Proof.
  unfold children. induction s as [|[k0 v0] s IH]; simpl.
  - rewrite app_nil_r. reflexivity.
  - destruct (String.eqb_spec k k0) as [->|Hne]; simpl.
    + intros c Hc. apply elem_of_app in Hc as [Hc|Hc];
        rewrite !elem_of_app; auto.
    + intros c Hc. apply elem_of_app in Hc as [Hc|Hc].
      * rewrite !elem_of_app; auto.
      * apply IH in Hc. rewrite !elem_of_app in *. tauto.
Qed.

Lemma children_delete (k : string) (s : Schema) :
  children (delete k s) ⊆ children s.
Proof.
  unfold children. induction s as [|[k0 v0] s IH]; simpl; [reflexivity|].
  destruct (String.eqb k k0); simpl; intros c Hc.
  - apply elem_of_app. right. apply IH. exact Hc.
  - apply elem_of_app in Hc as [Hc|Hc]; apply elem_of_app; [left|right]; auto.
Qed.

Lemma children_get (k : string) (v : JSON) (s : Schema) :
  get k s = Some v -> childrenAt k v ⊆ children s.
Proof.
  unfold children. induction s as [|[k0 v0] s IH]; simpl; [discriminate|].
  destruct (String.eqb_spec k k0) as [->|Hne]; intros H c Hc; apply elem_of_app.
  - injection H as ->. left. exact Hc.
  - right. apply IH; assumption.
Qed.

Lemma get_erase (k : string) (s : Schema) :
  get k (erase s) = eraseKey k <$> get k s.
Proof.
  unfold erase. induction s as [|[k0 v0] s IH]; simpl; [reflexivity|].
  destruct (String.eqb_spec k k0) as [->|Hne]; [reflexivity|exact IH].
Qed.

Lemma erase_get_other (k : string) (s t : Schema) :
  erase t = erase s -> kindOf k = KOther -> get k t = get k s.
Proof.
  intros He Hk.
  assert (H : get k (erase t) = get k (erase s)) by (rewrite He; reflexivity).
  rewrite !get_erase in H.
  destruct (get k t), (get k s); simpl in H; try congruence.
  rewrite !(eraseKey_other _ _ Hk) in H. exact H.
Qed.

Lemma erase_look (k : string) (s t : Schema) :
  erase t = erase s -> look k t = look k s.
Proof. intros He. unfold look. rewrite <- !get_erase, He. reflexivity. Qed.

Lemma has_look (k : string) (s : Schema) :
  has k s = match look k s with Some _ => true | None => false end.
Proof. unfold has, look. destruct (get k s); reflexivity. Qed.

Lemma truthy_eraseKey (k : string) (v : JSON) : truthy (eraseKey k v) = truthy v.
Proof. unfold eraseKey. destruct (kindOf k), v; reflexivity. Qed.

Lemma isArray_eraseKey (k : string) (v : JSON) : isArray (eraseKey k v) = isArray v.
Proof. unfold eraseKey. destruct (kindOf k), v; reflexivity. Qed.

Lemma truthy_look (k : string) (s : Schema) :
  truthy' (get k s) = truthy' (look k s).
Proof. unfold look. destruct (get k s); simpl; [|reflexivity]. rewrite truthy_eraseKey. reflexivity. Qed.

Lemma children_set_leaf (k : string) (v : JSON) (s : Schema) :
  childrenAt k v = [] -> children (set k v s) ⊆ children s.
Proof.
  intros Hk c Hc. apply children_set in Hc. rewrite Hk in Hc. exact Hc.
Qed.

(** ** The rules on one node *)

Lemma forallb_filter {A} (p q : A -> bool) (l : list A) :
  forallb p l = true -> forallb p (List.filter q l) = true.
Proof.
  induction l as [|x l IH]; simpl; [reflexivity|].
  intros H. apply andb_true_iff in H as [Hx Hl].
  destruct (q x); simpl; [rewrite Hx|]; auto.
Qed.

Lemma existsb_filter_null (l : list JSON) :
  existsb (isStr "null") (List.filter (fun ty => negb (isStr "null" ty)) l) = false.
Proof.
  induction l as [|x l IH]; simpl; [reflexivity|].
  destruct (isStr "null" x) eqn:E; simpl; [exact IH|]. rewrite E, IH. reflexivity.
Qed.

Ltac observe :=
  unfold settled_remove_null_type, settled_destructure_unary_types,
    settled_add_empty_required, settled_required_false,
    settled_default_additionalProperties, settled_default_id,
    settled_escape_comment, settled_remove_min_max, settled_normalise_minItems,
    settled_normalize_items, settled_defs_to_definitions, settled_const_to_enum,
    tupleDue, sliceDue, hasMaxItems, hasMinItems,
    isObjectType, isArrayType, hasType, has, truthy',
    lengthsOK, isLength, typeOK in *;
  repeat first [rewrite get_set in * | rewrite get_delete in *]; simpl in *.

Ltac use_gets :=
  repeat match goal with
         | H : get _ _ = _ |- _ => progress (rewrite H in * )
         end.

(** The parts of a step for a write to a key that holds no children. *)
Ltac use_tests :=
  repeat match goal with
         | H : ?b = true |- context [?b] => rewrite H
         | H : ?b = false |- context [?b] => rewrite H
         end.

Ltac finish :=
  intros; observe; use_gets;
  rewrite ?andb_false_r, ?andb_true_r, ?orb_true_r, ?orb_false_r in *; simpl in *;
  intuition (try reflexivity; try congruence; try (use_tests; reflexivity)).

Ltac step_parts :=
  unfold ruleStep, ruleKeeps, settledBy, settled; simpl;
  split; [split; [try reflexivity; try (apply children_set_leaf; reflexivity);
                   try apply children_delete;
                   try (etransitivity; apply children_delete)
                 |split]|].

Section NodeFacts.
Context {U : Utils}.
Variables (root : loc) (f : string) (o : OptionsData).

Lemma step_remove_null_type r s s' :
  rule_remove_null_type s root f o r = Ok s' ->
  ruleStep (take 0 (settled f o)) (take 1 (settled f o)) r s s'.
Proof.
  unfold rule_remove_null_type. intros H.
  repeat case_match; simplify_eq; step_parts;
    try tauto; try (finish; fail).
  - intros HT. unfold typeOK. intros l'. rewrite get_set. simpl. intros [= <-].
    apply forallb_filter. eapply HT. eassumption.
  - intros _ _. split; [|exact I]. observe. use_gets.
    rewrite existsb_filter_null, andb_false_r. reflexivity.
Qed.

Lemma step_destructure_unary_types r s s' :
  rule_destructure_unary_types s root f o r = Ok s' ->
  ruleStep (take 1 (settled f o)) (take 2 (settled f o)) r s s'.
Proof.
  unfold rule_destructure_unary_types. intros H.
  repeat case_match; simplify_eq; step_parts;
    try tauto; try (finish; fail).
  - intros HT. pose proof (HT _ H0) as Hj. simpl in Hj.
    destruct j0; try discriminate; finish.
  - intros HT. pose proof (HT _ H0) as Hj. simpl in Hj.
    destruct j0; try discriminate; finish; destruct (get "enum" s) as [[]|]; reflexivity.
Qed.

Lemma step_add_empty_required r s s' :
  rule_add_empty_required s root f o r = Ok s' ->
  ruleStep (take 2 (settled f o)) (take 3 (settled f o)) r s s'.
Proof.
  unfold rule_add_empty_required. intros H.
  repeat case_match; simplify_eq; step_parts;
    try tauto; try (finish; fail).
  all: finish.
Qed.

Lemma step_required_false r s s' :
  rule_required_false s root f o r = Ok s' ->
  ruleStep (take 3 (settled f o)) (take 4 (settled f o)) r s s'.
Proof.
  unfold rule_required_false. intros H.
  repeat case_match; simplify_eq; step_parts;
    try tauto; try (finish; fail).
  all: finish.
Qed.

Lemma step_default_additionalProperties r s s' :
  rule_default_additionalProperties s root f o r = Ok s' ->
  ruleStep (take 4 (settled f o)) (take 5 (settled f o)) r s s'.
Proof.
  unfold rule_default_additionalProperties. intros H.
  repeat case_match; simplify_eq; step_parts;
    try tauto; try (finish; fail).
  all: finish.
Qed.

Lemma step_default_id r s s' :
  rule_default_id s root f o r = Ok s' ->
  ruleStep (take 5 (settled f o)) (take 6 (settled f o)) r s s'.
Proof.
  unfold rule_default_id. intros H.
  repeat case_match; simplify_eq; step_parts;
    try tauto; try (finish; fail).
  - intros HT Hs. observe. rewrite String.eqb_refl, orb_true_r. tauto.
  - intros HT Hs. observe.
    destruct r, (get "id" s') as [v|]; simpl in *;
      try destruct (truthy v); simpl in *; try discriminate; tauto.
Qed.

Lemma keeps_escape_comment r s s' :
  rule_escape_comment s root f o r = Ok s' -> ruleKeeps s s'.
Proof.
  unfold rule_escape_comment, escapeBlockComment. intros H.
  repeat case_match; simplify_eq; unfold ruleKeeps;
    (split; [try reflexivity; try (apply children_set_leaf; reflexivity)|split]);
    try tauto; finish.
Qed.

Lemma step_escape_comment r s s' :
  (forall d, escapeText (escapeText d) = escapeText d) ->
  rule_escape_comment s root f o r = Ok s' ->
  ruleStep (take 6 (settled f o)) (take 7 (settled f o)) r s s'.
Proof.
  intros Hidem H. split; [eapply keeps_escape_comment; exact H|].
  revert H. unfold rule_escape_comment, escapeBlockComment. intros H.
  unfold settledBy, settled; simpl.
  repeat case_match; simplify_eq; try (finish; fail).
  intros HT Hs. observe. rewrite Hidem, String.eqb_refl. tauto.
Qed.

Lemma step_remove_min_max r s s' :
  rule_remove_min_max s root f o r = Ok s' ->
  ruleStep (take 7 (settled f o)) (take 8 (settled f o)) r s s'.
Proof.
  unfold rule_remove_min_max. intros H.
  repeat case_match; simplify_eq; step_parts;
    try tauto; try (finish; fail).
Qed.

Lemma step_normalise_minItems r s s' :
  rule_normalise_minItems s root f o r = Ok s' ->
  ruleStep (take 8 (settled f o)) (take 9 (settled f o)) r s s'.
Proof.
  unfold rule_normalise_minItems. intros H.
  repeat case_match; simplify_eq; step_parts;
    try tauto; try (finish; fail).
  all: intros [Hmax _]; split; observe; [exact Hmax|];
    intros n [= <-]; split; [lia|reflexivity].
Qed.

Lemma step_defs_to_definitions r s s' :
  rule_defs_to_definitions s root f o r = Ok s' ->
  ruleStep (take 10 (settled f o)) (take 11 (settled f o)) r s s'.
Proof.
  unfold rule_defs_to_definitions. intros H.
  repeat case_match; simplify_eq; step_parts;
    try tauto; try (finish; fail).
  etransitivity; [apply children_delete|].
  etransitivity; [apply children_set|].
  intros c Hc. apply elem_of_app in Hc as [Hc|Hc]; [|exact Hc].
  eapply (children_get "$defs"); [eassumption|exact Hc].
Qed.

Lemma step_const_to_enum r s s' :
  rule_const_to_enum s root f o r = Ok s' ->
  ruleStep (take 11 (settled f o)) (take 12 (settled f o)) r s s'.
Proof.
  unfold rule_const_to_enum. intros H.
  repeat case_match; simplify_eq; step_parts;
    try tauto; try (finish; fail).
  - etransitivity; [apply children_delete|]. apply children_set_leaf. reflexivity.
  - destruct j; try discriminate; finish;
      destruct (get "type" s) as [[]|]; reflexivity.
Qed.

Lemma tupleStep_frame s s1 :
  tupleStep s = Ok s1 ->
  forall k, k <> "items" -> k <> "additionalItems" -> get k s1 = get k s.
Proof.
  unfold tupleStep. intros H k Hk Hk'.
  destruct (get "items" s) as [items|]; [|congruence].
  destruct (tupleDue s); [|congruence].
  apply bind_Ok in H as (l & _ & [= <-]).
  rewrite get_set. destruct (String.eqb_spec k "items"); [congruence|].
  destruct (hasMaxItems s); [reflexivity|].
  rewrite get_set. destruct (String.eqb_spec k "additionalItems"); congruence.
Qed.

Lemma rule_normalize_items_eq r s :
  rule_normalize_items s root f o r
  = if ignoreMinAndMaxItems o then Ok s
    else s1 ← tupleStep s; Ok (sliceStep s1).
Proof.
  unfold rule_normalize_items. destruct (ignoreMinAndMaxItems o); [reflexivity|].
  assert (Hslice : forall s1, get "maxItems" s1 = get "maxItems" s ->
    match get "items" s1 with
    | Some (JArr l) =>
        match get "maxItems" s with
        | Some (JNum n) =>
            if (0 <=? n)%Z && (n <? Z.of_nat (length l))%Z
            then Ok (set "items" (JArr (take (Z.to_nat n) l)) s1)
            else Ok s1
        | _ => Ok s1
        end
    | _ => Ok s1
    end = Ok (sliceStep s1)).
  { intros s1 Hmax. unfold sliceStep, sliceDue. rewrite Hmax.
    destruct (get "items" s1) as [[]|]; try reflexivity.
    destruct (get "maxItems" s) as [[]|]; try reflexivity.
    destruct (_ && _); reflexivity. }
  destruct (tupleStep s) as [s1|e] eqn:Hs1.
  - change (Ok s1 ≫= (fun s1 => Ok (sliceStep s1))) with (Ok (sliceStep s1)).
    rewrite <- (Hslice s1) by (apply (tupleStep_frame _ _ Hs1); discriminate).
    revert Hs1. unfold tupleStep, tupleDue, hasMaxItems, hasMinItems.
    destruct (get "items" s) as [items|]; [|intros [= <-]; reflexivity].
    destruct (_ && _ && _); [|intros [= <-]; reflexivity].
    destruct (fill items <$> Array _) as [l|e]; simpl; [|discriminate].
    intros [= <-].
    destruct (get "maxItems" s) as [[| |n| | |]|]; simpl; try reflexivity.
    destruct (0 <=? n)%Z; reflexivity.
  - revert Hs1. unfold tupleStep, tupleDue, hasMaxItems, hasMinItems.
    destruct (get "items" s) as [items|]; [|discriminate].
    destruct (_ && _ && _); [|discriminate].
    destruct (fill items <$> Array _) as [l|e']; simpl; [discriminate|].
    intros [= <-]. reflexivity.
Qed.

(** The tuple step replaces [items] by copies of itself. *)
Lemma tupleStep_cases s s1 :
  tupleStep s = Ok s1 ->
  (s1 = s /\ tupleDue s = false)
  \/ (exists items l, get "items" s = Some items /\ tupleDue s = true
        /\ Forall (fun x => x = items) l
        /\ s1 = set "items" (JArr l)
                  (if hasMaxItems s then s else set "additionalItems" items s)).
Proof.
  unfold tupleStep. intros H.
  destruct (get "items" s) as [items|] eqn:Hit.
  - destruct (tupleDue s) eqn:Hd; [|left; split; congruence].
    apply bind_Ok in H as (l & Hl & [= <-]). right.
    exists items, l. repeat split; try reflexivity.
    apply fmap_Ok in Hl as (holes & _ & ->). unfold fill.
    apply Forall_forall. intros x Hx. apply list_elem_of_fmap in Hx as (? & -> & _).
    reflexivity.
  - left. split; [congruence|]. unfold tupleDue. rewrite Hit. reflexivity.
Qed.

Lemma childrenAt_items_copies (items : JSON) (l : list JSON) :
  Forall (fun x => x = items) l -> childrenAt "items" (JArr l) ⊆ nodeOf items.
Proof.
  intros Hl c Hc. change (c ∈ flat_map nodeOf l) in Hc.
  induction Hl as [|x l -> _ IH]; simpl in Hc; [inversion Hc|].
  apply elem_of_app in Hc as [Hc|Hc]; auto.
Qed.

Lemma nodeOf_children (k : string) (items : JSON) (s : Schema) :
  k = "items" \/ k = "additionalItems" ->
  get k s = Some items -> nodeOf items ⊆ children s.
Proof.
  intros Hk Hget c Hc. apply (children_get _ _ _ Hget).
  destruct items; try (inversion Hc; fail).
  destruct Hk as [->| ->]; exact Hc.
Qed.

Lemma tupleStep_children s s1 : tupleStep s = Ok s1 -> children s1 ⊆ children s.
Proof.
  intros H. apply tupleStep_cases in H as [[-> _]|(items & l & Hit & _ & Hl & ->)];
    [reflexivity|].
  assert (Hn : nodeOf items ⊆ children s)
    by exact (nodeOf_children "items" _ _ (or_introl eq_refl) Hit).
  intros c Hc. apply children_set in Hc. apply elem_of_app in Hc as [Hc|Hc].
  - apply Hn. eapply childrenAt_items_copies; eassumption.
  - destruct (hasMaxItems s); [exact Hc|].
    apply children_set in Hc. apply elem_of_app in Hc as [Hc|Hc]; [|exact Hc].
    apply Hn. destruct items; try (inversion Hc; fail). exact Hc.
Qed.

Lemma tupleStep_items s s1 :
  tupleStep s = Ok s1 -> has "items" s1 = has "items" s /\ tupleDue s1 = false.
Proof.
  intros H. apply tupleStep_cases in H as [[-> Hd]|(items & l & Hit & _ & Hl & ->)];
    [split; [reflexivity|exact Hd]|].
  unfold tupleDue, has. rewrite get_set, Hit. simpl. split; reflexivity.
Qed.

Lemma sliceStep_frame s k : k <> "items" -> get k (sliceStep s) = get k s.
Proof.
  intros Hk. unfold sliceStep.
  destruct (get "items" s) as [[]|]; try reflexivity.
  destruct (get "maxItems" s) as [[]|]; try reflexivity.
  destruct (sliceDue s); [|reflexivity].
  rewrite get_set. destruct (String.eqb_spec k "items"); congruence.
Qed.

Lemma sliceStep_children s : children (sliceStep s) ⊆ children s.
Proof.
  unfold sliceStep.
  destruct (get "items" s) as [[| | | |l|]|] eqn:Hit; try reflexivity.
  destruct (get "maxItems" s) as [[]|]; try reflexivity.
  destruct (sliceDue s); [|reflexivity].
  intros c Hc. apply children_set in Hc. apply elem_of_app in Hc as [Hc|Hc]; [|exact Hc].
  apply (children_get _ _ _ Hit). change (c ∈ flat_map nodeOf l).
  change (c ∈ flat_map nodeOf (take (Z.to_nat n) l)) in Hc.
  rewrite <- (take_drop (Z.to_nat n) l) at 1. rewrite flat_map_app.
  apply elem_of_app. left. exact Hc.
Qed.

Lemma sliceStep_items s :
  has "items" (sliceStep s) = has "items" s
  /\ (tupleDue s = false -> tupleDue (sliceStep s) = false)
  /\ sliceDue (sliceStep s) = false.
Proof.
  unfold sliceStep.
  destruct (get "items" s) as [[| | | |l|]|] eqn:Hit;
    try (split; [reflexivity|split; [auto|unfold sliceDue; rewrite Hit; reflexivity]]).
  destruct (get "maxItems" s) as [[| |n| | |]|] eqn:Hmax;
    try (split; [reflexivity|split; [auto|unfold sliceDue; rewrite Hit, Hmax; reflexivity]]).
  destruct (sliceDue s) eqn:Hd; [|auto].
  unfold has, tupleDue, sliceDue. rewrite !get_set. simpl.
  rewrite ?Hit, ?Hmax. split; [reflexivity|]. split; [reflexivity|].
  unfold sliceDue in Hd. rewrite Hit, Hmax in Hd.
  apply andb_true_iff in Hd as [H0 H1].
  apply Z.leb_le in H0. apply Z.ltb_lt in H1.
  rewrite length_take. apply andb_false_iff. right. apply Z.ltb_ge. lia.
Qed.

(** The tests of the first nine rules do not look at the content of
    [items], nor at [additionalItems]. *)
Lemma tests_items_frame r s s' :
  (forall k, k <> "items" -> k <> "additionalItems" -> get k s' = get k s) ->
  has "items" s' = has "items" s ->
  (lengthsOK s -> lengthsOK s')
  /\ (typeOK s -> typeOK s')
  /\ (settledBy (take 9 (settled f o)) r s -> settledBy (take 9 (settled f o)) r s').
Proof.
  intros Hfr Hhas.
  assert (E1 : get "type" s' = get "type" s) by (apply Hfr; discriminate).
  assert (E2 : get "enum" s' = get "enum" s) by (apply Hfr; discriminate).
  assert (E3 : get "properties" s' = get "properties" s) by (apply Hfr; discriminate).
  assert (E4 : get "required" s' = get "required" s) by (apply Hfr; discriminate).
  assert (E5 : get "additionalProperties" s' = get "additionalProperties" s)
    by (apply Hfr; discriminate).
  assert (E6 : get "patternProperties" s' = get "patternProperties" s)
    by (apply Hfr; discriminate).
  assert (E7 : get "id" s' = get "id" s) by (apply Hfr; discriminate).
  assert (E8 : get "description" s' = get "description" s) by (apply Hfr; discriminate).
  assert (E9 : get "maxItems" s' = get "maxItems" s) by (apply Hfr; discriminate).
  assert (E10 : get "minItems" s' = get "minItems" s) by (apply Hfr; discriminate).
  unfold settledBy, settled; simpl.
  unfold settled_remove_null_type, settled_destructure_unary_types,
    settled_add_empty_required, settled_required_false,
    settled_default_additionalProperties, settled_default_id,
    settled_escape_comment, settled_remove_min_max, settled_normalise_minItems,
    isObjectType, isArrayType, hasType, lengthsOK, isLength, typeOK.
  rewrite Hhas. unfold has.
  rewrite E1, E2, E3, E4, E5, E6, E7, E8, E9, E10. tauto.
Qed.

Lemma step_normalize_items r s s' :
  rule_normalize_items s root f o r = Ok s' ->
  ruleStep (take 9 (settled f o)) (take 10 (settled f o)) r s s'.
Proof.
  rewrite rule_normalize_items_eq.
  destruct (ignoreMinAndMaxItems o) eqn:Hig.
  - intros [= <-]. split; [split; [reflexivity|tauto]|].
    intros _ Hs. unfold settledBy, settled in *. simpl in *.
    unfold settled_normalize_items at 1. rewrite Hig. tauto.
  - intros H. apply bind_Ok in H as (s1 & Hs1 & [= <-]).
    destruct (tupleStep_items _ _ Hs1) as [Hhas1 Hdue1].
    destruct (sliceStep_items s1) as (Hhas2 & Hdue2 & Hslice).
    destruct (tests_items_frame r s (sliceStep s1)) as (HL & HT & HS).
    { intros k Hk Hk'. rewrite sliceStep_frame by exact Hk.
      apply (tupleStep_frame _ _ Hs1); assumption. }
    { congruence. }
    split; [split; [|split; assumption]|].
    + etransitivity; [apply sliceStep_children|]. apply (tupleStep_children _ _ Hs1).
    + intros _ Hs. apply HS in Hs.
      unfold settledBy, settled in *. simpl in *.
      unfold settled_normalize_items at 1. rewrite Hslice, (Hdue2 Hdue1), Hig.
      simpl. tauto.
Qed.

End NodeFacts.

(** ** Settled nodes are left alone *)

Section SettledFacts.
Context {U : Utils}.
Variables (root : loc) (f : string) (o : OptionsData).

Ltac crack :=
  repeat case_match; simplify_eq; simpl in *;
  try reflexivity; try discriminate; try congruence.

Lemma settled_remove_null_type_same r s :
  settled_remove_null_type s = true -> rule_remove_null_type s root f o r = Ok s.
Proof. unfold settled_remove_null_type, rule_remove_null_type. intros H. crack. Qed.

Lemma settled_destructure_unary_types_same r s :
  settled_destructure_unary_types s = true -> rule_destructure_unary_types s root f o r = Ok s.
Proof. unfold settled_destructure_unary_types, rule_destructure_unary_types. intros H. crack. Qed.

Lemma settled_add_empty_required_same r s :
  settled_add_empty_required s = true -> rule_add_empty_required s root f o r = Ok s.
Proof. unfold settled_add_empty_required, rule_add_empty_required. intros H. crack. Qed.

Lemma settled_required_false_same r s :
  settled_required_false s = true -> rule_required_false s root f o r = Ok s.
Proof. unfold settled_required_false, rule_required_false. intros H. crack. Qed.

Lemma settled_default_additionalProperties_same r s :
  settled_default_additionalProperties s = true ->
  rule_default_additionalProperties s root f o r = Ok s.
Proof.
  unfold settled_default_additionalProperties, rule_default_additionalProperties.
  intros H. crack.
Qed.

Lemma settled_default_id_same r s :
  settled_default_id f r s = true -> rule_default_id s root f o r = Ok s.
Proof.
  unfold settled_default_id, rule_default_id. intros H.
  destruct (r && negb (truthy' (get "id" s))) eqn:E; [|reflexivity].
  apply andb_true_iff in E as [-> E]. apply negb_true_iff in E.
  rewrite E in H. simpl in H.
  destruct (get "id" s) as [[| | |i| |]|] eqn:Hid; try discriminate.
  apply String.eqb_eq in H. subst i. rewrite set_same by exact Hid. reflexivity.
Qed.

Lemma settled_escape_comment_same r s :
  settled_escape_comment s = true -> rule_escape_comment s root f o r = Ok s.
Proof.
  unfold settled_escape_comment, rule_escape_comment, escapeBlockComment. intros H.
  destruct (get "description" s) as [[| | |d| |]|] eqn:Hd; try reflexivity.
  apply String.eqb_eq in H. rewrite H, set_same by (rewrite Hd; congruence). reflexivity.
Qed.

Lemma settled_remove_min_max_same r s :
  settled_remove_min_max o s = true -> rule_remove_min_max s root f o r = Ok s.
Proof.
  unfold settled_remove_min_max, rule_remove_min_max. intros H.
  destruct (ignoreMinAndMaxItems o); [|reflexivity]. simpl in H.
  apply andb_true_iff in H as [H1 H2].
  apply negb_true_iff in H1. apply negb_true_iff in H2. rewrite H1, H2. reflexivity.
Qed.

Lemma settled_normalise_minItems_same r s :
  settled_normalise_minItems o s = true -> rule_normalise_minItems s root f o r = Ok s.
Proof.
  unfold settled_normalise_minItems, rule_normalise_minItems. intros H.
  destruct (ignoreMinAndMaxItems o); [reflexivity|].
  destruct (isArrayType s); [|reflexivity]. simpl in H.
  destruct (get "minItems" s) as [[| |n| | |]|] eqn:Hm; try discriminate.
  rewrite set_same by exact Hm. reflexivity.
Qed.

Lemma settled_normalize_items_same r s :
  settled_normalize_items o s = true -> rule_normalize_items s root f o r = Ok s.
Proof.
  unfold settled_normalize_items. rewrite rule_normalize_items_eq. intros H.
  destruct (ignoreMinAndMaxItems o); [reflexivity|]. simpl in H.
  apply andb_true_iff in H as [H1 H2].
  apply negb_true_iff in H1. apply negb_true_iff in H2.
  unfold tupleStep. rewrite H1.
  assert (Hs : sliceStep s = s).
  { unfold sliceStep. rewrite H2. crack. }
  destruct (get "items" s); simpl; rewrite Hs; reflexivity.
Qed.

Lemma settled_defs_to_definitions_same r s :
  settled_defs_to_definitions s = true -> rule_defs_to_definitions s root f o r = Ok s.
Proof.
  unfold settled_defs_to_definitions, rule_defs_to_definitions, truthy'. intros H. crack.
Qed.

Lemma settled_const_to_enum_same r s :
  settled_const_to_enum s = true -> rule_const_to_enum s root f o r = Ok s.
Proof.
  unfold settled_const_to_enum, rule_const_to_enum, truthy'. intros H. crack.
Qed.

(** A node that passes every test is left as it is by every built-in rule. *)
Lemma settled_same r s :
  settledBy (settled f o) r s -> Forall (fun kr => snd kr s root f o r = Ok s) rules.
Proof.
  intros (H1 & H2 & H3 & H4 & H5 & H6 & H7 & H8 & H9 & H10 & H11 & H12 & _).
  unfold rules. repeat constructor; simpl.
  - apply settled_remove_null_type_same, H1.
  - apply settled_destructure_unary_types_same, H2.
  - apply settled_add_empty_required_same, H3.
  - apply settled_required_false_same, H4.
  - apply settled_default_additionalProperties_same, H5.
  - apply settled_default_id_same, H6.
  - apply settled_escape_comment_same, H7.
  - apply settled_remove_min_max_same, H8.
  - apply settled_normalise_minItems_same, H9.
  - apply settled_normalize_items_same, H10.
  - apply settled_defs_to_definitions_same, H11.
  - apply settled_const_to_enum_same, H12.
Qed.

End SettledFacts.

(** ** The tests look at the shape of a node only *)

Section ShapeFacts.
Context {U : Utils}.
Variables (root : loc) (f : string) (o : OptionsData).
Variables s t : Schema.
Hypothesis same_shape : erase t = erase s.

Lemma shape_has (k : string) : has k t = has k s.
Proof. rewrite !has_look, (erase_look _ _ _ same_shape). reflexivity. Qed.

Lemma shape_truthy (k : string) : truthy' (get k t) = truthy' (get k s).
Proof. rewrite !truthy_look, (erase_look _ _ _ same_shape). reflexivity. Qed.

Lemma shape_items :
  match get "items" t, get "items" s with
  | Some v', Some v =>
      truthy v' = truthy v /\ isArray v' = isArray v
      /\ (forall l' l, v' = JArr l' -> v = JArr l -> length l' = length l)
  | None, None => True
  | _, _ => False
  end.
Proof.
  pose proof (erase_look "items" _ _ same_shape) as H. unfold look in H.
  destruct (get "items" t) as [v'|], (get "items" s) as [v|]; simpl in H;
    try discriminate; [|exact I].
  injection H as H.
  split; [|split].
  - rewrite <- (truthy_eraseKey "items" v'), H. apply truthy_eraseKey.
  - rewrite <- (isArray_eraseKey "items" v'), H. apply isArray_eraseKey.
  - intros l' l -> ->. unfold eraseKey in H. simpl in H. injection H as H.
    apply (f_equal length) in H. rewrite !length_map in H. exact H.
Qed.

Lemma shape_hasType (type : string) : hasType t type = hasType s type.
Proof.
  unfold hasType. rewrite (erase_get_other "type" _ _ same_shape eq_refl). reflexivity.
Qed.

Lemma shape_max_min :
  hasMaxItems t = hasMaxItems s /\ hasMinItems t = hasMinItems s.
Proof.
  unfold hasMaxItems, hasMinItems.
  rewrite (erase_get_other "maxItems" _ _ same_shape eq_refl).
  rewrite (erase_get_other "minItems" _ _ same_shape eq_refl). auto.
Qed.

Lemma shape_tupleDue : tupleDue t = tupleDue s.
Proof.
  unfold tupleDue. destruct shape_max_min as [-> ->].
  pose proof shape_items as H.
  destruct (get "items" t) as [v'|], (get "items" s) as [v|];
    try reflexivity; try (destruct H; fail).
  destruct H as (-> & -> & _). reflexivity.
Qed.

Lemma shape_sliceDue : sliceDue t = sliceDue s.
Proof.
  unfold sliceDue. rewrite (erase_get_other "maxItems" _ _ same_shape eq_refl).
  pose proof shape_items as H.
  destruct (get "items" t) as [v'|], (get "items" s) as [v|];
    try (destruct H; fail); [|reflexivity].
  destruct H as (_ & Harr & Hlen).
  destruct v', v; try discriminate; try reflexivity.
  rewrite (Hlen _ _ eq_refl eq_refl). reflexivity.
Qed.

Lemma shape_settled (r : bool) :
  Forall (fun test => test r t = test r s) (settled f o).
Proof.
  unfold settled. repeat constructor.
  - unfold settled_remove_null_type.
    rewrite (erase_get_other "enum" _ _ same_shape eq_refl).
    rewrite (erase_get_other "type" _ _ same_shape eq_refl). reflexivity.
  - unfold settled_destructure_unary_types.
    rewrite (erase_get_other "type" _ _ same_shape eq_refl). reflexivity.
  - unfold settled_add_empty_required, isObjectType.
    rewrite !shape_has, !shape_hasType. reflexivity.
  - unfold settled_required_false.
    rewrite (erase_get_other "required" _ _ same_shape eq_refl). reflexivity.
  - unfold settled_default_additionalProperties, isObjectType.
    rewrite !shape_has, !shape_hasType. reflexivity.
  - unfold settled_default_id.
    rewrite (erase_get_other "id" _ _ same_shape eq_refl). reflexivity.
  - unfold settled_escape_comment.
    rewrite (erase_get_other "description" _ _ same_shape eq_refl). reflexivity.
  - unfold settled_remove_min_max. rewrite !shape_has. reflexivity.
  - unfold settled_normalise_minItems, isArrayType.
    rewrite !shape_has, !shape_hasType.
    rewrite (erase_get_other "minItems" _ _ same_shape eq_refl). reflexivity.
  - unfold settled_normalize_items. rewrite shape_tupleDue, shape_sliceDue. reflexivity.
  - unfold settled_defs_to_definitions. rewrite shape_truthy. reflexivity.
  - unfold settled_const_to_enum. rewrite shape_truthy. reflexivity.
Qed.

Lemma shape_settledBy (r : bool) (n : nat) :
  settledBy (take n (settled f o)) r s -> settledBy (take n (settled f o)) r t.
Proof.
  pose proof (shape_settled r) as H. apply (Forall_take _ n) in H.
  induction H as [|test tests Ht _ IH]; simpl; [auto|].
  intros [H1 H2]. split; [congruence|auto].
Qed.

Lemma shape_typeOK : typeOK s -> typeOK t.
Proof.
  unfold typeOK. rewrite (erase_get_other "type" _ _ same_shape eq_refl). auto.
Qed.

Lemma shape_lengthsOK : lengthsOK s -> lengthsOK t.
Proof.
  unfold lengthsOK.
  rewrite (erase_get_other "maxItems" _ _ same_shape eq_refl).
  rewrite (erase_get_other "minItems" _ _ same_shape eq_refl). auto.
Qed.

End ShapeFacts.

(** ** The rules over a whole tree *)

Section TreeFacts.
Context {U : Utils}.
Variables (fuel : nat) (root : loc) (f : string) (o : Options).

Lemma applyAll_fuel (m : nat) (rs : list (string * Rule)) :
  fuel <= m -> forall c c',
  applyAll fuel rs root f o c = Ok c' -> applyAll m rs root f o c = Ok c'.
Proof.
  intros Hle. induction rs as [|[k R] rs IH]; intros c c' H; simpl in *; [exact H|].
  apply bind_Ok in H as (c1 & H1 & H2).
  rewrite (traverse_fuel _ _ _ Hle _ _ _ H1). simpl. apply IH. exact H2.
Qed.

(** Invariants that grow with the rules: [I j] holds of every node before
    the rule at position [j] runs, and [I (S j)] after. *)
Lemma applyAll_post (rs : list (string * Rule)) :
  forall (I : nat -> bool -> Schema -> Prop),
  (forall j r s t, I j r s -> erase t = erase s -> I j r t) ->
  (forall j k (R : Rule) r s s', rs !! j = Some (k, R) -> I j r s -> R s root f o r = Ok s' ->
     I (S j) r s' /\ children s' ⊆ children s) ->
  forall m c c',
    Nodes m (I 0) true c -> applyAll fuel rs root f o c = Ok c' ->
    Nodes (match rs with [] => m | _ => fuel end) (I (length rs)) true c'.
Proof.
  induction rs as [|[k R] rs IH]; intros I Herase Hstep m c c' Hc H; simpl in H.
  - injection H as <-. exact Hc.
  - apply bind_Ok in H as (c1 & H1 & H2).
    assert (Hc1 : Nodes fuel (I 1) true c1).
    { eapply (traverse_post _ (I 0) (I 1)); [| |exact Hc|exact H1].
      - intros r s s' HI Hs'. eapply (Hstep 0 k); [reflexivity|exact HI|exact Hs'].
      - intros r s t. apply Herase. }
    specialize (IH (fun j => I (S j))). simpl in IH.
    assert (Hend : Nodes (match rs with [] => fuel | _ => fuel end)
                     (I (S (length rs))) true c').
    { eapply IH; [| |exact Hc1|exact H2].
      - intros j. apply Herase.
      - intros j k' R' r s s' Hj. apply (Hstep (S j) k'). exact Hj. }
    destruct rs; exact Hend.
Qed.

Lemma applyAll_total (rs : list (string * Rule)) (I : bool -> Schema -> Prop) :
  (forall r s t, I r s -> erase t = erase s -> I r t) ->
  Forall (fun kr : string * Rule => forall r s, I r s -> exists s', snd kr s root f o r = Ok s') rs ->
  Forall (fun kr : string * Rule => forall r s s', I r s -> snd kr s root f o r = Ok s' ->
            I r s' /\ children s' ⊆ children s) rs ->
  forall c, Nodes fuel I true c ->
  exists c', applyAll fuel rs root f o c = Ok c' /\ Nodes fuel I true c'.
Proof.
  intros Herase Htot Hpost. induction rs as [|[k R] rs IH]; intros c Hc; simpl.
  - eauto.
  - inversion Htot as [|? ? Ht Htot']; subst. inversion Hpost as [|? ? Hp Hpost']; subst.
    simpl in *.
    destruct (traverse_total (fun schema isRoot => R schema root f o isRoot) I I) with
      (n := fuel) (r := true) (s := c) as [c1 Hc1]; auto.
    assert (HI1 : Nodes fuel I true c1).
    { eapply (traverse_post _ I I); [| |exact Hc|exact Hc1]; auto. }
    destruct (IH Htot' Hpost' c1 HI1) as (c' & Hc' & HI').
    exists c'. rewrite Hc1. simpl. auto.
Qed.

(** A tree settled for every rule goes through the registry unchanged. *)
Lemma applyAll_same (c : Schema) :
  Nodes fuel (settledBy (settled f o)) true c -> applyAll fuel rules root f o c = Ok c.
Proof.
  intros Hc.
  assert (H : forall rs, Forall (fun kr : string * Rule => forall r s, settledBy (settled f o) r s ->
                                    snd kr s root f o r = Ok s) rs ->
                         applyAll fuel rs root f o c = Ok c).
  { induction rs as [|[k R] rs IH]; intros Hrs; simpl; [reflexivity|].
    inversion Hrs as [|? ? HR Hrs']; subst. simpl in HR.
    rewrite (traverse_same _ (settledBy (settled f o))) by (auto || exact Hc).
    simpl. apply IH. exact Hrs'. }
  apply H. apply Forall_forall. intros kr Hkr r s Hs.
  pose proof (settled_same root f o r s Hs) as Hall.
  rewrite Forall_forall in Hall. apply Hall. exact Hkr.
Qed.

End TreeFacts.

(** ** The registry *)

Section RegistryFacts.
Context {U : Utils}.
Variables (root : loc) (f : string) (o : OptionsData).

Lemma rules_step (j : nat) (k : string) (R : Rule) (r : bool) (s s' : Schema) :
  (forall d, escapeText (escapeText d) = escapeText d) ->
  rules !! j = Some (k, R) -> R s root f o r = Ok s' ->
  ruleStep (take j (settled f o)) (take (S j) (settled f o)) r s s'.
Proof.
  intros Hidem Hj HR.
  do 12 (destruct j as [|j];
         [injection Hj as <- <-;
          eauto using step_remove_null_type, step_destructure_unary_types,
            step_add_empty_required, step_required_false,
            step_default_additionalProperties, step_default_id,
            step_escape_comment, step_remove_min_max, step_normalise_minItems,
            step_normalize_items, step_defs_to_definitions, step_const_to_enum|]).
  discriminate.
Qed.

Lemma rules_keep (r : bool) (s s' : Schema) :
  Forall (fun kr : string * Rule => snd kr s root f o r = Ok s' -> ruleKeeps s s') rules.
Proof.
  unfold rules. repeat (apply Forall_cons_2; [simpl; intros H|]); [..|apply Forall_nil_2].
  - exact (proj1 (step_remove_null_type root f o r s s' H)).
  - exact (proj1 (step_destructure_unary_types root f o r s s' H)).
  - exact (proj1 (step_add_empty_required root f o r s s' H)).
  - exact (proj1 (step_required_false root f o r s s' H)).
  - exact (proj1 (step_default_additionalProperties root f o r s s' H)).
  - exact (proj1 (step_default_id root f o r s s' H)).
  - exact (keeps_escape_comment root f o r s s' H).
  - exact (proj1 (step_remove_min_max root f o r s s' H)).
  - exact (proj1 (step_normalise_minItems root f o r s s' H)).
  - exact (proj1 (step_normalize_items root f o r s s' H)).
  - exact (proj1 (step_defs_to_definitions root f o r s s' H)).
  - exact (proj1 (step_const_to_enum root f o r s s' H)).
Qed.

Lemma Array_value_total (w : JSON) :
  (forall n, w = JNum n -> (0 <= n < 2 ^ 32)%Z) -> exists holes, Array w = Ok holes.
Proof.
  intros Hw. destruct w; try (eexists; reflexivity).
  destruct (Hw n eq_refl) as [H0 H1]. unfold Array.
  destruct (Z.leb_spec 0%Z n); [|lia]. destruct (Z.ltb_spec n (2 ^ 32)%Z); [|lia].
  simpl. eauto.
Qed.

Lemma Array_total (s : Schema) :
  lengthsOK s ->
  exists holes,
    Array (or_value (or_else (get "maxItems" s) (get "minItems" s)) (JNum 0)) = Ok holes.
Proof.
  intros [Hmax Hmin]. apply Array_value_total. intros n.
  unfold or_else, or_value, truthy'.
  destruct (get "maxItems" s) as [v|].
  - destruct (truthy v) eqn:T1; [rewrite T1; intros ->; apply Hmax; reflexivity|].
    destruct (get "minItems" s) as [w|]; [|intros [= <-]; split; [lia|reflexivity]].
    destruct (truthy w); [intros ->; apply Hmin; reflexivity|].
    intros [= <-]; split; [lia|reflexivity].
  - destruct (get "minItems" s) as [w|]; [|intros [= <-]; split; [lia|reflexivity]].
    destruct (truthy w); [intros ->; apply Hmin; reflexivity|].
    intros [= <-]; split; [lia|reflexivity].
Qed.

(** Every built-in rule returns on a node whose lengths are in order. *)
Lemma rules_total (r : bool) (s : Schema) :
  (ignoreMinAndMaxItems o = false -> lengthsOK s) ->
  Forall (fun kr : string * Rule => exists s', snd kr s root f o r = Ok s') rules.
Proof.
  intros HL. unfold rules. repeat (apply Forall_cons_2; [simpl|]); [..|apply Forall_nil_2].
  - unfold rule_remove_null_type. repeat case_match; eauto.
  - unfold rule_destructure_unary_types. repeat case_match; eauto.
  - unfold rule_add_empty_required. repeat case_match; eauto.
  - unfold rule_required_false. repeat case_match; eauto.
  - unfold rule_default_additionalProperties. repeat case_match; eauto.
  - unfold rule_default_id. repeat case_match; eauto.
  - unfold rule_escape_comment. eauto.
  - unfold rule_remove_min_max. repeat case_match; eauto.
  - unfold rule_normalise_minItems. repeat case_match; eauto.
  - rewrite rule_normalize_items_eq.
    destruct (ignoreMinAndMaxItems o); [eauto|].
    unfold tupleStep. destruct (get "items" s) as [items|]; [|simpl; eauto].
    destruct (tupleDue s); [|simpl; eauto].
    destruct (Array_total s (HL eq_refl)) as [holes ->]. simpl. eauto.
  - unfold rule_defs_to_definitions. repeat case_match; eauto.
  - unfold rule_const_to_enum. repeat case_match; eauto.
Qed.

End RegistryFacts.

(** ** Termination and idempotence *)

Lemma splitAfterStar_idem (s : string) :
  forall b, splitAfterStar b (splitAfterStar b s) = splitAfterStar b s.
Proof.
  induction s as [|c r IH]; intros b; simpl; [reflexivity|].
  destruct (b && Ascii.eqb c "/") eqn:E; simpl.
  - rewrite andb_false_r. simpl.
    apply andb_true_iff in E as [_ E]. apply Ascii.eqb_eq in E. subst c. simpl.
    rewrite IH. reflexivity.
  - rewrite E, IH. reflexivity.
Qed.

Lemma splitCommentEnd_idem (s : string) :
  splitCommentEnd (splitCommentEnd s) = splitCommentEnd s.
Proof. apply splitAfterStar_idem. Qed.

Lemma Nodes_depth (n : nat) :
  forall r s, depth (JObj s) <= n -> Nodes n (fun _ _ => True) r s.
Proof.
  induction n as [|n IH]; intros r s Hd; [simpl in Hd; lia|].
  split; [exact I|]. apply Forall_forall. intros c Hc.
  apply IH. apply depth_children in Hc. lia.
Qed.

(** Without caller's rules and with array lengths in range, the built-in
    rules return on the copy of the document, and [normalize] returns what
    they return. *)
Lemma normalize_root {U : Utils} (schema : loc) (f : string) (o : Options)
    (σ : store) (c : Schema) :
  σ !! schema = Some c ->
  normalizerRules o = None ->
  (ignoreMinAndMaxItems o = false -> AllNodes (fun _ => lengthsOK) true c) ->
  exists c', applyAll (depth (JObj c)) rules (fresh (dom σ)) f o c = Ok c'
    /\ forall fuel, depth (JObj c) <= fuel ->
         normalize fuel schema f o σ = Ok (fresh (dom σ), <[fresh (dom σ) := c']> σ).
Proof.
  intros Hc Hno HL.
  set (I := fun (_ : bool) s => ignoreMinAndMaxItems o = false -> lengthsOK s).
  assert (HI : Nodes (depth (JObj c)) I true c).
  { destruct (ignoreMinAndMaxItems o) eqn:Hig.
    - eapply Nodes_impl; [|apply Nodes_depth; reflexivity].
      intros r s _. unfold I. discriminate.
    - eapply Nodes_impl; [|apply AllNodes_Nodes; [reflexivity|apply HL; reflexivity]].
      intros r s Hs _. exact Hs. }
  destruct (applyAll_total (depth (JObj c)) (fresh (dom σ)) f o rules I) with (c := c)
    as (c' & Hc' & _); [| | |exact HI|].
  - intros r s t Hs He Hig. eapply shape_lengthsOK; [exact He|auto].
  - apply Forall_forall. intros kr Hkr r s Hs.
    pose proof (rules_total (fresh (dom σ)) f o r s Hs) as Hall.
    rewrite Forall_forall in Hall. apply Hall. exact Hkr.
  - apply Forall_forall. intros kr Hkr r s s' Hs Hs'.
    pose proof (rules_keep (fresh (dom σ)) f o r s s') as Hall.
    rewrite Forall_forall in Hall. destruct (Hall kr Hkr Hs') as (Hch & Hlen & _).
    split; [|exact Hch]. intros Hig. apply Hlen. apply Hs. exact Hig.
  - exists c'. split; [exact Hc'|]. intros fuel Hfuel.
    rewrite (normalize_eq _ _ _ _ _ _ Hc), Hno.
    rewrite (applyAll_fuel _ _ _ _ _ _ Hfuel _ _ Hc'). reflexivity.
Qed.

(** C8, as the code has it.  [normalize] returns, and raises nothing, on
    every document whose [minItems] and [maxItems], where they are numbers,
    are array lengths (integers from [0] to [2^32 - 1]), for every file name
    and for all options without caller's rules; with [ignoreMinAndMaxItems]
    set, on every document.  It needs a depth of calls of the nesting
    depth of the document, and what it returns is the same for every depth
    from there on. *)
Theorem normalize_returns {U : Utils} (schema : loc) (f : string) (o : Options)
    (σ : store) (c : Schema) :
  σ !! schema = Some c ->
  normalizerRules o = None ->
  (ignoreMinAndMaxItems o = false -> AllNodes (fun _ => lengthsOK) true c) ->
  exists c', forall fuel, depth (JObj c) <= fuel ->
    normalize fuel schema f o σ = Ok (fresh (dom σ), <[fresh (dom σ) := c']> σ).
Proof.
  intros Hc Hno HL.
  destruct (normalize_root schema f o σ c Hc Hno HL) as (c' & _ & H).
  exists c'. exact H.
Qed.

Lemma normalize_returns_witness :
  exists c', forall fuel, depth (JObj describedString) <= fuel ->
    normalize (U := plainUtils) fuel 1%positive "a" DEFAULT_OPTIONS (storeOf describedString)
    = Ok (2%positive, <[2%positive := c']> (storeOf describedString)).
Proof.
  refine (normalize_returns (U := plainUtils) 1%positive "a" DEFAULT_OPTIONS
            (storeOf describedString) describedString eq_refl eq_refl _).
  intros _. apply AllNodes_intro.
  - split; intros n; simpl; [discriminate|intros [= <-]; split; [lia|reflexivity]].
  - apply Forall_cons_2; [|apply Forall_nil_2].
    apply AllNodes_intro; [|apply Forall_nil_2].
    split; intros n; simpl; discriminate.
Defined.

(** With [maxItems] at [2^32], a non-negative integer, [normalize] raises
    at every depth of calls: [RangeError] as soon as the depth lets the
    traversal reach the rule on [items]. *)
Lemma normalize_raises_on_huge_length :
  (forall fuel, exists e,
     normalize (U := plainUtils) fuel 1%positive "a" DEFAULT_OPTIONS (storeOf hugeMaxItems)
     = Err e)
  /\ normalize (U := plainUtils) 2 1%positive "a" DEFAULT_OPTIONS (storeOf hugeMaxItems)
     = Err RangeError.
Proof.
  split; [|vm_compute; reflexivity].
  intros [|[|fuel]]; eexists; vm_compute; reflexivity.
Qed.

(** The normal form: after the built-in rules, every node of the document
    passes the test of every rule.  So no [type] is a one-element array,
    every object-like node has [required] and, unless it has
    [patternProperties], [additionalProperties], no [const] and no [$defs]
    is left that is truthy, and so on. *)
Lemma rules_settle {U : Utils} (fuel : nat) (root : loc) (f : string) (o : Options)
    (c c1 : Schema) :
  (forall d, escapeText (escapeText d) = escapeText d) ->
  AllNodes (fun _ => typeOK) true c ->
  applyAll fuel rules root f o c = Ok c1 ->
  Nodes fuel (settledBy (settled f o)) true c1.
Proof.
  intros Hidem HT Hc1.
  set (Inv := fun (j : nat) (r : bool) (s : Schema) =>
                typeOK s /\ settledBy (take j (settled f o)) r s).
  assert (Hsettled : Nodes fuel (Inv 12) true c1).
  { apply (applyAll_post fuel root f o rules Inv) with (m := depth (JObj c)) (c := c).
    - intros j r s t [Hty Hs] He. split.
      + eapply shape_typeOK; eassumption.
      + eapply shape_settledBy; eassumption.
    - intros j k R r s s' Hj [Hty Hs] HR.
      destruct (rules_step root f o j k R r s s' Hidem Hj HR) as ((Hch & _ & Hty') & Hs').
      split; [split; auto|exact Hch].
    - eapply Nodes_impl; [|apply AllNodes_Nodes; [reflexivity|exact HT]].
      intros r s Hs. split; [exact Hs|exact I].
    - exact Hc1. }
  eapply Nodes_impl; [|exact Hsettled].
  intros r s [_ Hs]. exact Hs.
Qed.

(** C1, as the code has it.  Without caller's rules, and with an escaping
    of comments that is itself idempotent, normalizing a normalized document
    gives the same document: when [normalize] returns a document for a
    document whose [type] arrays hold no array, [normalize] on what it
    returned, with the same file name and options, returns a document that
    is identical to it. *)
Theorem normalize_idempotent {U : Utils} (fuel : nat) (schema : loc) (f : string)
    (o : Options) (σ σ1 : store) (l1 : loc) (c : Schema) :
  (forall d, escapeText (escapeText d) = escapeText d) ->
  normalizerRules o = None ->
  σ !! schema = Some c ->
  AllNodes (fun _ => typeOK) true c ->
  normalize fuel schema f o σ = Ok (l1, σ1) ->
  exists l2 σ2,
    normalize fuel l1 f o σ1 = Ok (l2, σ2) /\ σ2 !! l2 = σ1 !! l1.
Proof.
  intros Hidem Hno Hc HT Hn.
  apply normalize_Ok in Hn as (c0 & c1 & Hc0 & Hc1 & -> & ->).
  rewrite Hc in Hc0. injection Hc0 as <-.
  rewrite Hno in Hc1. simpl (default _ _) in Hc1. rewrite app_nil_r in Hc1.
  assert (Hsame : forall root, applyAll fuel rules root f o c1 = Ok c1).
  { intros root. apply applyAll_same. eapply rules_settle; eassumption. }
  set (l1 := fresh (dom σ)) in *. set (σ1 := <[l1 := c1]> σ).
  assert (Hl1 : σ1 !! l1 = Some c1) by apply lookup_insert_eq.
  exists (fresh (dom σ1)), (<[fresh (dom σ1) := c1]> σ1). split.
  - rewrite (normalize_eq _ _ _ _ _ _ Hl1), Hsame, Hno. reflexivity.
  - rewrite lookup_insert_eq, Hl1. reflexivity.
Qed.

Lemma normalize_idempotent_witness :
  exists l2 σ2,
    normalize (U := plainUtils) 2 2%positive "a" DEFAULT_OPTIONS
      (<[2%positive :=
           [("description", JStr "ends * / here"); ("type", JStr "string");
            ("items", JArr [JObj [("enum", JArr [JNum 1])]]);
            ("minItems", JNum 1); ("id", JStr "a");
            ("additionalItems", JObj [("enum", JArr [JNum 1])])]]>
         (storeOf describedString))
    = Ok (l2, σ2)
    /\ σ2 !! l2
       = Some [("description", JStr "ends * / here"); ("type", JStr "string");
               ("items", JArr [JObj [("enum", JArr [JNum 1])]]);
               ("minItems", JNum 1); ("id", JStr "a");
               ("additionalItems", JObj [("enum", JArr [JNum 1])])].
Proof.
  refine (normalize_idempotent (U := plainUtils) 2 1%positive "a" DEFAULT_OPTIONS
            (storeOf describedString) _ 2%positive describedString
            splitCommentEnd_idem eq_refl eq_refl _ _).
  - apply AllNodes_intro.
    + intros l [= <-]. reflexivity.
    + apply Forall_cons_2; [|apply Forall_nil_2].
      apply AllNodes_intro; [|apply Forall_nil_2]. intros l. discriminate.
  - vm_compute. reflexivity.
Defined.

(** With a caller's rule that lengthens the title, the second normalization
    lengthens it once more. *)
Lemma normalize_twice_differs :
  let o := withRules [("Grow the title", growTitle)] in
  exists l1 σ1 l2 σ2,
    normalize (U := plainUtils) 1 1%positive "a" o (storeOf unaryString) = Ok (l1, σ1)
    /\ normalize (U := plainUtils) 1 l1 "a" o σ1 = Ok (l2, σ2)
    /\ σ1 !! l1 = Some [("type", JStr "string"); ("id", JStr "a"); ("title", JStr "x")]
    /\ σ2 !! l2 = Some [("type", JStr "string"); ("id", JStr "a"); ("title", JStr "xx")]
    /\ σ2 !! l2 <> σ1 !! l1.
Proof.
  intros o. exists 2%positive. eexists. exists 3%positive. eexists.
  split; [vm_compute; reflexivity|].
  split; [vm_compute; reflexivity|].
  split; [reflexivity|]. split; [reflexivity|]. discriminate.
Qed.

(** A [type] array that holds an array takes two normalizations to come to
    rest: the first run leaves the inner array as the [type], the second
    destructures it. *)
Example nested_type_takes_two_runs :
  applyAll (U := plainUtils) 1 (rules (U := plainUtils)) 1%positive "a" DEFAULT_OPTIONS nestedType
  = Ok [("type", JArr [JStr "string"]); ("id", JStr "a")]
  /\ applyAll (U := plainUtils) 1 (rules (U := plainUtils)) 1%positive "a" DEFAULT_OPTIONS
       [("type", JArr [JStr "string"]); ("id", JStr "a")]
     = Ok [("type", JStr "string"); ("id", JStr "a")].
Proof. split; vm_compute; reflexivity. Qed.

(** A caller's rule may raise, and [normalize] then raises. *)
Example caller_rule_raises :
  normalize (U := plainUtils) 1 1%positive "a" (withRules [("Refuse", refuse)])
    (storeOf unaryString)
  = Err (UserError "refused").
Proof. vm_compute. reflexivity. Qed.

(** ** Whole normalizations of sample documents *)

Example empty_tuple_normalized :
  applyAll (U := plainUtils) 2 (rules (U := plainUtils)) 1%positive "a" DEFAULT_OPTIONS emptyTuple
  = Ok [("items", JArr []); ("minItems", JNum 2); ("maxItems", JNum 0); ("id", JStr "a")].
Proof. vm_compute. reflexivity. Qed.

Example open_pair_normalized :
  applyAll (U := plainUtils) 2 (rules (U := plainUtils)) 1%positive "a" DEFAULT_OPTIONS openPair
  = Ok [("items", JArr [JObj [("type", JStr "string")]; JObj [("type", JStr "string")]]);
        ("minItems", JNum 2); ("id", JStr "a");
        ("additionalItems", JObj [("type", JStr "string")])].
Proof. vm_compute. reflexivity. Qed.

Example red_const_normalized :
  applyAll (U := plainUtils) 1 (rules (U := plainUtils)) 1%positive "a" DEFAULT_OPTIONS
    [("const", JStr "red")]
  = Ok [("id", JStr "a"); ("enum", JArr [JStr "red"])].
Proof. vm_compute. reflexivity. Qed.

(** ** The root of the document through the registry *)

Lemma get_visitChildren (g : Schema -> result Schema) (s t : Schema) (k : string) :
  visitChildren g s = Ok t ->
  match get k s with
  | Some v => exists v', visitKey g k v = Ok v' /\ get k t = Some v'
  | None => get k t = None
  end.
Proof.
  unfold visitChildren. intros H. apply mapM_Ok in H.
  induction H as [|[k0 v0] [k1 v1] s t Hkv _ IH]; simpl; [reflexivity|].
  simpl in Hkv. apply fmap_Ok in Hkv as (w & Hw & [= -> ->]).
  destruct (String.eqb_spec k k0) as [->|Hne]; [eauto|exact IH].
Qed.


Lemma get_visitChildren_other (g : Schema -> result Schema) (s t : Schema) (k : string) :
  kindOf k = KOther -> visitChildren g s = Ok t -> get k t = get k s.
Proof.
  intros Hk H. apply erase_get_other; [|exact Hk].
  eapply visitChildren_erase. exact H.
Qed.

Lemma visitKey_single (g : Schema -> result Schema) (k : string) (v : JSON) :
  kindOf k = KItems \/ kindOf k = KNode -> isArray v = false ->
  visitKey g k v = visit g v.
Proof.
  unfold visitKey. intros [-> | ->] Hv; destruct v; try reflexivity; discriminate.
Qed.

Lemma truthy_eraseValue (v : JSON) : truthy (eraseValue v) = truthy v.
Proof. destruct v; reflexivity. Qed.

Lemma isArray_eraseValue (v : JSON) : isArray (eraseValue v) = isArray v.
Proof. destruct v; reflexivity. Qed.

Lemma erased_single (v w : JSON) :
  eraseValue v = eraseValue w -> truthy v = truthy w /\ isArray v = isArray w.
Proof.
  intros E. rewrite <- (truthy_eraseValue v), <- (isArray_eraseValue v), E.
  rewrite truthy_eraseValue, isArray_eraseValue. auto.
Qed.

Section RootFacts.
Context {U : Utils}.
Variables (fuel : nat) (root : loc) (f : string) (o : Options).

(** Properties of the root that grow with the rules: [P j] holds of the
    root before the rule at position [j] runs, and [P (S j)] after. *)
Lemma applyAll_root (rs : list (string * Rule)) :
  forall (P : nat -> Schema -> Prop),
  (forall j k (R : Rule) s s', rs !! j = Some (k, R) -> P j s ->
     R s root f o true = Ok s' -> P (S j) s') ->
  (forall j g s t, P j s -> visitChildren g s = Ok t -> P j t) ->
  forall c c', P 0 c -> applyAll fuel rs root f o c = Ok c' -> P (length rs) c'.
Proof.
  induction rs as [|[k R] rs IH]; intros P Hstep Hvisit c c' Hc H; simpl in H.
  - injection H as <-. exact Hc.
  - apply bind_Ok in H as (c1 & H1 & H2).
    destruct fuel as [|n]; [discriminate|].
    rewrite traverse_S in H1. apply bind_Ok in H1 as (s' & Hs' & Ht).
    assert (Hc1 : P 1 c1).
    { eapply Hvisit; [|exact Ht]. eapply (Hstep 0 k); [reflexivity|exact Hc|exact Hs']. }
    apply (IH (fun j => P (S j))) with (c := c1);
      [|intros j; apply Hvisit|exact Hc1|exact H2].
    intros j k' R' s0 s1 Hj. apply (Hstep (S j) k'). exact Hj.
Qed.

Ltac frame_crack :=
  repeat case_match; simplify_eq;
  repeat first [rewrite get_set | rewrite get_delete]; simpl;
  repeat match goal with
         | H : String.eqb ?a ?b = false |- context [String.eqb ?a ?b] => rewrite H
         end;
  try reflexivity.

(** The footprint of the rules: a rule leaves alone every key that is not
    among those it may write. *)
Lemma rules_frame (j : nat) (k key : string) (keys : list string) (R : Rule)
    (r : bool) (s s' : Schema) :
  rules !! j = Some (k, R) -> written o !! j = Some keys ->
  existsb (String.eqb key) keys = false ->
  R s root f o r = Ok s' ->
  get key s' = get key s.
Proof.
  intros Hj Hkeys Hkey HR. unfold written in Hkeys.
  do 9 (destruct j as [|j];
        [injection Hj as <- <-; injection Hkeys as <-; revert HR;
         unfold rule_remove_null_type, rule_destructure_unary_types,
           rule_add_empty_required, rule_required_false,
           rule_default_additionalProperties, rule_default_id,
           rule_escape_comment, escapeBlockComment, rule_remove_min_max,
           rule_normalise_minItems;
         destruct (ignoreMinAndMaxItems o); simpl in Hkey;
         repeat (apply orb_false_iff in Hkey as [? Hkey]);
         intros HR; frame_crack; fail|]).
  destruct j as [|j].
  { injection Hj as <- <-. injection Hkeys as <-.
    rewrite rule_normalize_items_eq in HR.
    destruct (ignoreMinAndMaxItems o); [congruence|]. simpl in Hkey.
    repeat (apply orb_false_iff in Hkey as [? Hkey]).
    apply bind_Ok in HR as (s1 & Hs1 & [= <-]).
    rewrite sliceStep_frame by (intros ->; discriminate).
    apply (tupleStep_frame _ _ Hs1); intros ->; discriminate. }
  do 2 (destruct j as [|j];
        [injection Hj as <- <-; injection Hkeys as <-; simpl in Hkey;
         repeat (apply orb_false_iff in Hkey as [? Hkey]); revert HR;
         unfold rule_defs_to_definitions, rule_const_to_enum;
         intros HR; frame_crack; fail|]).
  discriminate.
Qed.


Lemma rules_frame_key (key : string) (j : nat) (k : string) (R : Rule) (r : bool)
    (s s' : Schema) :
  rules !! j = Some (k, R) -> R s root f o r = Ok s' ->
  existsb (String.eqb key) (default [] (written o !! j)) = false ->
  get key s' = get key s.
Proof.
  intros Hj HR Hkey. destruct (written o !! j) as [keys|] eqn:E.
  - exact (rules_frame j k key keys R r s s' Hj E Hkey HR).
  - apply lookup_ge_None in E. apply lookup_lt_Some in Hj.
    unfold written in E. simpl in E, Hj. lia.
Qed.

Ltac not_written :=
  simpl; first [reflexivity | destruct (ignoreMinAndMaxItems o); (reflexivity || discriminate)].

(** *** The tuple of [maxItems] at the root *)


(** *** The tuple of [minItems] at the root *)


(** *** [$defs] at the root *)

Lemma root_defs_overwrite (c c' : Schema) (defs : Schema) :
  get "$defs" c = Some (JObj defs) ->
  applyAll fuel rules root f o c = Ok c' ->
  get "$defs" c' = None
  /\ exists defs', get "definitions" c' = Some (JObj defs')
                   /\ map fst defs' = map fst defs.
Proof.
  intros Hd H.
  pose (P := fun (j : nat) (s : Schema) =>
    if (j <=? 10)%nat
    then look "$defs" s = look "$defs" c
    else get "$defs" s = None /\ look "definitions" s = look "$defs" c).
  assert (HP : P (length rules) c').
  { apply (applyAll_root rules P) with (c := c); [| | |exact H].
    - intros j k R s s' Hj Hr HR.
      assert (Hkeep : j <> 10 ->
                get "$defs" s' = get "$defs" s
                /\ get "definitions" s' = get "definitions" s).
      { intros Hj10.
        do 10 (destruct j as [|j];
               [repeat split; apply (rules_frame_key _ _ _ _ _ _ _ Hj HR);
                simpl; destruct (ignoreMinAndMaxItems o); reflexivity|]).
        destruct j as [|j]; [congruence|].
        destruct j as [|j];
          [repeat split; apply (rules_frame_key _ _ _ _ _ _ _ Hj HR); reflexivity|].
        discriminate. }
      destruct (Nat.eq_dec j 10) as [->|Hj10].
      + injection Hj as <- <-. cbv [P Nat.leb] in Hr |- *.
        unfold look in Hr. rewrite Hd in Hr.
        destruct (get "$defs" s) as [v|] eqn:Ev; [|discriminate].
        injection Hr as Hr.
        assert (Tv : truthy v = true) by (destruct v; try discriminate; reflexivity).
        destruct (rule_defs_overwrite s v root f o true Ev Tv) as (s2 & Hs2 & Hno & Hdef & _).
        rewrite Hs2 in HR. injection HR as <-.
        split; [exact Hno|]. unfold look. rewrite Hdef, Hd. simpl. f_equal. exact Hr.
      + destruct (Hkeep Hj10) as (Fd & Fdef). unfold P, look in *.
        destruct (Nat.leb_spec j 10) as [Hle|Hgt].
        * destruct (Nat.leb_spec (S j) 10); [|lia]. rewrite Fd. exact Hr.
        * destruct (Nat.leb_spec (S j) 10); [lia|]. rewrite Fd, Fdef. exact Hr.
    - intros j g s t Hr Hv.
      pose proof (visitChildren_erase _ _ _ Hv) as He. unfold P in *.
      destruct (j <=? 10)%nat.
      + rewrite <- Hr. apply erase_look. exact He.
      + destruct Hr as [Hno Hdef]. split.
        * pose proof (get_visitChildren g s t "$defs" Hv) as Hg.
          rewrite Hno in Hg. exact Hg.
        * rewrite <- Hdef. apply erase_look. exact He.
    - reflexivity. }
  destruct HP as [Hno Hdef]. split; [exact Hno|].
  unfold look in Hdef. rewrite Hd in Hdef.
  destruct (get "definitions" c') as [v|]; [|discriminate].
  injection Hdef as Hdef. destruct v as [| | | | |defs']; try discriminate.
  exists defs'. split; [reflexivity|].
  injection Hdef as Hdef.
  apply (f_equal (map fst)) in Hdef. rewrite !map_map in Hdef. exact Hdef.
Qed.

(** *** [id] at the root *)

Lemma root_default_id (c c' : Schema) :
  applyAll fuel rules root f o c = Ok c' ->
  get "id" c' = if truthy' (get "id" c) then get "id" c
                else Some (JStr (toSafeString (justName f))).
Proof.
  intros H.
  pose (P := fun (j : nat) (s : Schema) =>
    get "id" s = if (j <=? 5)%nat then get "id" c
                 else if truthy' (get "id" c) then get "id" c
                      else Some (JStr (toSafeString (justName f)))).
  apply (applyAll_root rules P) with (c := c); [| | |exact H].
  - intros j k R s s' Hj Hr HR. unfold P in *.
    assert (Hkeep : j <> 5 -> get "id" s' = get "id" s).
    { intros Hj5.
      do 5 (destruct j as [|j];
            [apply (rules_frame_key _ _ _ _ _ _ _ Hj HR); reflexivity|]).
      destruct j as [|j]; [congruence|].
      do 6 (destruct j as [|j];
            [apply (rules_frame_key _ _ _ _ _ _ _ Hj HR);
             simpl; destruct (ignoreMinAndMaxItems o); reflexivity|]).
      discriminate. }
    destruct (Nat.eq_dec j 5) as [->|Hj5].
    + injection Hj as <- <-. simpl in Hr. simpl. unfold rule_default_id in HR.
      rewrite Hr in HR. simpl in HR.
      destruct (truthy' (get "id" c)); injection HR as <-; [exact Hr|].
      rewrite get_set. reflexivity.
    + rewrite (Hkeep Hj5), Hr.
      destruct (Nat.leb_spec j 5), (Nat.leb_spec (S j) 5); try lia; reflexivity.
  - intros j g s t Hr Hv. unfold P in *.
    rewrite (get_visitChildren_other g s t "id" eq_refl Hv). exact Hr.
  - reflexivity.
Qed.

End RootFacts.

(** ** The rules in a whole normalization *)





(** C4, as the code has it.  The rule that renames [$defs] assigns: on
    every node whose [$defs] is truthy, as every object is, the node loses
    [$defs] and its [definitions] become the value that [$defs] had; what
    [definitions] held before is dropped, and no other key changes.  When
    the node is the document and [$defs] is an object, [normalize] returns
    a document without [$defs] whose [definitions] have the keys of [$defs],
    in their order, and no other key. *)
Theorem defs_overwrite_definitions {U : Utils} (schema : Schema) (defs : JSON)
    (f : string) (o : Options) :
  get "$defs" schema = Some defs -> truthy defs = true ->
  (forall root r, exists schema',
     rule_defs_to_definitions schema root f o r = Ok schema'
     /\ get "$defs" schema' = None
     /\ get "definitions" schema' = Some defs
     /\ (forall k, k <> "$defs" -> k <> "definitions" -> get k schema' = get k schema))
  /\ (forall entries, defs = JObj entries ->
      normalizerRules o = None ->
      (ignoreMinAndMaxItems o = false -> AllNodes (fun _ => lengthsOK) true schema) ->
      forall (σ : store) (l : loc), σ !! l = Some schema ->
      exists schema' entries',
        (forall fuel, depth (JObj schema) <= fuel ->
           normalize fuel l f o σ = Ok (fresh (dom σ), <[fresh (dom σ) := schema']> σ))
        /\ get "$defs" schema' = None
        /\ get "definitions" schema' = Some (JObj entries')
        /\ map fst entries' = map fst entries).
Proof.
  intros Hd Ht. split.
  - intros root r. exact (rule_defs_overwrite schema defs root f o r Hd Ht).
  - intros entries -> Hno HL σ l Hl.
    destruct (normalize_root l f o σ schema Hl Hno HL) as (c' & Hc' & Hret).
    destruct (root_defs_overwrite _ _ _ _ _ _ entries Hd Hc') as (Hnone & entries' & Hdef & Hk).
    exists c', entries'. auto.
Qed.

(** [definitions] holds [a] and [$defs] holds [b]: [b] alone is left. *)
Lemma defs_overwrite_definitions_witness :
  (forall root r, exists schema',
     rule_defs_to_definitions bothDefinitions root "a" DEFAULT_OPTIONS r = Ok schema'
     /\ get "$defs" schema' = None
     /\ get "definitions" schema' = Some (JObj [("b", JObj [])])
     /\ (forall k, k <> "$defs" -> k <> "definitions" ->
          get k schema' = get k bothDefinitions))
  /\ (exists schema' entries',
        (forall fuel, depth (JObj bothDefinitions) <= fuel ->
           normalize (U := plainUtils) fuel 1%positive "a" DEFAULT_OPTIONS
             (storeOf bothDefinitions)
           = Ok (2%positive, <[2%positive := schema']> (storeOf bothDefinitions)))
        /\ get "$defs" schema' = None
        /\ get "definitions" schema' = Some (JObj entries')
        /\ map fst entries' = ["b"]).
Proof.
  destruct (defs_overwrite_definitions (U := plainUtils) bothDefinitions
              (JObj [("b", JObj [])]) "a" DEFAULT_OPTIONS eq_refl eq_refl)
    as [Hrule Hdoc].
  split; [exact Hrule|].
  apply (Hdoc [("b", JObj [])] eq_refl eq_refl); [|reflexivity].
  intros _. apply AllNodes_intro.
  - split; intros m; discriminate.
  - apply Forall_cons_2; [|apply Forall_cons_2; [|apply Forall_nil_2]];
      (apply AllNodes_intro; [|apply Forall_nil_2]); split; intros m; discriminate.
Defined.

(** C10.  The rule that defaults the top-level [id] writes the identifier
    derived from the file name into the root whenever the [id] of the root
    is falsy (absent, or a falsy value such as the empty string), leaves a
    root with a truthy [id] alone, and leaves every node that is not the
    root alone; so a pass of the rule over a tree changes the tree as the
    rule changes its root, and nothing below.  No other built-in rule
    writes [id]: the document that [normalize] returns has the [id] of the
    caller's document when that is truthy, and the derived identifier
    otherwise. *)
Theorem default_id_at_falsy_root {U : Utils} (schema : Schema) (root : loc)
    (f : string) (o : Options) :
  (truthy' (get "id" schema) = false ->
     rule_default_id schema root f o true
     = Ok (set "id" (JStr (toSafeString (justName f))) schema))
  /\ (truthy' (get "id" schema) = true -> rule_default_id schema root f o true = Ok schema)
  /\ rule_default_id schema root f o false = Ok schema
  /\ (forall fuel t,
        traverse fuel schema (fun s isRoot => rule_default_id s root f o isRoot) true = Ok t ->
        rule_default_id schema root f o true = Ok t)
  /\ (normalizerRules o = None ->
      (ignoreMinAndMaxItems o = false -> AllNodes (fun _ => lengthsOK) true schema) ->
      forall (σ : store) (l : loc), σ !! l = Some schema ->
      exists schema',
        (forall fuel, depth (JObj schema) <= fuel ->
           normalize fuel l f o σ = Ok (fresh (dom σ), <[fresh (dom σ) := schema']> σ))
        /\ get "id" schema'
           = if truthy' (get "id" schema) then get "id" schema
             else Some (JStr (toSafeString (justName f)))).
Proof.
  split; [|split; [|split; [|split]]].
  - unfold rule_default_id. intros ->. reflexivity.
  - unfold rule_default_id. intros ->. reflexivity.
  - reflexivity.
  - intros fuel t. apply rule_default_id_pass.
  - intros Hno HL σ l Hl.
    destruct (normalize_root l f o σ schema Hl Hno HL) as (c' & Hc' & Hret).
    exists c'. split; [exact Hret|].
    exact (root_default_id _ _ _ _ _ _ Hc').
Qed.

(** A root whose [id] is the empty string. *)
Lemma default_id_at_falsy_root_witness :
  rule_default_id (U := plainUtils) [("id", JStr ""); ("type", JStr "object")]
    1%positive "a" DEFAULT_OPTIONS true
  = Ok [("id", JStr "a"); ("type", JStr "object")]
  /\ exists schema',
       (forall fuel, 1 <= fuel ->
          normalize (U := plainUtils) fuel 1%positive "a" DEFAULT_OPTIONS
            (storeOf [("id", JStr ""); ("type", JStr "object")])
          = Ok (2%positive,
                <[2%positive := schema']> (storeOf [("id", JStr ""); ("type", JStr "object")])))
       /\ get "id" schema' = Some (JStr "a").
Proof.
  destruct (default_id_at_falsy_root (U := plainUtils)
              [("id", JStr ""); ("type", JStr "object")] 1%positive "a" DEFAULT_OPTIONS)
    as (Hfalsy & _ & _ & _ & Hdoc).
  split; [exact (Hfalsy eq_refl)|].
  apply (Hdoc eq_refl); [|reflexivity].
  intros _. apply AllNodes_intro; [|apply Forall_nil_2].
  split; intros m; discriminate.
Defined.

(** ** A rule after itself *)

Lemma has_set (k : string) (v : JSON) (s : Schema) : has k (set k v s) = true.
Proof. unfold has. rewrite get_set, String.eqb_refl. reflexivity. Qed.

Section Twice.
Context {U : Utils}.
Variables (root : loc) (f : string) (o : OptionsData).

(** After a built-in rule has run on a node, the node passes the test of
    the rule. *)
Lemma rules_pass (j : nat) (k : string) (R : Rule) (test : bool -> Schema -> bool)
    (r : bool) (s s' : Schema) :
  (j = 6 -> forall d, escapeText (escapeText d) = escapeText d) ->
  (j = 1 -> typeOK s) ->
  rules !! j = Some (k, R) -> settled f o !! j = Some test ->
  R s root f o r = Ok s' ->
  test r s' = true.
Proof.
  intros Hidem HT Hj Htest HR.
  destruct j as [|j].
  { injection Hj as <- <-. injection Htest as <-.
    unfold rule_remove_null_type in HR. unfold settled_remove_null_type.
    repeat case_match; simplify_eq; rewrite ?get_set in *; simpl in *; simplify_eq;
      try reflexivity; try congruence.
    all: try (rewrite existsb_filter_null, andb_false_r; reflexivity).
    all: try (apply negb_true_iff; congruence). }
  destruct j as [|j].
  { injection Hj as <- <-. injection Htest as <-.
    unfold rule_destructure_unary_types in HR. unfold settled_destructure_unary_types.
    repeat case_match; simplify_eq; rewrite ?get_set in *; simpl in *; simplify_eq;
      try reflexivity; try congruence.
    all: match goal with
         | H : get "type" _ = Some (JArr [JArr _]) |- _ =>
             apply (HT eq_refl) in H; simpl in H; discriminate
         end. }
  destruct j as [|j].
  { injection Hj as <- <-. injection Htest as <-.
    unfold rule_add_empty_required in HR. unfold settled_add_empty_required.
    destruct (isObjectType s && negb (has "required" s)) eqn:E; injection HR as <-.
    - rewrite has_set, andb_false_r. reflexivity.
    - rewrite E. reflexivity. }
  destruct j as [|j].
  { injection Hj as <- <-. injection Htest as <-.
    unfold rule_required_false in HR. unfold settled_required_false.
    repeat case_match; simplify_eq; rewrite ?get_set in *; simpl in *; simplify_eq;
      try reflexivity; try congruence. }
  destruct j as [|j].
  { injection Hj as <- <-. injection Htest as <-.
    unfold rule_default_additionalProperties in HR.
    unfold settled_default_additionalProperties.
    destruct (isObjectType s && negb (has "additionalProperties" s)
              && negb (has "patternProperties" s)) eqn:E; injection HR as <-.
    - rewrite has_set. simpl. rewrite andb_false_r. reflexivity.
    - rewrite E. reflexivity. }
  destruct j as [|j].
  { injection Hj as <- <-. injection Htest as <-.
    unfold rule_default_id in HR. unfold settled_default_id.
    destruct (r && negb (truthy' (get "id" s))) eqn:E; injection HR as <-.
    - rewrite get_set. simpl. rewrite String.eqb_refl, !orb_true_r. reflexivity.
    - destruct r; [|reflexivity]. simpl in E. apply negb_false_iff in E.
      rewrite E. reflexivity. }
  destruct j as [|j].
  { injection Hj as <- <-. injection Htest as <-.
    unfold rule_escape_comment, escapeBlockComment in HR. unfold settled_escape_comment.
    repeat case_match; simplify_eq; rewrite ?get_set in *; simpl in *; simplify_eq;
      try reflexivity; try congruence.
    rewrite (Hidem eq_refl). apply String.eqb_refl. }
  destruct j as [|j].
  { injection Hj as <- <-. injection Htest as <-.
    unfold rule_remove_min_max in HR. unfold settled_remove_min_max.
    destruct (ignoreMinAndMaxItems o); [|injection HR as <-; reflexivity]. simpl.
    simpl in HR.
    assert (Hdel : forall k t, has k (delete k t) = false).
    { intros k0 t. unfold has. rewrite get_delete, String.eqb_refl. reflexivity. }
    assert (Hoth : forall t, has "maxItems" (delete "minItems" t) = has "maxItems" t).
    { intros t. unfold has. rewrite get_delete. reflexivity. }
    destruct (has "maxItems" s) eqn:E1.
    - destruct (has "minItems" (delete "maxItems" s)) eqn:E2; injection HR as <-.
      + rewrite Hoth, !Hdel. reflexivity.
      + rewrite Hdel, E2. reflexivity.
    - destruct (has "minItems" s) eqn:E2; injection HR as <-.
      + rewrite Hoth, Hdel, E1. reflexivity.
      + rewrite E1, E2. reflexivity. }
  destruct j as [|j].
  { injection Hj as <- <-. injection Htest as <-.
    unfold rule_normalise_minItems in HR. unfold settled_normalise_minItems.
    destruct (ignoreMinAndMaxItems o); [reflexivity|]. simpl.
    destruct (isArrayType s) eqn:E; injection HR as <-.
    - rewrite get_set. simpl. rewrite orb_comm.
      destruct (get "minItems" s) as [[]|]; reflexivity.
    - rewrite E. reflexivity. }
  destruct j as [|j].
  { injection Hj as <- <-. injection Htest as <-.
    rewrite rule_normalize_items_eq in HR. unfold settled_normalize_items.
    destruct (ignoreMinAndMaxItems o); [reflexivity|]. simpl.
    apply bind_Ok in HR as (s1 & Hs1 & [= <-]).
    destruct (tupleStep_items _ _ Hs1) as [_ Hdue1].
    destruct (sliceStep_items s1) as (_ & Hdue2 & Hslice).
    rewrite Hslice, (Hdue2 Hdue1). reflexivity. }
  destruct j as [|j].
  { injection Hj as <- <-. injection Htest as <-.
    unfold rule_defs_to_definitions in HR. unfold settled_defs_to_definitions, truthy'.
    repeat case_match; simplify_eq; rewrite ?get_delete in *; simpl in *; simplify_eq;
      try reflexivity; try congruence; try (apply negb_true_iff; congruence). }
  destruct j as [|j].
  { injection Hj as <- <-. injection Htest as <-.
    unfold rule_const_to_enum in HR. unfold settled_const_to_enum, truthy'.
    repeat case_match; simplify_eq; rewrite ?get_delete in *; simpl in *; simplify_eq;
      try reflexivity; try congruence; try (apply negb_true_iff; congruence). }
  discriminate.
Qed.

(** A node that passes the test of a rule is left as it is by the rule. *)
Lemma settled_same_at (j : nat) (k : string) (R : Rule) (test : bool -> Schema -> bool)
    (r : bool) (s : Schema) :
  rules !! j = Some (k, R) -> settled f o !! j = Some test ->
  test r s = true -> R s root f o r = Ok s.
Proof.
  intros Hj Htest H.
  do 12 (destruct j as [|j];
         [injection Hj as <- <-; injection Htest as <-;
          eauto using settled_remove_null_type_same, settled_destructure_unary_types_same,
            settled_add_empty_required_same, settled_required_false_same,
            settled_default_additionalProperties_same, settled_default_id_same,
            settled_escape_comment_same, settled_remove_min_max_same,
            settled_normalise_minItems_same, settled_normalize_items_same,
            settled_defs_to_definitions_same, settled_const_to_enum_same|]).
  discriminate.
Qed.

(** X2.  Every built-in rule is idempotent on a node: run on a node it has
    just returned, it returns the node as it is.  For the rule that
    destructures a one-element [type] the element must not be an array
    itself, and for the rule on [description] the escaping of the text must
    be idempotent. *)
Theorem builtin_rule_twice (j : nat) (k : string) (R : Rule) (r : bool) (s s' : Schema) :
  (j = 6 -> forall d, escapeText (escapeText d) = escapeText d) ->
  (j = 1 -> typeOK s) ->
  rules !! j = Some (k, R) ->
  R s root f o r = Ok s' ->
  R s' root f o r = Ok s'.
Proof.
  intros Hidem HT Hj HR.
  destruct (settled f o !! j) as [test|] eqn:Htest.
  - apply (settled_same_at j k R test); [exact Hj|exact Htest|].
    exact (rules_pass j k R test r s s' Hidem HT Hj Htest HR).
  - apply lookup_ge_None in Htest. apply lookup_lt_Some in Hj.
    simpl in Htest, Hj. lia.
Qed.

End Twice.

(** The pair made from a schema with [minItems] at 2 is left alone by the
    rule that made it. *)
Lemma builtin_rule_twice_witness :
  rule_normalize_items
    [("items", JArr [JObj []; JObj []]); ("minItems", JNum 2); ("additionalItems", JObj [])]
    1%positive "a" DEFAULT_OPTIONS true
  = Ok [("items", JArr [JObj []; JObj []]); ("minItems", JNum 2); ("additionalItems", JObj [])].
Proof.
  apply (builtin_rule_twice (U := plainUtils) 1%positive "a" DEFAULT_OPTIONS 9
           "Normalize schema.items" rule_normalize_items true
           [("items", JObj []); ("minItems", JNum 2)]).
  - discriminate.
  - discriminate.
  - reflexivity.
  - reflexivity.
Defined.

(** ** What holds of every node of a normalized document *)

Lemma Nodes_AllNodes (P : bool -> Schema -> Prop) (n : nat) :
  forall r s, Nodes n P r s -> AllNodes P r s.
Proof.
  induction n as [|n IH]; intros r s H; [destruct H|].
  destruct H as [HP Hch]. apply AllNodes_intro; [exact HP|].
  eapply Forall_impl; [exact Hch|]. intros c. apply IH.
Qed.

Lemma AllNodes_all (P : bool -> Schema -> Prop) :
  (forall r s, P r s) -> forall r s, AllNodes P r s.
Proof.
  intros HP r s. apply Nodes_AllNodes with (n := depth (JObj s)).
  eapply Nodes_impl; [|apply Nodes_depth; reflexivity]. intros r' s' _. apply HP.
Qed.

Ltac not_written :=
  simpl; first [reflexivity
               | destruct (ignoreMinAndMaxItems _); (reflexivity || discriminate)].

(** In the goal, what the rule of [Hj] left alone in [s'] is read in the
    node it was given. *)
Ltac frames root f o Hj HR s' :=
  repeat match goal with
         | |- context [get ?k s'] =>
             rewrite (rules_frame_key root f o k _ _ _ _ _ _ Hj HR) by not_written
         end.

Section PostFacts.
Context {U : Utils}.
Variables (f : string) (o : Options).

(** An invariant that grows with the rules holds, after the last rule, of
    every node. *)
Lemma rules_post (root : loc) (I : nat -> bool -> Schema -> Prop)
    (Q : bool -> Schema -> Prop) :
  (forall j r s t, I j r s -> erase t = erase s -> I j r t) ->
  (forall j k (R : Rule) r s s', rules !! j = Some (k, R) -> I j r s ->
     R s root f o r = Ok s' -> I (S j) r s') ->
  (forall r s, I (length rules) r s -> Q r s) ->
  forall fuel c c', AllNodes (I 0) true c ->
  applyAll fuel rules root f o c = Ok c' ->
  AllNodes Q true c'.
Proof.
  intros Hshape Hstep HQ fuel c c' H0 H.
  apply Nodes_AllNodes with (n := fuel).
  apply (Nodes_impl (I (length rules))); [exact HQ|].
  apply (applyAll_post fuel root f o rules I Hshape) with (m := depth (JObj c)) (c := c).
  - intros j k R r s s' Hj HI HR. split; [eapply Hstep; eassumption|].
    pose proof (rules_keep root f o r s s') as Hall.
    rewrite Forall_forall in Hall.
    apply (Hall (k, R)); [|exact HR].
    eapply list_elem_of_lookup_2. exact Hj.
  - apply AllNodes_Nodes; [reflexivity|exact H0].
  - exact H.
Qed.

Lemma normalize_post (I : nat -> bool -> Schema -> Prop)
    (Q : bool -> Schema -> Prop) :
  (forall j r s t, I j r s -> erase t = erase s -> I j r t) ->
  (forall root j k (R : Rule) r s s', rules !! j = Some (k, R) -> I j r s ->
     R s root f o r = Ok s' -> I (S j) r s') ->
  (forall r s, I (length rules) r s -> Q r s) ->
  forall fuel l (σ σ' : store) l',
    normalizerRules o = None ->
    (forall c, σ !! l = Some c -> AllNodes (I 0) true c) ->
    normalize fuel l f o σ = Ok (l', σ') ->
    exists c', σ' !! l' = Some c' /\ AllNodes Q true c'.
Proof.
  intros Hshape Hstep HQ fuel l σ σ' l' Hno H0 Hn.
  apply normalize_Ok in Hn as (c & c' & Hc & Hc' & -> & ->).
  rewrite Hno in Hc'. simpl (default _ _) in Hc'. rewrite app_nil_r in Hc'.
  exists c'. split; [apply lookup_insert_eq|].
  eapply rules_post; [exact Hshape|apply Hstep|exact HQ|apply H0; exact Hc|exact Hc'].
Qed.

(** What the test of a rule says once the rule has run. *)
Lemma rules_pass_at (root : loc) (j : nat) (k : string) (R : Rule)
    (test : bool -> Schema -> bool) (r : bool) (s s' : Schema) :
  j <> 6 -> j <> 1 ->
  rules !! j = Some (k, R) -> settled f o !! j = Some test ->
  R s root f o r = Ok s' -> test r s' = true.
Proof.
  intros H6 H1. apply rules_pass; intros E; [destruct (H6 E)|destruct (H1 E)].
Qed.

End PostFacts.

(** X3.  In the document that [normalize] returns, with the built-in rules
    alone, every node of object type (one that has [properties], or whose
    [type] is or holds [object] or [any]) has [required], and no node has
    [required] at [false]. *)
Theorem required_everywhere {U : Utils} (fuel : nat) (l l' : loc) (f : string) (o : Options)
    (σ σ' : store) :
  normalizerRules o = None ->
  normalize fuel l f o σ = Ok (l', σ') ->
  exists c', σ' !! l' = Some c'
    /\ AllNodes (fun _ s => (isObjectType s = true -> has "required" s = true)
                            /\ get "required" s <> Some (JBool false)) true c'.
Proof.
  intros Hno Hn. revert Hn.
  apply (normalize_post f o
    (fun j _ s => (2 < j -> isObjectType s = true -> has "required" s = true)
                  /\ (3 < j -> get "required" s <> Some (JBool false)))); [| | |exact Hno|].
  - intros j r s t [H1 H2] He. unfold isObjectType.
    rewrite !(shape_has _ _ He), !(shape_hasType _ _ He).
    rewrite (erase_get_other "required" _ _ He eq_refl). auto.
  - intros root j k R r s s' Hj [H1 H2] HR.
    do 2 (destruct j as [|j]; [split; intros; lia|]).
    destruct j as [|j].
    { pose proof (rules_pass_at f o root 2 _ _ _ r s s' ltac:(lia) ltac:(lia) Hj eq_refl HR)
        as Ht.
      unfold settled_add_empty_required in Ht.
      split; [intros _ Hobj|intros; lia].
      rewrite Hobj in Ht. simpl in Ht. apply negb_true_iff, negb_false_iff in Ht. exact Ht. }
    destruct j as [|j].
    { pose proof (rules_pass_at f o root 3 _ _ _ r s s' ltac:(lia) ltac:(lia) Hj eq_refl HR)
        as Ht.
      unfold settled_required_false in Ht.
      injection Hj as <- <-. specialize (H1 ltac:(lia)).
      split; [intros _|intros _ E; rewrite E in Ht; discriminate].
      unfold rule_required_false in HR.
      destruct (get "required" s) as [v|] eqn:E.
      - intros _. destruct v as [|[]| | | |]; injection HR as <-; unfold has;
          rewrite ?get_set, ?E; reflexivity.
      - injection HR as <-. exact H1. }
    do 8 (destruct j as [|j];
          [specialize (H1 ltac:(lia)); specialize (H2 ltac:(lia));
           unfold isObjectType, hasType, has in *;
           frames root f o Hj HR s'; split; intros _; assumption|]).
    discriminate.
  - intros r s [H1 H2]. split; [apply H1|apply H2]; simpl; lia.
  - intros c _. apply AllNodes_all. intros r s. split; intros; lia.
Qed.

(** A node of type [object] with [required] at [false], under a property. *)
Lemma required_everywhere_witness :
  exists c',
    (<[2%positive :=
         [("properties", JObj [("p", JObj [("type", JStr "object"); ("required", JArr []);
                                            ("additionalProperties", JBool true)])]);
          ("required", JArr []); ("additionalProperties", JBool true); ("id", JStr "a")]]>
       (storeOf [("properties", JObj [("p", JObj [("type", JStr "object");
                                                   ("required", JBool false)])])]))
    !! 2%positive = Some c'
    /\ AllNodes (fun _ s => (isObjectType s = true -> has "required" s = true)
                            /\ get "required" s <> Some (JBool false)) true c'.
Proof.
  apply (required_everywhere (U := plainUtils) 2 1%positive 2%positive "a" DEFAULT_OPTIONS
           (storeOf [("properties", JObj [("p", JObj [("type", JStr "object");
                                                       ("required", JBool false)])])])).
  - reflexivity.
  - vm_compute. reflexivity.
Defined.

(** X4.  In the document that [normalize] returns, with the built-in rules
    alone, every node of object type that has no [patternProperties] has
    [additionalProperties]. *)
Theorem additionalProperties_everywhere {U : Utils} (fuel : nat) (l l' : loc) (f : string)
    (o : Options) (σ σ' : store) :
  normalizerRules o = None ->
  normalize fuel l f o σ = Ok (l', σ') ->
  exists c', σ' !! l' = Some c'
    /\ AllNodes (fun _ s => isObjectType s = true -> has "patternProperties" s = false ->
                            has "additionalProperties" s = true) true c'.
Proof.
  intros Hno Hn. revert Hn.
  apply (normalize_post f o
    (fun j _ s => 4 < j -> isObjectType s = true -> has "patternProperties" s = false ->
                  has "additionalProperties" s = true)); [| | |exact Hno|].
  - intros j r s t H He. unfold isObjectType.
    rewrite !(shape_has _ _ He), !(shape_hasType _ _ He). exact H.
  - intros root j k R r s s' Hj H HR.
    do 4 (destruct j as [|j]; [intros; lia|]).
    destruct j as [|j].
    { pose proof (rules_pass_at f o root 4 _ _ _ r s s' ltac:(lia) ltac:(lia) Hj eq_refl HR)
        as Ht.
      unfold settled_default_additionalProperties in Ht.
      intros _ Hobj Hpat. rewrite Hobj, Hpat in Ht. simpl in Ht.
      rewrite andb_true_r in Ht. apply negb_true_iff, negb_false_iff in Ht. exact Ht. }
    do 7 (destruct j as [|j];
          [specialize (H ltac:(lia));
           unfold isObjectType, hasType, has in *;
           frames root f o Hj HR s'; intros _; assumption|]).
    discriminate.
  - intros r s H. apply H. simpl. lia.
  - intros c _. apply AllNodes_all. intros r s. intros; lia.
Qed.

Lemma additionalProperties_everywhere_witness :
  exists c',
    (<[2%positive :=
         [("not", JObj [("properties", JObj []); ("required", JArr []);
                        ("additionalProperties", JBool true)]);
          ("id", JStr "a")]]>
       (storeOf [("not", JObj [("properties", JObj [])])]))
    !! 2%positive = Some c'
    /\ AllNodes (fun _ s => isObjectType s = true -> has "patternProperties" s = false ->
                            has "additionalProperties" s = true) true c'.
Proof.
  apply (additionalProperties_everywhere (U := plainUtils) 2 1%positive 2%positive "a"
           DEFAULT_OPTIONS (storeOf [("not", JObj [("properties", JObj [])])])).
  - reflexivity.
  - vm_compute. reflexivity.
Defined.

(** X5.  With [ignoreMinAndMaxItems] set, no node of the document that
    [normalize] returns has [maxItems] or [minItems]. *)
Theorem ignored_lengths_removed {U : Utils} (fuel : nat) (l l' : loc) (f : string)
    (o : Options) (σ σ' : store) :
  ignoreMinAndMaxItems o = true ->
  normalizerRules o = None ->
  normalize fuel l f o σ = Ok (l', σ') ->
  exists c', σ' !! l' = Some c'
    /\ AllNodes (fun _ s => has "maxItems" s = false /\ has "minItems" s = false) true c'.
Proof.
  intros Hig Hno Hn. revert Hn.
  apply (normalize_post f o
    (fun j _ s => 7 < j -> has "maxItems" s = false /\ has "minItems" s = false));
    [| | |exact Hno|].
  - intros j r s t H He. rewrite !(shape_has _ _ He). exact H.
  - intros root j k R r s s' Hj H HR.
    do 7 (destruct j as [|j]; [intros; lia|]).
    destruct j as [|j].
    { pose proof (rules_pass_at f o root 7 _ _ _ r s s' ltac:(lia) ltac:(lia) Hj eq_refl HR)
        as Ht.
      unfold settled_remove_min_max in Ht. rewrite Hig in Ht. simpl in Ht.
      apply andb_true_iff in Ht as [H1 H2].
      apply negb_true_iff in H1. apply negb_true_iff in H2. auto. }
    do 4 (destruct j as [|j];
          [specialize (H ltac:(lia)); unfold has in *;
           frames root f o Hj HR s'; intros _; assumption|]).
    discriminate.
  - intros r s H. apply H. simpl. lia.
  - intros c _. apply AllNodes_all. intros r s. intros; lia.
Qed.

Lemma ignored_lengths_removed_witness :
  exists c',
    (<[2%positive :=
         [("items", JObj [("items", JObj [])]); ("id", JStr "a")]]>
       (storeOf [("items", JObj [("items", JObj []); ("minItems", JNum 2)]);
                 ("maxItems", JNum 3)]))
    !! 2%positive = Some c'
    /\ AllNodes (fun _ s => has "maxItems" s = false /\ has "minItems" s = false) true c'.
Proof.
  apply (ignored_lengths_removed (U := plainUtils) 3 1%positive 2%positive "a"
           {| data := {| bannerComment := "b"; cwd := "c";
                         declareExternallyReferenced := true; enableConstEnums := true;
                         format := true; ignoreMinAndMaxItems := true;
                         strictIndexSignatures := false; unreachableDefinitions := false;
                         unknownAny := true |};
              normalizerRules := None |}
           (storeOf [("items", JObj [("items", JObj []); ("minItems", JNum 2)]);
                     ("maxItems", JNum 3)])).
  - reflexivity.
  - reflexivity.
  - vm_compute. reflexivity.
Defined.

(** X6.  With [ignoreMinAndMaxItems] unset, every node of array type (one
    that has [items], or whose [type] is or holds [array] or [any]) of the
    document that [normalize] returns has a number for [minItems]. *)
Theorem minItems_everywhere {U : Utils} (fuel : nat) (l l' : loc) (f : string)
    (o : Options) (σ σ' : store) :
  ignoreMinAndMaxItems o = false ->
  normalizerRules o = None ->
  normalize fuel l f o σ = Ok (l', σ') ->
  exists c', σ' !! l' = Some c'
    /\ AllNodes (fun _ s => isArrayType s = true ->
                            exists n, get "minItems" s = Some (JNum n)) true c'.
Proof.
  intros Hig Hno Hn. revert Hn.
  apply (normalize_post f o
    (fun j _ s => 8 < j -> isArrayType s = true ->
                  exists n, get "minItems" s = Some (JNum n)));
    [| | |exact Hno|].
  - intros j r s t H He. unfold isArrayType.
    rewrite !(shape_has _ _ He), !(shape_hasType _ _ He).
    rewrite (erase_get_other "minItems" _ _ He eq_refl). exact H.
  - intros root j k R r s s' Hj H HR.
    do 8 (destruct j as [|j]; [intros; lia|]).
    destruct j as [|j].
    { pose proof (rules_pass_at f o root 8 _ _ _ r s s' ltac:(lia) ltac:(lia) Hj eq_refl HR)
        as Ht.
      unfold settled_normalise_minItems in Ht. rewrite Hig in Ht. simpl in Ht.
      intros _ Harr. rewrite Harr in Ht. simpl in Ht.
      destruct (get "minItems" s') as [[| |n| | |]|]; try discriminate. eauto. }
    destruct j as [|j].
    { specialize (H ltac:(lia)). intros _.
      assert (Hitems : has "items" s' = has "items" s).
      { injection Hj as <- <-. rewrite rule_normalize_items_eq, Hig in HR.
        apply bind_Ok in HR as (s1 & Hs1 & [= <-]).
        destruct (tupleStep_items _ _ Hs1) as [Hhas1 _].
        destruct (sliceStep_items s1) as (Hhas2 & _). congruence. }
      unfold isArrayType in *. rewrite Hitems. unfold hasType in *.
      rewrite !(rules_frame_key root f o "type" _ _ _ _ _ _ Hj HR)
        by (simpl; rewrite Hig; reflexivity).
      rewrite (rules_frame_key root f o "minItems" _ _ _ _ _ _ Hj HR)
        by (simpl; rewrite Hig; reflexivity).
      exact H. }
    do 2 (destruct j as [|j];
          [specialize (H ltac:(lia)); unfold isArrayType, hasType, has in *;
           frames root f o Hj HR s'; intros _; assumption|]).
    discriminate.
  - intros r s H. apply H. simpl. lia.
  - intros c _. apply AllNodes_all. intros r s. intros; lia.
Qed.

Lemma minItems_everywhere_witness :
  exists c',
    (<[2%positive :=
         [("type", JStr "any"); ("minItems", JNum 0); ("required", JArr []);
          ("additionalProperties", JBool true); ("id", JStr "a")]]>
       (storeOf [("type", JStr "any"); ("minItems", JStr "2")]))
    !! 2%positive = Some c'
    /\ AllNodes (fun _ s => isArrayType s = true ->
                            exists n, get "minItems" s = Some (JNum n)) true c'.
Proof.
  apply (minItems_everywhere (U := plainUtils) 1 1%positive 2%positive "a"
           DEFAULT_OPTIONS (storeOf [("type", JStr "any"); ("minItems", JStr "2")])).
  - reflexivity.
  - reflexivity.
  - vm_compute. reflexivity.
Defined.

(** X7.  With [ignoreMinAndMaxItems] unset, the document that [normalize]
    returns holds no tuple left to make and none left to cut: on every node,
    a truthy [items] that is not an array comes with no [maxItems] from [0]
    up and no positive [minItems], and an [items] that is an array has at
    most [maxItems] members when [maxItems] is a number from [0] up. *)
Theorem tuples_everywhere {U : Utils} (fuel : nat) (l l' : loc) (f : string)
    (o : Options) (σ σ' : store) :
  ignoreMinAndMaxItems o = false ->
  normalizerRules o = None ->
  normalize fuel l f o σ = Ok (l', σ') ->
  exists c', σ' !! l' = Some c'
    /\ AllNodes (fun _ s =>
         (forall items, get "items" s = Some items -> truthy items = true ->
            isArray items = false -> hasMaxItems s = false /\ hasMinItems s = false)
         /\ (forall members n, get "items" s = Some (JArr members) ->
               get "maxItems" s = Some (JNum n) -> (0 <= n)%Z ->
               (Z.of_nat (length members) <= n)%Z)) true c'.
Proof.
  intros Hig Hno Hn. revert Hn.
  apply (normalize_post f o
    (fun j _ s => 9 < j -> tupleDue s = false /\ sliceDue s = false));
    [| | |exact Hno|].
  - intros j r s t H He. rewrite (shape_tupleDue _ _ He), (shape_sliceDue _ _ He). exact H.
  - intros root j k R r s s' Hj H HR.
    do 9 (destruct j as [|j]; [intros; lia|]).
    destruct j as [|j].
    { pose proof (rules_pass_at f o root 9 _ _ _ r s s' ltac:(lia) ltac:(lia) Hj eq_refl HR)
        as Ht.
      unfold settled_normalize_items in Ht. rewrite Hig in Ht. simpl in Ht.
      apply andb_true_iff in Ht as [H1 H2].
      apply negb_true_iff in H1. apply negb_true_iff in H2. auto. }
    do 2 (destruct j as [|j];
          [specialize (H ltac:(lia)); unfold tupleDue, sliceDue, hasMaxItems, hasMinItems in *;
           frames root f o Hj HR s'; intros _; assumption|]).
    discriminate.
  - intros r s H. destruct H as [Ht Hs]; [simpl; lia|]. split.
    + intros items Hi Htr Har. unfold tupleDue in Ht. rewrite Hi, Htr, Har in Ht.
      simpl in Ht. apply orb_false_iff in Ht. exact Ht.
    + intros members n Hi Hm Hn0. unfold sliceDue in Hs. rewrite Hi, Hm in Hs.
      destruct (Z.leb_spec 0%Z n) as [_|]; [|lia]. simpl in Hs.
      apply Z.ltb_ge in Hs. exact Hs.
  - intros c _. apply AllNodes_all. intros r s. intros; lia.
Qed.

Lemma tuples_everywhere_witness :
  exists c',
    (<[2%positive :=
         [("items", JArr [JObj [("items", JArr [JNum 1]); ("maxItems", JNum 1);
                               ("minItems", JNum 0)]]);
          ("minItems", JNum 1); ("id", JStr "a");
          ("additionalItems", JObj [("items", JArr [JNum 1]); ("maxItems", JNum 1);
                                    ("minItems", JNum 0)])]]>
       (storeOf [("items", JObj [("items", JArr [JNum 1; JNum 2]); ("maxItems", JNum 1)]);
                 ("minItems", JNum 1)]))
    !! 2%positive = Some c'
    /\ AllNodes (fun _ s =>
         (forall items, get "items" s = Some items -> truthy items = true ->
            isArray items = false -> hasMaxItems s = false /\ hasMinItems s = false)
         /\ (forall members n, get "items" s = Some (JArr members) ->
               get "maxItems" s = Some (JNum n) -> (0 <= n)%Z ->
               (Z.of_nat (length members) <= n)%Z)) true c'.
Proof.
  apply (tuples_everywhere (U := plainUtils) 3 1%positive 2%positive "a"
           DEFAULT_OPTIONS
           (storeOf [("items", JObj [("items", JArr [JNum 1; JNum 2]); ("maxItems", JNum 1)]);
                     ("minItems", JNum 1)])).
  - reflexivity.
  - reflexivity.
  - vm_compute. reflexivity.
Defined.

(** X8.  In the document that [normalize] returns, with the built-in rules
    alone, no node has a truthy [$defs] and no node has a truthy [const]:
    what is left under these keys is a falsy value. *)
Theorem defs_and_const_folded_everywhere {U : Utils} (fuel : nat) (l l' : loc)
    (f : string) (o : Options) (σ σ' : store) :
  normalizerRules o = None ->
  normalize fuel l f o σ = Ok (l', σ') ->
  exists c', σ' !! l' = Some c'
    /\ AllNodes (fun _ s => truthy' (get "$defs" s) = false
                            /\ truthy' (get "const" s) = false) true c'.
Proof.
  intros Hno Hn. revert Hn.
  apply (normalize_post f o
    (fun j _ s => (10 < j -> truthy' (get "$defs" s) = false)
                  /\ (11 < j -> truthy' (get "const" s) = false)));
    [| | |exact Hno|].
  - intros j r s t H He. rewrite !(shape_truthy _ _ He). exact H.
  - intros root j k R r s s' Hj [H1 H2] HR.
    do 10 (destruct j as [|j]; [split; intros; lia|]).
    destruct j as [|j].
    { pose proof (rules_pass_at f o root 10 _ _ _ r s s' ltac:(lia) ltac:(lia) Hj eq_refl HR)
        as Ht.
      unfold settled_defs_to_definitions in Ht. apply negb_true_iff in Ht.
      split; [intros _; exact Ht|intros; lia]. }
    destruct j as [|j].
    { pose proof (rules_pass_at f o root 11 _ _ _ r s s' ltac:(lia) ltac:(lia) Hj eq_refl HR)
        as Ht.
      unfold settled_const_to_enum in Ht. apply negb_true_iff in Ht.
      specialize (H1 ltac:(lia)).
      split; [intros _|intros _; exact Ht].
      rewrite (rules_frame_key root f o "$defs" _ _ _ _ _ _ Hj HR) by reflexivity.
      exact H1. }
    discriminate.
  - intros r s [H1 H2]. split; [apply H1|apply H2]; simpl; lia.
  - intros c _. apply AllNodes_all. intros r s. split; intros; lia.
Qed.

Lemma defs_and_const_folded_everywhere_witness :
  exists c',
    (<[2%positive :=
         [("id", JStr "a");
          ("definitions", JObj [("b", JObj [("enum", JArr [JStr "red"])])])]]>
       (storeOf [("$defs", JObj [("b", JObj [("const", JStr "red")])])]))
    !! 2%positive = Some c'
    /\ AllNodes (fun _ s => truthy' (get "$defs" s) = false
                            /\ truthy' (get "const" s) = false) true c'.
Proof.
  apply (defs_and_const_folded_everywhere (U := plainUtils) 2 1%positive 2%positive "a"
           DEFAULT_OPTIONS (storeOf [("$defs", JObj [("b", JObj [("const", JStr "red")])])])).
  - reflexivity.
  - vm_compute. reflexivity.
Defined.

Lemma rules_typeOK {U : Utils} (root : loc) (f : string) (o : Options) (j : nat)
    (k : string) (R : Rule) (r : bool) (s s' : Schema) :
  rules !! j = Some (k, R) -> R s root f o r = Ok s' -> typeOK s -> typeOK s'.
Proof.
  intros Hj HR.
  pose proof (rules_keep root f o r s s') as Hall. rewrite Forall_forall in Hall.
  destruct (Hall (k, R)) as (_ & _ & HT); [|exact HR|exact HT].
  eapply list_elem_of_lookup_2. exact Hj.
Qed.

(** X9.  When no [type] array of the caller's document holds an array, the
    document that [normalize] returns, with the built-in rules alone, has on
    no node a [type] that is a one-element array, and on no node both an
    [enum] array that holds [null] and a [type] array that holds the string
    [null]. *)
Theorem type_settled_everywhere {U : Utils} (fuel : nat) (l l' : loc) (f : string)
    (o : Options) (σ σ' : store) (c : Schema) :
  normalizerRules o = None ->
  σ !! l = Some c ->
  AllNodes (fun _ => typeOK) true c ->
  normalize fuel l f o σ = Ok (l', σ') ->
  exists c', σ' !! l' = Some c'
    /\ AllNodes (fun _ s =>
         (forall t, get "type" s <> Some (JArr [t]))
         /\ (forall e t, get "enum" s = Some (JArr e) -> get "type" s = Some (JArr t) ->
               existsb isNull e = true -> existsb (isStr "null") t = false)) true c'.
Proof.
  intros Hno Hc HT Hn. revert Hn.
  apply (normalize_post f o
    (fun j _ s => typeOK s
                  /\ (0 < j -> settled_remove_null_type s = true)
                  /\ (1 < j -> settled_destructure_unary_types s = true)));
    [| | |exact Hno|].
  - intros j r s t (H0 & H1 & H2) He.
    pose proof (shape_settled f o _ _ He r) as Hall.
    pose proof (Forall_lookup_1 _ _ 0 _ Hall eq_refl) as E0.
    pose proof (Forall_lookup_1 _ _ 1 _ Hall eq_refl) as E1.
    simpl in E0, E1. rewrite E0, E1.
    split; [eapply shape_typeOK; eassumption|auto].
  - intros root j k R r s s' Hj (H0 & H1 & H2) HR.
    split; [exact (rules_typeOK root f o j k R r s s' Hj HR H0)|].
    destruct j as [|j].
    { pose proof (rules_pass_at f o root 0 _ _ _ r s s' ltac:(lia) ltac:(lia) Hj eq_refl HR).
      split; [auto|intros; lia]. }
    destruct j as [|j].
    { pose proof (rules_pass root f o 1 _ _ _ r s s' ltac:(lia) (fun _ => H0) Hj eq_refl HR)
        as Ht.
      split; [intros _|intros _; exact Ht].
      specialize (H1 ltac:(lia)). injection Hj as <- <-.
      unfold rule_destructure_unary_types in HR.
      destruct (get "type" s) as [[| | | |[|t [|]]|]|] eqn:E; injection HR as <-;
        try exact H1.
      pose proof (H0 _ E) as Ht'. simpl in Ht'.
      unfold settled_remove_null_type. rewrite !get_set. simpl.
      destruct (get "enum" s) as [[]|]; try reflexivity.
      destruct t; try reflexivity. discriminate. }
    do 9 (destruct j as [|j];
          [specialize (H1 ltac:(lia)); specialize (H2 ltac:(lia));
           unfold settled_remove_null_type, settled_destructure_unary_types in *;
           frames root f o Hj HR s'; split; intros _; assumption|]).
    destruct j as [|j]; [|discriminate].
    specialize (H1 ltac:(lia)). specialize (H2 ltac:(lia)).
    split; intros _.
    + injection Hj as <- <-. unfold rule_const_to_enum in HR.
      destruct (get "const" s) as [v|] eqn:E; [|injection HR as <-; exact H1].
      destruct (truthy v) eqn:Tv; injection HR as <-; [|exact H1].
      unfold settled_remove_null_type. rewrite !get_delete, !get_set. simpl.
      destruct (get "type" s) as [[]|]; try reflexivity.
      destruct v; try discriminate; reflexivity.
    + unfold settled_destructure_unary_types in *.
      rewrite (rules_frame_key root f o "type" _ _ _ _ _ _ Hj HR) by reflexivity.
      exact H2.
  - intros r s (_ & H1 & H2). specialize (H1 ltac:(simpl; lia)).
    specialize (H2 ltac:(simpl; lia)). split.
    + intros t E. unfold settled_destructure_unary_types in H2. rewrite E in H2.
      discriminate.
    + intros e t Ee Et Hnull. unfold settled_remove_null_type in H1.
      rewrite Ee, Et, Hnull in H1. simpl in H1. apply negb_true_iff in H1. exact H1.
  - intros c0 Hc0. rewrite Hc in Hc0. injection Hc0 as <-.
    eapply (AllNodes_Nodes _ (depth (JObj c))) in HT; [|reflexivity].
    apply Nodes_AllNodes with (n := depth (JObj c)).
    eapply Nodes_impl; [|exact HT]. intros r s Hs. split; [exact Hs|]. split; intros; lia.
Qed.

Lemma type_settled_everywhere_witness :
  exists c',
    (<[2%positive :=
         [("enum", JArr [JNull]); ("type", JStr "string"); ("id", JStr "a")]]>
       (storeOf nullableString))
    !! 2%positive = Some c'
    /\ AllNodes (fun _ s =>
         (forall t, get "type" s <> Some (JArr [t]))
         /\ (forall e t, get "enum" s = Some (JArr e) -> get "type" s = Some (JArr t) ->
               existsb isNull e = true -> existsb (isStr "null") t = false)) true c'.
Proof.
  apply (type_settled_everywhere (U := plainUtils) 1 1%positive 2%positive "a"
           DEFAULT_OPTIONS (storeOf nullableString) _ nullableString).
  - reflexivity.
  - reflexivity.
  - apply AllNodes_intro; [|apply Forall_nil_2].
    intros t [= <-]. reflexivity.
  - vm_compute. reflexivity.
Defined.

(** ** What the rules leave alone *)

Lemma existsb_eqb_notin (key : string) (keys : list string) :
  key ∉ keys -> existsb (String.eqb key) keys = false.
Proof.
  induction keys as [|k keys IH]; intros H; simpl; [reflexivity|].
  apply not_elem_of_cons in H as [Hne H].
  destruct (String.eqb_spec key k); [congruence|]. simpl. apply IH, H.
Qed.

(** X1.  The footprint of the built-in rules: each rule changes, on the node
    it is given, no key but those of its own ([type] for the two rules on
    [type], [required] for the two on [required], and so on; [minItems],
    [maxItems], [items] and [additionalItems] depend on
    [ignoreMinAndMaxItems]), and the node has no child after the rule that
    it had not before. *)
Theorem builtin_rules_footprint {U : Utils} (root : loc) (f : string) (o : Options)
    (j : nat) (k : string) (keys : list string) (R : Rule) (r : bool) (s s' : Schema) :
  rules !! j = Some (k, R) -> written o !! j = Some keys ->
  R s root f o r = Ok s' ->
  (forall key, key ∉ keys -> get key s' = get key s)
  /\ children s' ⊆ children s.
Proof.
  intros Hj Hkeys HR. split.
  - intros key Hkey.
    exact (rules_frame root f o j k key keys R r s s' Hj Hkeys
             (existsb_eqb_notin key keys Hkey) HR).
  - pose proof (rules_keep root f o r s s') as Hall. rewrite Forall_forall in Hall.
    destruct (Hall (k, R)) as (Hch & _); [|exact HR|exact Hch].
    eapply list_elem_of_lookup_2. exact Hj.
Qed.

(** The rule on [const] writes [enum] and [const] and nothing else. *)
Lemma builtin_rules_footprint_witness :
  (forall key, key ∉ ["enum"; "const"] ->
     get key [("title", JStr "t"); ("enum", JArr [JStr "red"])]
     = get key [("title", JStr "t"); ("const", JStr "red")])
  /\ children [("title", JStr "t"); ("enum", JArr [JStr "red"])]
     ⊆ children [("title", JStr "t"); ("const", JStr "red")].
Proof.
  apply (builtin_rules_footprint (U := plainUtils) 1%positive "a" DEFAULT_OPTIONS 11
           "Transform const to singleton enum" ["enum"; "const"] rule_const_to_enum true
           [("title", JStr "t"); ("const", JStr "red")]
           [("title", JStr "t"); ("enum", JArr [JStr "red"])]).
  - reflexivity.
  - reflexivity.
  - reflexivity.
Defined.

Section RootKeys.
Context {U : Utils}.
Variables (fuel : nat) (root : loc) (f : string) (o : Options).

Lemma root_untouched (c c' : Schema) (key : string) :
  Forall (fun keys => key ∉ keys) (written o) ->
  applyAll fuel rules root f o c = Ok c' ->
  look key c' = look key c.
Proof.
  intros Hkey H.
  apply (applyAll_root fuel root f o rules (fun _ s => look key s = look key c))
    with (c := c); [| |reflexivity|exact H].
  - intros j k R s s' Hj Hs HR.
    destruct (written o !! j) as [keys|] eqn:E.
    + unfold look in *.
      rewrite (rules_frame root f o j k key keys R true s s' Hj E); [exact Hs| |exact HR].
      apply existsb_eqb_notin. exact (Forall_lookup_1 _ _ _ _ Hkey E).
    + apply lookup_ge_None in E. apply lookup_lt_Some in Hj.
      unfold written in E. simpl in E, Hj. lia.
  - intros j g s t Hs Hv. rewrite <- Hs. apply erase_look.
    eapply visitChildren_erase. exact Hv.
Qed.

End RootKeys.

(** X10.  A key that no built-in rule writes stays at the root of the
    document through [normalize]: it is there afterwards exactly when it
    was there before, and when it is a key under which no schema is looked
    for ([title], [format], [default], ...) its value is unchanged. *)
Theorem untouched_keys_kept {U : Utils} (fuel : nat) (l l' : loc) (f : string)
    (o : Options) (σ σ' : store) (c : Schema) (key : string) :
  normalizerRules o = None ->
  σ !! l = Some c ->
  Forall (fun keys => key ∉ keys) (written o) ->
  normalize fuel l f o σ = Ok (l', σ') ->
  exists c', σ' !! l' = Some c'
    /\ has key c' = has key c
    /\ (kindOf key = KOther -> get key c' = get key c).
Proof.
  intros Hno Hc Hkey Hn.
  apply normalize_Ok in Hn as (c0 & c' & Hc0 & Hc' & -> & ->).
  rewrite Hc in Hc0. injection Hc0 as <-.
  rewrite Hno in Hc'. simpl (default _ _) in Hc'. rewrite app_nil_r in Hc'.
  exists c'. split; [apply lookup_insert_eq|].
  pose proof (root_untouched _ _ _ _ _ _ key Hkey Hc') as Hlook.
  split.
  - rewrite !has_look, Hlook. reflexivity.
  - intros Hk. unfold look in Hlook.
    destruct (get key c') as [v'|], (get key c) as [v|]; simpl in Hlook; try congruence.
    rewrite !(eraseKey_other _ _ Hk) in Hlook. exact Hlook.
Qed.

Lemma untouched_keys_kept_witness :
  exists c',
    (<[2%positive := [("title", JStr "t"); ("id", JStr "a"); ("enum", JArr [JStr "red"])]]>
       (storeOf [("title", JStr "t"); ("const", JStr "red")]))
    !! 2%positive = Some c'
    /\ has "title" c' = has "title" [("title", JStr "t"); ("const", JStr "red")]
    /\ (kindOf "title" = KOther ->
        get "title" c' = get "title" [("title", JStr "t"); ("const", JStr "red")]).
Proof.
  apply (untouched_keys_kept (U := plainUtils) 1 1%positive 2%positive "a"
           DEFAULT_OPTIONS (storeOf [("title", JStr "t"); ("const", JStr "red")])).
  - reflexivity.
  - reflexivity.
  - unfold written. simpl.
    repeat (apply Forall_cons_2; [intros Hin; repeat (apply elem_of_cons in Hin as [Hin|Hin];
                                                      [discriminate|]); inversion Hin|]).
    apply Forall_nil_2.
  - vm_compute. reflexivity.
Defined.

(** ** Arrays at the root *)

Section RootItems.
Context {U : Utils}.
Variables (fuel : nat) (root : loc) (f : string) (o : Options).
Hypothesis Hig : ignoreMinAndMaxItems o = false.

(** Rules other than the two on [minItems] and [items] leave the four keys
    of arrays alone. *)
Lemma rules_frame_array (j : nat) (k : string) (R : Rule) (r : bool) (s s' : Schema) :
  rules !! j = Some (k, R) -> R s root f o r = Ok s' ->
  (j <> 9 -> get "items" s' = get "items" s
             /\ get "additionalItems" s' = get "additionalItems" s)
  /\ (j <> 8 -> get "minItems" s' = get "minItems" s)
  /\ get "maxItems" s' = get "maxItems" s.
Proof.
  intros Hj HR.
  do 12 (destruct j as [|j];
         [repeat split; intros;
          first [congruence
                | apply (rules_frame_key root f o _ _ _ _ _ _ _ Hj HR);
                  simpl; rewrite ?Hig; reflexivity]|]).
  discriminate.
Qed.

Lemma root_plain_array (c c' : Schema) (items : JSON) :
  get "items" c = Some items -> truthy items = true -> isArray items = false ->
  hasMaxItems c = false -> hasMinItems c = false ->
  applyAll fuel rules root f o c = Ok c' ->
  (exists item', get "items" c' = Some item' /\ eraseValue item' = eraseValue items)
  /\ look "additionalItems" c' = look "additionalItems" c.
Proof.
  intros Hit Htr Har Hmax Hmin H.
  pose (P := fun (_ : nat) (s : Schema) =>
    (exists v, get "items" s = Some v /\ eraseValue v = eraseValue items)
    /\ look "additionalItems" s = look "additionalItems" c
    /\ hasMaxItems s = false /\ hasMinItems s = false).
  assert (HP : P (length rules) c').
  { apply (applyAll_root fuel root f o rules P) with (c := c); [| | |exact H].
    - intros j k R s s' Hj ((v & Hv & Ev) & Ha & Hmx & Hmn) HR.
      destruct (rules_frame_array j k R true s s' Hj HR) as (Fi & Fmin & Fmax).
      destruct (erased_single _ _ Ev) as [Tv Av]. rewrite Htr in Tv. rewrite Har in Av.
      assert (Hmx' : hasMaxItems s' = false) by (unfold hasMaxItems in *; rewrite Fmax; exact Hmx).
      destruct (Nat.eq_dec j 9) as [->|Hj9]; [|destruct (Nat.eq_dec j 8) as [->|Hj8]].
      + injection Hj as <- <-. rewrite rule_normalize_items_eq, Hig in HR.
        apply bind_Ok in HR as (s1 & Hs1 & [= <-]).
        assert (Hdue : tupleDue s = false).
        { unfold tupleDue. rewrite Hv, Hmx, Hmn, andb_false_r. reflexivity. }
        assert (Es1 : s1 = s).
        { apply tupleStep_cases in Hs1 as [[-> _]|(? & ? & _ & Hd & _)]; congruence. }
        subst s1.
        assert (Es : sliceStep s = s).
        { unfold sliceStep. rewrite Hv. destruct v; try reflexivity. discriminate. }
        rewrite Es. repeat split; eauto.
      + destruct (Fi ltac:(lia)) as [Fit Fadd].
        split; [exists v; rewrite Fit; auto|].
        split; [unfold look in *; rewrite Fadd; exact Ha|].
        split; [exact Hmx'|].
        injection Hj as <- <-. unfold rule_normalise_minItems in HR. rewrite Hig in HR.
        destruct (isArrayType s); injection HR as <-; [|exact Hmn].
        unfold hasMinItems in *. rewrite get_set. simpl.
        destruct (get "minItems" s) as [[]|]; try reflexivity. exact Hmn.
      + destruct (Fi Hj9) as [Fit Fadd]. specialize (Fmin Hj8).
        split; [exists v; rewrite Fit; auto|].
        split; [unfold look in *; rewrite Fadd; exact Ha|].
        split; [exact Hmx'|]. unfold hasMinItems in *. rewrite Fmin. exact Hmn.
    - intros j g s t ((v & Hv & Ev) & Ha & Hmx & Hmn) Hvis.
      pose proof (visitChildren_erase _ _ _ Hvis) as He.
      destruct (shape_max_min _ _ He) as [E1 E2].
      split; [|split; [|split; congruence]].
      + pose proof (get_visitChildren g s t "items" Hvis) as Hi. rewrite Hv in Hi.
        destruct Hi as (v' & Hv' & Hget').
        destruct (erased_single _ _ Ev) as [_ Av]. rewrite Har in Av.
        rewrite visitKey_single in Hv' by auto.
        exists v'. split; [exact Hget'|]. rewrite (visit_erase _ _ _ Hv'). exact Ev.
      + rewrite <- Ha. apply erase_look. exact He.
    - unfold P. repeat split; eauto. }
  destruct HP as (Hi & Ha & _). auto.
Qed.

Lemma root_items_cut (c c' : Schema) (members : list JSON) (n : Z) :
  get "items" c = Some (JArr members) ->
  get "maxItems" c = Some (JNum n) -> (0 <= n)%Z ->
  applyAll fuel rules root f o c = Ok c' ->
  exists members', get "items" c' = Some (JArr members')
    /\ map eraseValue members' = take (Z.to_nat n) (map eraseValue members).
Proof.
  intros Hit Hmax Hn H.
  pose (P := fun (j : nat) (s : Schema) =>
    get "maxItems" s = Some (JNum n)
    /\ exists l', get "items" s = Some (JArr l')
         /\ map eraseValue l'
            = if (j <=? 9)%nat then map eraseValue members
              else take (Z.to_nat n) (map eraseValue members)).
  assert (HP : P (length rules) c').
  { apply (applyAll_root fuel root f o rules P) with (c := c); [| | |exact H].
    - intros j k R s s' Hj (Hmx & l' & Hl' & El') HR.
      destruct (rules_frame_array j k R true s s' Hj HR) as (Fi & _ & Fmax).
      split; [rewrite Fmax; exact Hmx|].
      destruct (Nat.eq_dec j 9) as [->|Hj9].
      + injection Hj as <- <-. rewrite rule_normalize_items_eq, Hig in HR.
        apply bind_Ok in HR as (s1 & Hs1 & [= <-]).
        assert (Hdue : tupleDue s = false).
        { unfold tupleDue. rewrite Hl'. reflexivity. }
        assert (Es1 : s1 = s).
        { apply tupleStep_cases in Hs1 as [[-> _]|(? & ? & _ & Hd & _)]; congruence. }
        subst s1. simpl in El'. simpl.
        unfold sliceStep, sliceDue. rewrite Hl', Hmx.
        destruct (Z.leb_spec 0%Z n) as [_|]; [|lia]. simpl.
        destruct (Z.ltb_spec n (Z.of_nat (length l'))) as [Hlt|Hge].
        * exists (take (Z.to_nat n) l'). rewrite get_set. simpl.
          split; [reflexivity|]. rewrite <- El'. apply fmap_take.
        * exists l'. split; [exact Hl'|]. rewrite <- El'.
          rewrite take_ge; [reflexivity|]. rewrite length_map. lia.
      + destruct (Fi Hj9) as [Fit _]. exists l'. rewrite Fit. split; [exact Hl'|].
        rewrite El'.
        destruct (Nat.leb_spec j 9), (Nat.leb_spec (S j) 9); try lia; reflexivity.
    - intros j g s t (Hmx & l' & Hl' & El') Hvis.
      split; [rewrite (get_visitChildren_other g s t "maxItems" eq_refl Hvis); exact Hmx|].
      pose proof (get_visitChildren g s t "items" Hvis) as Hi. rewrite Hl' in Hi.
      destruct Hi as (v' & Hv' & Hget').
      change (visitKey g "items" (JArr l')) with (JArr <$> mapM (visit g) l') in Hv'.
      apply fmap_Ok in Hv' as (l2 & Hl2 & ->).
      exists l2. split; [exact Hget'|].
      rewrite (visit_list_erase _ _ _ Hl2). exact El'.
    - split; [exact Hmax|]. exists members. auto. }
  destruct HP as (_ & l' & Hl' & El'). eauto.
Qed.

Lemma existsb_filter_other (l : list JSON) (type : string) :
  type <> "null" ->
  existsb (isStr type) (List.filter (fun ty => negb (isStr "null" ty)) l)
  = existsb (isStr type) l.
Proof.
  intros Hne. induction l as [|x l IH]; [reflexivity|].
  cbn [List.filter existsb].
  destruct (isStr "null" x) eqn:E; cbn [negb existsb]; rewrite IH; [|reflexivity].
  assert (Hx : isStr type x = false); [|rewrite Hx; reflexivity].
  destruct x; try reflexivity. unfold isStr in *.
  apply String.eqb_eq in E. subst. apply String.eqb_neq. congruence.
Qed.

Lemma hasType_filter_null (s : Schema) (l : list JSON) (type : string) :
  get "type" s = Some (JArr l) -> type <> "null" ->
  hasType (set "type" (JArr (List.filter (fun ty => negb (isStr "null" ty)) l)) s) type
  = hasType s type.
Proof.
  intros Hl Hne. unfold hasType. rewrite get_set, Hl, String.eqb_refl.
  cbn [isStr isArray orb andb]. rewrite (existsb_filter_other l type Hne). reflexivity.
Qed.

(** A node of array type stays one through the rules. *)
Lemma rules_isArrayType (j : nat) (k : string) (R : Rule) (r : bool) (s s' : Schema) :
  rules !! j = Some (k, R) -> R s root f o r = Ok s' ->
  isArrayType s = true -> isArrayType s' = true.
Proof.
  intros Hj HR Harr.
  assert (Hitems : j <> 9 -> has "items" s' = has "items" s).
  { intros Hj9. destruct (rules_frame_array j k R r s s' Hj HR) as (Fi & _).
    unfold has. rewrite (proj1 (Fi Hj9)). reflexivity. }
  destruct j as [|j].
  { injection Hj as <- <-. unfold rule_remove_null_type in HR.
    repeat case_match; simplify_eq; try exact Harr.
    unfold isArrayType in *. rewrite (Hitems ltac:(lia)).
    rewrite !hasType_filter_null by (assumption || discriminate). exact Harr. }
  destruct j as [|j].
  { injection Hj as <- <-. unfold rule_destructure_unary_types in HR.
    repeat case_match; simplify_eq; try exact Harr.
    unfold isArrayType in *. rewrite (Hitems ltac:(lia)).
    unfold hasType in *. rewrite get_set. simpl.
    match goal with H : get "type" _ = _ |- _ => rewrite H in Harr end.
    simpl in Harr. rewrite !orb_false_r in Harr.
    destruct (has "items" s); [reflexivity|]. simpl in *.
    match goal with |- context [match ?t with _ => _ end] => destruct t end;
      simpl in *; try discriminate; try exact Harr. }
  do 7 (destruct j as [|j];
        [unfold isArrayType in *; rewrite (Hitems ltac:(lia)); unfold hasType in *;
         rewrite !(rules_frame_key root f o "type" _ _ _ _ _ _ Hj HR)
           by (simpl; rewrite ?Hig; reflexivity);
         exact Harr|]).
  destruct j as [|j].
  { assert (Hhas : has "items" s' = has "items" s).
    { injection Hj as <- <-. rewrite rule_normalize_items_eq, Hig in HR.
      apply bind_Ok in HR as (s1 & Hs1 & [= <-]).
      destruct (tupleStep_items _ _ Hs1) as [Hhas1 _].
      destruct (sliceStep_items s1) as (Hhas2 & _). congruence. }
    unfold isArrayType in *. rewrite Hhas. unfold hasType in *.
    rewrite !(rules_frame_key root f o "type" _ _ _ _ _ _ Hj HR)
      by (simpl; rewrite ?Hig; reflexivity).
    exact Harr. }
  do 2 (destruct j as [|j];
        [unfold isArrayType in *; rewrite (Hitems ltac:(lia)); unfold hasType in *;
         rewrite !(rules_frame_key root f o "type" _ _ _ _ _ _ Hj HR)
           by (simpl; rewrite ?Hig; reflexivity);
         exact Harr|]).
  discriminate.
Qed.

Lemma root_minItems (c c' : Schema) :
  isArrayType c = true ->
  applyAll fuel rules root f o c = Ok c' ->
  get "minItems" c'
  = Some (JNum (match get "minItems" c with Some (JNum n) => n | _ => 0%Z end)).
Proof.
  intros Harr H.
  pose (P := fun (j : nat) (s : Schema) =>
    if (j <=? 8)%nat
    then isArrayType s = true /\ get "minItems" s = get "minItems" c
    else get "minItems" s
         = Some (JNum (match get "minItems" c with Some (JNum n) => n | _ => 0%Z end))).
  apply (applyAll_root fuel root f o rules P) with (c := c); [| | |exact H].
  - intros j k R s s' Hj Hs HR.
    destruct (rules_frame_array j k R true s s' Hj HR) as (_ & Fmin & _).
    destruct (Nat.eq_dec j 8) as [->|Hj8].
    + injection Hj as <- <-. cbv [P Nat.leb] in Hs |- *. destruct Hs as [Ha Hm].
      unfold rule_normalise_minItems in HR. rewrite Hig, Ha in HR.
      injection HR as <-. rewrite get_set, Hm. simpl.
      destruct (get "minItems" c) as [[]|]; reflexivity.
    + unfold P in *. rewrite (Fmin Hj8).
      destruct (Nat.leb_spec j 8), (Nat.leb_spec (S j) 8); try lia; [|exact Hs].
      destruct Hs as [Ha Hm]. split; [|exact Hm].
      exact (rules_isArrayType j k R true s s' Hj HR Ha).
  - intros j g s t Hs Hvis. unfold P in *.
    pose proof (visitChildren_erase _ _ _ Hvis) as He.
    rewrite (get_visitChildren_other g s t "minItems" eq_refl Hvis).
    destruct (j <=? 8)%nat; [|exact Hs]. destruct Hs as [Ha Hm]. split; [|exact Hm].
    unfold isArrayType in *. rewrite (shape_has _ _ He), !(shape_hasType _ _ He). exact Ha.
  - split; [exact Harr|reflexivity].
Qed.

End RootItems.

(** What [normalize] returns is what the built-in rules make of the
    document, when the caller brings no rules. *)
Lemma normalize_rules {U : Utils} (fuel : nat) (l l' : loc) (f : string) (o : Options)
    (σ σ' : store) (c : Schema) :
  normalizerRules o = None -> σ !! l = Some c ->
  normalize fuel l f o σ = Ok (l', σ') ->
  exists c', σ' !! l' = Some c' /\ applyAll fuel rules l' f o c = Ok c'.
Proof.
  intros Hno Hc Hn.
  apply normalize_Ok in Hn as (c0 & c' & Hc0 & Hc' & -> & ->).
  rewrite Hc in Hc0. injection Hc0 as <-.
  rewrite Hno in Hc'. simpl (default _ _) in Hc'. rewrite app_nil_r in Hc'.
  exists c'. split; [apply lookup_insert_eq|exact Hc'].
Qed.

(** X11.  An array schema without lengths stays as it is: when the root of
    the document has a single schema for [items], no [maxItems] from [0]
    up and no positive [minItems], with [ignoreMinAndMaxItems] unset, the
    document that [normalize] returns has a single schema for [items], of
    the same kind, and has [additionalItems] exactly when the caller's
    document had. *)
Theorem plain_array_kept {U : Utils} (fuel : nat) (l l' : loc) (f : string)
    (o : Options) (σ σ' : store) (c : Schema) (items : JSON) :
  ignoreMinAndMaxItems o = false -> normalizerRules o = None ->
  σ !! l = Some c ->
  get "items" c = Some items -> truthy items = true -> isArray items = false ->
  hasMaxItems c = false -> hasMinItems c = false ->
  normalize fuel l f o σ = Ok (l', σ') ->
  exists c' item', σ' !! l' = Some c'
    /\ get "items" c' = Some item'
    /\ isArray item' = false /\ eraseValue item' = eraseValue items
    /\ has "additionalItems" c' = has "additionalItems" c.
Proof.
  intros Hig Hno Hc Hit Htr Har Hmax Hmin Hn.
  destruct (normalize_rules fuel l l' f o σ σ' c Hno Hc Hn) as (c' & Hc' & Hrules).
  destruct (root_plain_array fuel l' f o Hig c c' items Hit Htr Har Hmax Hmin Hrules)
    as ((item' & Hi & Ei) & Ha).
  exists c', item'. repeat split; try assumption.
  - destruct (erased_single _ _ Ei) as [_ Av]. congruence.
  - rewrite !has_look, Ha. reflexivity.
Qed.

(** An array of strings, with [minItems] at [0]. *)
Lemma plain_array_kept_witness :
  exists c' item',
    (<[2%positive := [("items", JObj [("type", JStr "string")]); ("minItems", JNum 0);
                      ("id", JStr "a")]]>
       (storeOf [("items", JObj [("type", JStr "string")]); ("minItems", JNum 0)]))
    !! 2%positive = Some c'
    /\ get "items" c' = Some item'
    /\ isArray item' = false /\ eraseValue item' = JObj []
    /\ has "additionalItems" c' = false.
Proof.
  apply (plain_array_kept (U := plainUtils) 2 1%positive 2%positive "a" DEFAULT_OPTIONS
           (storeOf [("items", JObj [("type", JStr "string")]); ("minItems", JNum 0)])
           _ [("items", JObj [("type", JStr "string")]); ("minItems", JNum 0)]
           (JObj [("type", JStr "string")])); reflexivity.
Defined.

(** X13.  [minItems] at the root of a document of array type (it has
    [items], or its [type] is or holds [array] or [any]), with
    [ignoreMinAndMaxItems] unset: [normalize] returns the number that was
    there, whatever its sign, and [0] when [minItems] was absent or no
    number. *)
Theorem minItems_of_array {U : Utils} (fuel : nat) (l l' : loc) (f : string)
    (o : Options) (σ σ' : store) (c : Schema) :
  ignoreMinAndMaxItems o = false -> normalizerRules o = None ->
  σ !! l = Some c ->
  isArrayType c = true ->
  normalize fuel l f o σ = Ok (l', σ') ->
  exists c', σ' !! l' = Some c'
    /\ get "minItems" c'
       = Some (JNum (match get "minItems" c with Some (JNum n) => n | _ => 0%Z end)).
Proof.
  intros Hig Hno Hc Harr Hn.
  destruct (normalize_rules fuel l l' f o σ σ' c Hno Hc Hn) as (c' & Hc' & Hrules).
  exists c'. split; [exact Hc'|].
  exact (root_minItems fuel l' f o Hig c c' Harr Hrules).
Qed.

(** [minItems] given as a string. *)
Lemma minItems_of_array_witness :
  exists c',
    (<[2%positive := [("type", JStr "array"); ("minItems", JNum 0); ("id", JStr "a")]]>
       (storeOf [("type", JArr [JStr "array"]); ("minItems", JStr "2")]))
    !! 2%positive = Some c'
    /\ get "minItems" c' = Some (JNum 0).
Proof.
  apply (minItems_of_array (U := plainUtils) 1 1%positive 2%positive "a" DEFAULT_OPTIONS
           (storeOf [("type", JArr [JStr "array"]); ("minItems", JStr "2")])
           _ [("type", JArr [JStr "array"]); ("minItems", JStr "2")]); reflexivity.
Defined.

(** ** What the rules read *)

Section Extensional.
Variables g g' : Schema -> result Schema.
Hypothesis same : forall s, g s = g' s.

Lemma visit_ext (v : JSON) : visit g v = visit g' v.
Proof. destruct v; simpl; rewrite ?same; reflexivity. Qed.

Lemma mapM_ext' {A B} (h h' : A -> result B) (l : list A) :
  (forall x, h x = h' x) -> mapM h l = mapM h' l.
Proof.
  intros Hh. induction l as [|x l IH]; simpl; [reflexivity|]. rewrite Hh, IH. reflexivity.
Qed.

Lemma visitKey_ext (k : string) (v : JSON) : visitKey g k v = visitKey g' k v.
Proof.
  unfold visitKey. destruct (kindOf k), v; try reflexivity;
    first [apply visit_ext | f_equal; apply mapM_ext'; intros x; try apply visit_ext].
  unfold visitEntry. rewrite visit_ext. reflexivity.
Qed.

Lemma visitChildren_ext (s : Schema) : visitChildren g s = visitChildren g' s.
Proof.
  unfold visitChildren. apply mapM_ext'. intros kv. rewrite visitKey_ext. reflexivity.
Qed.

End Extensional.

Lemma traverse_ext (cb cb' : Schema -> bool -> result Schema) :
  (forall s r, cb s r = cb' s r) ->
  forall fuel s r, traverse fuel s cb r = traverse fuel s cb' r.
Proof.
  intros Hcb fuel. induction fuel as [|n IH]; intros s r; [reflexivity|].
  rewrite !traverse_S, Hcb.
  destruct (cb' s r) as [s'|e]; [|reflexivity].
  change (visitChildren (fun child => traverse n child cb false) s'
          = visitChildren (fun child => traverse n child cb' false) s').
  apply visitChildren_ext. intros c. apply IH.
Qed.

Lemma applyAll_ext {U : Utils} (fuel : nat) (rs : list (string * Rule))
    (root root' : loc) (f f' : string) (o o' : Options) :
  Forall (fun kr : string * Rule =>
            forall s r, snd kr s root f o r = snd kr s root' f' o' r) rs ->
  forall c, applyAll fuel rs root f o c = applyAll fuel rs root' f' o' c.
Proof.
  induction 1 as [|[k R] rs HR _ IH]; intros c; simpl; [reflexivity|].
  rewrite (traverse_ext _ (fun schema isRoot => R schema root' f' o' isRoot))
    by (intros s r; apply HR).
  destruct (traverse fuel c _ true) as [c1|e]; [|reflexivity]. apply IH.
Qed.

(** X14.  Of the options, the built-in rules read [ignoreMinAndMaxItems]
    alone, and of the file name the identifier derived from it: without
    caller's rules, [normalize] does the same, result or error, for two
    settings that agree on these. *)
Theorem normalize_reads {U : Utils} (fuel : nat) (l : loc) (f f' : string)
    (o o' : Options) (σ : store) :
  normalizerRules o = None -> normalizerRules o' = None ->
  ignoreMinAndMaxItems o = ignoreMinAndMaxItems o' ->
  toSafeString (justName f) = toSafeString (justName f') ->
  normalize fuel l f o σ = normalize fuel l f' o' σ.
Proof.
  intros Hno Hno' Hig Hname.
  destruct (σ !! l) as [c|] eqn:Hc.
  - rewrite !(normalize_eq _ _ _ _ _ c Hc), Hno, Hno'.
    rewrite (applyAll_ext fuel rules (fresh (dom σ)) (fresh (dom σ)) f f' o o');
      [reflexivity|].
    unfold rules. repeat (apply Forall_cons_2; [intros s r; simpl|]);
      [..|apply Forall_nil_2]; try reflexivity.
    + unfold rule_default_id. rewrite Hname. reflexivity.
    + unfold rule_remove_min_max. rewrite Hig. reflexivity.
    + unfold rule_normalise_minItems. rewrite Hig. reflexivity.
    + unfold rule_normalize_items. rewrite Hig. reflexivity.
  - unfold normalize, cloneDeep. rewrite Hc. reflexivity.
Qed.

(** Other values for [cwd] and [format], and the same file under another
    path: [plainUtils] keeps the name as it is, so the names are equal. *)
Lemma normalize_reads_witness :
  normalize (U := plainUtils) 2 1%positive "a" DEFAULT_OPTIONS (storeOf openPair)
  = normalize (U := plainUtils) 2 1%positive "a"
      {| data := {| bannerComment := ""; cwd := "/tmp/";
                    declareExternallyReferenced := true; enableConstEnums := true;
                    format := false; ignoreMinAndMaxItems := false;
                    strictIndexSignatures := true; unreachableDefinitions := true;
                    unknownAny := false |};
         normalizerRules := None |}
      (storeOf openPair).
Proof.
  apply (normalize_reads (U := plainUtils)); reflexivity.
Defined.

(** ** [type] and [additionalProperties] at the root *)

Section RootType.
Context {U : Utils}.
Variables (fuel : nat) (root : loc) (f : string) (o : Options).

Lemma rules_frame_type (j : nat) (k : string) (R : Rule) (r : bool) (s s' : Schema) :
  rules !! j = Some (k, R) -> R s root f o r = Ok s' ->
  (1 < j -> get "type" s' = get "type" s)
  /\ (j < 11 -> get "enum" s' = get "enum" s)
  /\ (j <> 4 -> get "additionalProperties" s' = get "additionalProperties" s)
  /\ get "patternProperties" s' = get "patternProperties" s.
Proof.
  intros Hj HR.
  do 12 (destruct j as [|j];
         [repeat split; intros;
          first [lia
                | apply (rules_frame_key root f o _ _ _ _ _ _ _ Hj HR);
                  simpl; first [reflexivity
                               | destruct (ignoreMinAndMaxItems o); reflexivity]]|]).
  discriminate.
Qed.

Lemma root_type (c c' : Schema) :
  applyAll fuel rules root f o c = Ok c' ->
  get "type" c'
  = match
      match get "enum" c, get "type" c with
      | Some (JArr e), Some (JArr t) =>
          if existsb isNull e && existsb (isStr "null") t
          then Some (JArr (List.filter (fun ty => negb (isStr "null" ty)) t))
          else get "type" c
      | _, _ => get "type" c
      end
    with
    | Some (JArr [t]) => Some t
    | type => type
    end.
Proof.
  intros H.
  set (type1 := match get "enum" c, get "type" c with
                | Some (JArr e), Some (JArr t) =>
                    if existsb isNull e && existsb (isStr "null") t
                    then Some (JArr (List.filter (fun ty => negb (isStr "null" ty)) t))
                    else get "type" c
                | _, _ => get "type" c
                end).
  pose (P := fun (j : nat) (s : Schema) =>
    match j with
    | 0 => get "type" s = get "type" c /\ get "enum" s = get "enum" c
    | 1 => get "type" s = type1
    | _ => get "type" s = match type1 with Some (JArr [t]) => Some t | type => type end
    end).
  assert (HP : P (length rules) c');
    [|simpl in HP; rewrite HP; destruct type1 as [[| | | |[|t [|]]|]|]; reflexivity].
  apply (applyAll_root fuel root f o rules P) with (c := c); [| | |exact H].
  - intros j k R s s' Hj Hs HR.
    destruct (rules_frame_type j k R true s s' Hj HR) as (Ft & _).
    destruct j as [|j].
    { injection Hj as <- <-. destruct Hs as [Ht He]. simpl.
      unfold rule_remove_null_type in HR. rewrite He, Ht in HR. unfold type1.
      destruct (get "enum" c) as [[| | | |e|]|]; try (injection HR as <-; exact Ht).
      destruct (get "type" c) as [[| | | |t|]|]; try (injection HR as <-; exact Ht).
      destruct (existsb isNull e && existsb (isStr "null") t);
        injection HR as <-; [|exact Ht].
      rewrite get_set. reflexivity. }
    destruct j as [|j].
    { injection Hj as <- <-. simpl in Hs. simpl.
      unfold rule_destructure_unary_types in HR. rewrite Hs in HR.
      destruct type1 as [[| | | |[|t [|]]|]|]; injection HR as <-;
        rewrite ?get_set; simpl; try exact Hs; reflexivity. }
    simpl in Hs. simpl. rewrite (Ft ltac:(lia)). exact Hs.
  - intros j g s t Hs Hvis.
    pose proof (get_visitChildren_other g s t "type" eq_refl Hvis) as Et.
    pose proof (get_visitChildren_other g s t "enum" eq_refl Hvis) as Ee.
    destruct j as [|[|j]]; simpl in *; rewrite ?Et, ?Ee; exact Hs.
  - split; reflexivity.
Qed.

Lemma root_additionalProperties (c c' : Schema) :
  has "additionalProperties" c = true \/ has "patternProperties" c = true ->
  applyAll fuel rules root f o c = Ok c' ->
  look "additionalProperties" c' = look "additionalProperties" c.
Proof.
  intros Hc H.
  pose (P := fun (_ : nat) (s : Schema) =>
    look "additionalProperties" s = look "additionalProperties" c
    /\ has "patternProperties" s = has "patternProperties" c).
  assert (HP : P (length rules) c').
  { apply (applyAll_root fuel root f o rules P) with (c := c); [| | |exact H].
    - intros j k R s s' Hj [Ha Hp] HR.
      destruct (rules_frame_type j k R true s s' Hj HR) as (_ & _ & Fa & Fp).
      split; [|unfold has in *; rewrite Fp; exact Hp].
      destruct (Nat.eq_dec j 4) as [->|Hj4];
        [|unfold look in *; rewrite (Fa Hj4); exact Ha].
      injection Hj as <- <-. unfold rule_default_additionalProperties in HR.
      assert (Hs : has "additionalProperties" s = true \/ has "patternProperties" s = true).
      { rewrite Hp, has_look, Ha, <- has_look. exact Hc. }
      destruct Hs as [Hs|Hs]; rewrite Hs in HR; simpl in HR;
        rewrite ?andb_false_r in HR; simpl in HR; injection HR as <-; exact Ha.
    - intros j g s t [Ha Hp] Hvis.
      pose proof (visitChildren_erase _ _ _ Hvis) as He.
      split; [rewrite <- Ha; apply erase_look; exact He|].
      rewrite (shape_has _ _ He). exact Hp.
    - split; reflexivity. }
  exact (proj1 HP).
Qed.

End RootType.

(** X15.  [type] at the root of the document that [normalize] returns,
    with the built-in rules alone: the [type] of the caller's document,
    first without the strings [null] when it is an array that holds one and
    [enum] is an array that holds [null], then replaced by its member when
    what is left is an array of one member. *)
Theorem type_of_root {U : Utils} (fuel : nat) (l l' : loc) (f : string)
    (o : Options) (σ σ' : store) (c : Schema) :
  normalizerRules o = None ->
  σ !! l = Some c ->
  normalize fuel l f o σ = Ok (l', σ') ->
  exists c', σ' !! l' = Some c'
    /\ get "type" c'
       = match
           match get "enum" c, get "type" c with
           | Some (JArr e), Some (JArr t) =>
               if existsb isNull e && existsb (isStr "null") t
               then Some (JArr (List.filter (fun ty => negb (isStr "null" ty)) t))
               else get "type" c
           | _, _ => get "type" c
           end
         with
         | Some (JArr [t]) => Some t
         | type => type
         end.
Proof.
  intros Hno Hc Hn.
  destruct (normalize_rules fuel l l' f o σ σ' c Hno Hc Hn) as (c' & Hc' & Hrules).
  exists c'. split; [exact Hc'|].
  exact (root_type fuel l' f o c c' Hrules).
Qed.

(** [null] alone in [type]: an empty array is left. *)
Lemma type_of_root_witness :
  exists c',
    (<[2%positive := [("enum", JArr [JNull]); ("type", JArr []); ("id", JStr "a")]]>
       (storeOf [("enum", JArr [JNull]); ("type", JArr [JStr "null"])]))
    !! 2%positive = Some c'
    /\ get "type" c' = Some (JArr []).
Proof.
  apply (type_of_root (U := plainUtils) 1 1%positive 2%positive "a" DEFAULT_OPTIONS
           (storeOf [("enum", JArr [JNull]); ("type", JArr [JStr "null"])])
           _ [("enum", JArr [JNull]); ("type", JArr [JStr "null"])]); reflexivity.
Defined.

(** X16.  [additionalProperties] is defaulted, never overridden: when the
    root of the document has [additionalProperties], [false] included, or
    has [patternProperties], the document that [normalize] returns, with the
    built-in rules alone, has [additionalProperties] exactly when the
    caller's document had, and with the same value when that is no
    schema. *)
Theorem additionalProperties_kept {U : Utils} (fuel : nat) (l l' : loc) (f : string)
    (o : Options) (σ σ' : store) (c : Schema) :
  normalizerRules o = None ->
  σ !! l = Some c ->
  has "additionalProperties" c = true \/ has "patternProperties" c = true ->
  normalize fuel l f o σ = Ok (l', σ') ->
  exists c', σ' !! l' = Some c'
    /\ has "additionalProperties" c' = has "additionalProperties" c
    /\ (forall b, get "additionalProperties" c = Some (JBool b) ->
          get "additionalProperties" c' = Some (JBool b)).
Proof.
  intros Hno Hc Hhas Hn.
  destruct (normalize_rules fuel l l' f o σ σ' c Hno Hc Hn) as (c' & Hc' & Hrules).
  pose proof (root_additionalProperties fuel l' f o c c' Hhas Hrules) as Hlook.
  exists c'. split; [exact Hc'|]. split.
  - rewrite !has_look, Hlook. reflexivity.
  - intros b Hb. unfold look in Hlook. rewrite Hb in Hlook. simpl in Hlook.
    destruct (get "additionalProperties" c') as [v|]; [|discriminate].
    injection Hlook as Hv. destruct v; try discriminate. exact (f_equal Some Hv).
Qed.

(** A closed object stays closed. *)
Lemma additionalProperties_kept_witness :
  exists c',
    (<[2%positive := [("type", JStr "object"); ("additionalProperties", JBool false);
                      ("required", JArr []); ("id", JStr "a")]]>
       (storeOf [("type", JStr "object"); ("additionalProperties", JBool false)]))
    !! 2%positive = Some c'
    /\ has "additionalProperties" c' = true
    /\ (forall b, Some (JBool false) = Some (JBool b) ->
          get "additionalProperties" c' = Some (JBool b)).
Proof.
  apply (additionalProperties_kept (U := plainUtils) 1 1%positive 2%positive "a"
           DEFAULT_OPTIONS
           (storeOf [("type", JStr "object"); ("additionalProperties", JBool false)])
           _ [("type", JStr "object"); ("additionalProperties", JBool false)]);
    try reflexivity.
  left. reflexivity.
Defined.

Lemma root_required {U : Utils} (fuel : nat) (root : loc) (f : string) (o : Options)
    (c c' : Schema) (v : JSON) :
  get "required" c = Some v ->
  applyAll fuel rules root f o c = Ok c' ->
  get "required" c' = Some (match v with JBool false => JArr [] | _ => v end).
Proof.
  intros Hv H.
  pose (P := fun (j : nat) (s : Schema) =>
    get "required" s
    = Some (if (j <=? 3)%nat then v else match v with JBool false => JArr [] | _ => v end)).
  apply (applyAll_root fuel root f o rules P) with (c := c); [| |exact Hv|exact H].
  - intros j k R s s' Hj Hs HR. unfold P in *.
    do 2 (destruct j as [|j];
          [rewrite (rules_frame_key root f o "required" _ _ _ _ _ _ Hj HR) by reflexivity;
           exact Hs|]).
    destruct j as [|j].
    { injection Hj as <- <-. unfold rule_add_empty_required, has in HR.
      rewrite Hs, andb_false_r in HR. injection HR as <-. exact Hs. }
    destruct j as [|j].
    { injection Hj as <- <-. unfold rule_required_false in HR. rewrite Hs in HR.
      simpl in Hs. simpl.
      destruct v as [|[]| | | |]; injection HR as <-; rewrite ?get_set; simpl;
        try exact Hs; reflexivity. }
    do 8 (destruct j as [|j];
          [rewrite (rules_frame_key root f o "required" _ _ _ _ _ _ Hj HR) by not_written;
           exact Hs|]).
    discriminate.
  - intros j g s t Hs Hvis. unfold P in *.
    rewrite (get_visitChildren_other g s t "required" eq_refl Hvis). exact Hs.
Qed.

(** X17.  [required] at the root of the document that [normalize] returns,
    with the built-in rules alone: the empty array when the caller's
    document had [false], and the value of the caller's document when it
    had any other. *)
Theorem required_of_root {U : Utils} (fuel : nat) (l l' : loc) (f : string)
    (o : Options) (σ σ' : store) (c : Schema) (v : JSON) :
  normalizerRules o = None ->
  σ !! l = Some c ->
  get "required" c = Some v ->
  normalize fuel l f o σ = Ok (l', σ') ->
  exists c', σ' !! l' = Some c'
    /\ get "required" c' = Some (match v with JBool false => JArr [] | _ => v end).
Proof.
  intros Hno Hc Hv Hn.
  destruct (normalize_rules fuel l l' f o σ σ' c Hno Hc Hn) as (c' & Hc' & Hrules).
  exists c'. split; [exact Hc'|].
  exact (root_required fuel l' f o c c' v Hv Hrules).
Qed.

(** [required] at [true], which no rule knows, stays. *)
Lemma required_of_root_witness :
  exists c',
    (<[2%positive := [("required", JBool true); ("id", JStr "a")]]>
       (storeOf [("required", JBool true)]))
    !! 2%positive = Some c'
    /\ get "required" c' = Some (JBool true).
Proof.
  apply (required_of_root (U := plainUtils) 1 1%positive 2%positive "a" DEFAULT_OPTIONS
           (storeOf [("required", JBool true)]) _ [("required", JBool true)] (JBool true));
    reflexivity.
Defined.

(** ** A node through the passes *)

Section AtFacts.
Context {U : Utils}.
Variables (root : loc) (f : string) (o : Options).

Lemma applyAll_at (fuel : nat) (rs : list (string * Rule)) (c : Schema) :
  applyAll fuel rs root f o c = applyAllAt true fuel rs root f o c.
Proof.
  revert c. induction rs as [|[k R] rs IH]; intros c; simpl; [reflexivity|].
  destruct (traverse fuel c _ true) as [c1|e]; [apply IH|reflexivity].
Qed.

Lemma applyAllAt_app (r : bool) (fuel : nat) (m1 m2 : list (string * Rule)) (c : Schema) :
  applyAllAt r fuel (m1 ++ m2) root f o c
  = applyAllAt r fuel m1 root f o c ≫= applyAllAt r fuel m2 root f o.
Proof.
  revert c. induction m1 as [|[k R] m1 IH]; intros c; simpl; [reflexivity|].
  destruct (traverse fuel c _ r) as [c1|e]; [apply IH|reflexivity].
Qed.

(** Properties of a node that grow with the rules, when the node has the
    mark [r]: [P j] holds of it before the rule at position [j] runs on
    it, [Q j] once the rule has run on it and before the pass goes on to
    its children, and [P (S j)] after the pass. *)
Lemma applyAllAt_node (r : bool) (fuel : nat) (rs : list (string * Rule)) :
  forall (P Q : nat -> Schema -> Prop),
  (forall j k (R : Rule) s s', rs !! j = Some (k, R) -> P j s ->
     R s root f o r = Ok s' -> Q j s') ->
  (forall j k (R : Rule) s t, rs !! j = Some (k, R) -> Q j s ->
     visitChildren
       (fun child => traverse fuel child (fun x isRoot => R x root f o isRoot) false) s
     = Ok t -> P (S j) t) ->
  forall c c', P 0 c -> applyAllAt r (S fuel) rs root f o c = Ok c' -> P (length rs) c'.
Proof.
  remember (S fuel) as n eqn:En.
  induction rs as [|[k R] rs IH]; intros P Q Hstep Hvisit c c' Hc H; simpl in H.
  - injection H as <-. exact Hc.
  - apply bind_Ok in H as (c1 & H1 & H2).
    rewrite En, traverse_S in H1. apply bind_Ok in H1 as (s' & Hs' & Ht).
    assert (Hc1 : P 1 c1).
    { eapply (Hvisit 0 k R); [reflexivity| |exact Ht].
      eapply (Hstep 0 k); [reflexivity|exact Hc|exact Hs']. }
    apply (IH (fun j => P (S j)) (fun j => Q (S j))) with (c := c1);
      [| |exact Hc1|exact H2].
    + intros j k' R' s0 s1 Hj. apply (Hstep (S j) k'). exact Hj.
    + intros j k' R' s0 s1 Hj. apply (Hvisit (S j) k'). exact Hj.
Qed.

(** The nullable string, with whatever else the node holds. *)
Lemma node_nullable (r : bool) (fuel : nat) (c c' : Schema) :
  get "enum" c = Some (JArr [JNull]) ->
  get "type" c = Some (JArr [JStr "string"; JStr "null"]) ->
  applyAllAt r fuel rules root f o c = Ok c' ->
  get "type" c' = Some (JStr "string")
  /\ (truthy' (get "const" c) = false -> get "enum" c' = Some (JArr [JNull]))
  /\ (forall v, get "const" c = Some v -> truthy v = true ->
        get "enum" c' = Some (JArr [v])).
Proof.
  intros He Ht H.
  destruct fuel as [|fuel]; [discriminate|].
  pose (P := fun (j : nat) (s : Schema) =>
    get "type" s = Some (match j with
                         | 0 => JArr [JStr "string"; JStr "null"]
                         | 1 => JArr [JStr "string"]
                         | _ => JStr "string"
                         end)
    /\ if (j <=? 11)%nat
       then get "enum" s = Some (JArr [JNull]) /\ get "const" s = get "const" c
       else get "enum" s
            = Some (match get "const" c with
                    | Some v => if truthy v then JArr [v] else JArr [JNull]
                    | None => JArr [JNull]
                    end)).
  assert (HP : P (length rules) c').
  { apply (applyAllAt_node r fuel rules P (fun j => P (S j))) with (c := c); [| | |exact H].
    - intros j k R s s' Hj [Hty Hen] HR.
      destruct (rules_frame_type root f o j k R r s s' Hj HR) as (Ft & Fe & _).
      destruct j as [|j].
      { destruct Hen as [Hen Hco]. injection Hj as <- <-.
        unfold rule_remove_null_type in HR. rewrite Hen, Hty in HR. simpl in HR.
        injection HR as <-. split; [rewrite get_set; reflexivity|].
        simpl. rewrite !get_set. simpl. auto. }
      destruct j as [|j].
      { destruct Hen as [Hen Hco].
        assert (Fc : get "const" s' = get "const" s)
          by (apply (rules_frame_key root f o _ _ _ _ _ _ _ Hj HR); reflexivity).
        injection Hj as <- <-.
        unfold rule_destructure_unary_types in HR. rewrite Hty in HR.
        injection HR as <-. split; [rewrite get_set; reflexivity|].
        simpl. rewrite !get_set. simpl. auto. }
      do 9 (destruct j as [|j];
            [destruct Hen as [Hen Hco];
             assert (Fc : get "const" s' = get "const" s)
               by (apply (rules_frame_key root f o _ _ _ _ _ _ _ Hj HR); not_written);
             split; [rewrite (Ft ltac:(lia)); exact Hty|];
             simpl; rewrite (Fe ltac:(lia)), Fc; auto|]).
      destruct j as [|j]; [|discriminate].
      destruct Hen as [Hen Hco]. split; [rewrite (Ft ltac:(lia)); exact Hty|].
      injection Hj as <- <-. simpl. unfold rule_const_to_enum in HR.
      rewrite Hco in HR.
      destruct (get "const" c) as [v|]; [|injection HR as <-; exact Hen].
      destruct (truthy v); injection HR as <-; [|exact Hen].
      rewrite get_delete, get_set. reflexivity.
    - intros j k R s t Hj [Hty Hen] Hvis. unfold P.
      rewrite (get_visitChildren_other _ s t "type" eq_refl Hvis).
      rewrite (get_visitChildren_other _ s t "enum" eq_refl Hvis).
      rewrite (get_visitChildren_other _ s t "const" eq_refl Hvis).
      split; [exact Hty|exact Hen].
    - split; [exact Ht|]. simpl. auto. }
  destruct HP as [Hty Hen]. simpl in Hen. split; [exact Hty|]. split.
  - intros Hc. rewrite Hen. destruct (get "const" c) as [v|]; [|reflexivity].
    simpl in Hc. rewrite Hc. reflexivity.
  - intros v Hv Tv. rewrite Hen, Hv, Tv. reflexivity.
Qed.

Lemma Forall2_then {A B C} (R1 : A -> B -> Prop) (R2 : B -> C -> Prop)
    (R3 : A -> C -> Prop) (l1 : list A) (l2 : list B) (l3 : list C) :
  (forall x y z, R1 x y -> R2 y z -> R3 x z) ->
  Forall2 R1 l1 l2 -> Forall2 R2 l2 l3 -> Forall2 R3 l1 l3.
Proof.
  intros HR H12. revert l3. induction H12 as [|x y l1 l2 Hxy _ IH]; intros l3 H23;
    inversion H23; subst; constructor; eauto.
Qed.

Lemma visit_then (g1 g2 : Schema -> result Schema) (m m1 m2 : JSON) :
  visit g1 m = Ok m1 -> visit g2 m1 = Ok m2 ->
  visit (fun x => g1 x ≫= g2) m = Ok m2.
Proof.
  destruct m as [| | | | |x]; simpl; try (intros [= <-]; simpl; intros [= <-]; reflexivity).
  intros H1. apply fmap_Ok in H1 as (x1 & Hx1 & ->). simpl.
  intros H2. apply fmap_Ok in H2 as (x2 & Hx2 & ->).
  rewrite Hx1. simpl. rewrite Hx2. reflexivity.
Qed.

Lemma applyAllAt_snoc (r : bool) (fuel : nat) (rs : list (string * Rule)) (k : string)
    (R : Rule) (c : Schema) :
  applyAllAt r fuel (rs ++ [(k, R)]) root f o c
  = applyAllAt r fuel rs root f o c
      ≫= fun x => traverse fuel x (fun y isRoot => R y root f o isRoot) r.
Proof.
  rewrite applyAllAt_app.
  destruct (applyAllAt r fuel rs root f o c) as [c1|e]; [|reflexivity]. simpl.
  destruct (traverse fuel c1 _ r); reflexivity.
Qed.

(** The members of [items], pass after pass: each is what the rules run so
    far make of the member of the caller's document in its place. *)
Lemma node_items_cut (r : bool) (fuel : nat) (c c' : Schema) (members : list JSON) (n : Z) :
  ignoreMinAndMaxItems o = false ->
  get "items" c = Some (JArr members) ->
  get "maxItems" c = Some (JNum n) -> (0 <= n)%Z ->
  applyAllAt r (S fuel) rules root f o c = Ok c' ->
  exists members', get "items" c' = Some (JArr members')
    /\ Forall2 (fun m m' => visit (applyAllAt false fuel rules root f o) m = Ok m')
         (take (Z.to_nat n) members) members'.
Proof.
  intros Hig Hit Hmax Hn H.
  pose (sel := fun j : nat => if (j <=? 9)%nat then members else take (Z.to_nat n) members).
  pose (P := fun (i j : nat) (s : Schema) =>
    get "maxItems" s = Some (JNum n)
    /\ exists l', get "items" s = Some (JArr l')
         /\ Forall2 (fun m m' => visit (applyAllAt false fuel (take j rules) root f o) m
                                 = Ok m') (sel i) l').
  assert (HP : P (length rules) (length rules) c').
  { apply (applyAllAt_node r fuel rules (fun j => P j j) (fun j => P (S j) j))
      with (c := c); [| | |exact H].
    - intros j k R s s' Hj (Hmx & l' & Hl' & Hall) HR.
      destruct (rules_frame_array root f o Hig j k R r s s' Hj HR) as (Fi & _ & Fmax).
      split; [rewrite Fmax; exact Hmx|].
      destruct (Nat.eq_dec j 9) as [->|Hj9].
      + injection Hj as <- <-. rewrite rule_normalize_items_eq, Hig in HR.
        apply bind_Ok in HR as (s1 & Hs1 & [= <-]).
        assert (Hdue : tupleDue s = false).
        { unfold tupleDue. rewrite Hl'. reflexivity. }
        assert (Es1 : s1 = s).
        { apply tupleStep_cases in Hs1 as [[-> _]|(? & ? & _ & Hd & _)]; congruence. }
        subst s1. unfold sel in *. simpl in Hall. simpl.
        pose proof (Forall2_length _ _ _ Hall) as Hlen.
        unfold sliceStep, sliceDue. rewrite Hl', Hmx.
        destruct (Z.leb_spec 0%Z n) as [_|]; [|lia]. simpl.
        destruct (Z.ltb_spec n (Z.of_nat (length l'))) as [Hlt|Hge].
        * exists (take (Z.to_nat n) l'). rewrite get_set. simpl.
          split; [reflexivity|]. apply Forall2_take. exact Hall.
        * exists l'. split; [exact Hl'|].
          rewrite take_ge by lia. exact Hall.
      + destruct (Fi Hj9) as [Fit _]. exists l'. rewrite Fit. split; [exact Hl'|].
        unfold sel in *.
        destruct (Nat.leb_spec j 9), (Nat.leb_spec (S j) 9); try lia; exact Hall.
    - intros j k R s t Hj (Hmx & l' & Hl' & Hall) Hvis.
      split; [rewrite (get_visitChildren_other _ s t "maxItems" eq_refl Hvis); exact Hmx|].
      pose proof (get_visitChildren _ s t "items" Hvis) as Hi. rewrite Hl' in Hi.
      destruct Hi as (v' & Hv' & Hget').
      match type of Hv' with
      | visitKey ?g _ _ = _ =>
          change (JArr <$> mapM (visit g) l' = Ok v') in Hv'
      end.
      apply fmap_Ok in Hv' as (l2 & Hl2 & ->).
      exists l2. split; [exact Hget'|].
      apply mapM_Ok in Hl2.
      rewrite (take_S_r _ _ _ Hj).
      eapply Forall2_then; [|exact Hall|exact Hl2].
      intros m m1 m2 H1 H2. cbv beta in H1, H2.
      rewrite (visit_ext _ (fun x => applyAllAt false fuel (take j rules) root f o x
                 ≫= fun y => traverse fuel y (fun z isRoot => R z root f o isRoot) false))
        by (intros x; apply applyAllAt_snoc).
      exact (visit_then _ _ m m1 m2 H1 H2).
    - split; [exact Hmax|]. exists members. split; [exact Hit|].
      unfold sel. simpl. clear. induction members as [|m l IH]; constructor; [|exact IH].
      destruct m; reflexivity. }
  destruct HP as (_ & l' & Hl' & Hall). exists l'. split; [exact Hl'|]. exact Hall.
Qed.

End AtFacts.

(** C6, as the code has it.  Take a node with [enum: [null]] and
    [type: ["string", "null"]], whatever else it holds.  The first rule
    takes ["null"] out of the [type] array and the second replaces the
    one-element array left by its element, at the root and below it.
    Through the twelve passes, wherever the traversal reaches the node,
    [type] comes out as ["string"]; [enum] comes out as [[null]] when the
    node has no truthy [const], and as the one-element array of the
    [const] when it has one, since the last rule folds a truthy [const]
    into [enum].  When the node is the document, with lengths in range all
    over it and no caller's rules, [normalize] returns, and returns a
    document with this [type] and this [enum]. *)
Theorem nullable_string_normalized {U : Utils} (schema : Schema) (root : loc)
    (f : string) (o : Options) :
  get "enum" schema = Some (JArr [JNull]) ->
  get "type" schema = Some (JArr [JStr "string"; JStr "null"]) ->
  (forall r,
     rule_remove_null_type schema root f o r
     = Ok (set "type" (JArr [JStr "string"]) schema)
     /\ rule_destructure_unary_types (set "type" (JArr [JStr "string"]) schema) root f o r
        = Ok (set "type" (JStr "string") schema))
  /\ (forall r fuel schema',
        applyAllAt r fuel rules root f o schema = Ok schema' ->
        get "type" schema' = Some (JStr "string")
        /\ (truthy' (get "const" schema) = false ->
            get "enum" schema' = Some (JArr [JNull]))
        /\ (forall v, get "const" schema = Some v -> truthy v = true ->
              get "enum" schema' = Some (JArr [v])))
  /\ (normalizerRules o = None ->
      (ignoreMinAndMaxItems o = false -> AllNodes (fun _ => lengthsOK) true schema) ->
      forall (σ : store) (l : loc), σ !! l = Some schema ->
      exists schema',
        (forall fuel, depth (JObj schema) <= fuel ->
           normalize fuel l f o σ = Ok (fresh (dom σ), <[fresh (dom σ) := schema']> σ))
        /\ get "type" schema' = Some (JStr "string")
        /\ (truthy' (get "const" schema) = false ->
            get "enum" schema' = Some (JArr [JNull]))
        /\ (forall v, get "const" schema = Some v -> truthy v = true ->
              get "enum" schema' = Some (JArr [v]))).
Proof.
  intros He Ht. split; [|split].
  - intros r. split.
    + unfold rule_remove_null_type. rewrite He, Ht. reflexivity.
    + unfold rule_destructure_unary_types. rewrite get_set, String.eqb_refl.
      rewrite set_set. reflexivity.
  - intros r fuel schema' H.
    exact (node_nullable root f o r fuel schema schema' He Ht H).
  - intros Hno HL σ l Hl.
    destruct (normalize_root l f o σ schema Hl Hno HL) as (c' & Hc' & Hret).
    exists c'. split; [exact Hret|].
    rewrite applyAll_at in Hc'.
    exact (node_nullable _ f o true _ schema c' He Ht Hc').
Qed.

(** The node with the two keys alone. *)
Lemma nullable_string_normalized_witness :
  (forall r,
     rule_remove_null_type nullableString 1%positive "a" DEFAULT_OPTIONS r
     = Ok (set "type" (JArr [JStr "string"]) nullableString)
     /\ rule_destructure_unary_types (set "type" (JArr [JStr "string"]) nullableString)
          1%positive "a" DEFAULT_OPTIONS r
        = Ok (set "type" (JStr "string") nullableString))
  /\ (exists schema',
        (forall fuel, depth (JObj nullableString) <= fuel ->
           normalize (U := plainUtils) fuel 1%positive "a" DEFAULT_OPTIONS
             (storeOf nullableString)
           = Ok (2%positive, <[2%positive := schema']> (storeOf nullableString)))
        /\ get "type" schema' = Some (JStr "string")
        /\ get "enum" schema' = Some (JArr [JNull])).
Proof.
  destruct (nullable_string_normalized (U := plainUtils) nullableString 1%positive "a"
              DEFAULT_OPTIONS eq_refl eq_refl) as (Hrules & _ & Hdoc).
  split; [exact Hrules|].
  destruct (Hdoc eq_refl) with (σ := storeOf nullableString) (l := 1%positive)
    as (schema' & Hret & Hty & Hen & _).
  - intros _. apply AllNodes_intro; [|apply Forall_nil_2].
    split; intros n; discriminate.
  - reflexivity.
  - exists schema'. split; [exact Hret|]. split; [exact Hty|]. exact (Hen eq_refl).
Defined.

(** With a [const] beside the two keys, [enum] does not come out as it
    was: the [const] takes its place. *)
Lemma nullable_string_enum_overwritten :
  get "enum" nullableConst = Some (JArr [JNull])
  /\ get "type" nullableConst = Some (JArr [JStr "string"; JStr "null"])
  /\ exists schema',
       normalize (U := plainUtils) 1 1%positive "a" DEFAULT_OPTIONS (storeOf nullableConst)
       = Ok (2%positive, <[2%positive := schema']> (storeOf nullableConst))
       /\ get "type" schema' = Some (JStr "string")
       /\ get "enum" schema' = Some (JArr [JStr "x"])
       /\ get "enum" schema' <> Some (JArr [JNull]).
Proof.
  split; [reflexivity|]. split; [reflexivity|].
  exists [("enum", JArr [JStr "x"]); ("type", JStr "string"); ("id", JStr "a")].
  split; [vm_compute; reflexivity|]. split; [reflexivity|]. split; [reflexivity|].
  discriminate.
Qed.

(** X12.  A tuple longer than [maxItems] is cut: when the root of the
    document has an array for [items] and a number [n] from [0] up for
    [maxItems], with [ignoreMinAndMaxItems] unset, the document that
    [normalize] returns has for [items] the first [n] members, in their
    order, and all of them when there are no more than [n]; each member is
    what the twelve passes make of the member of the caller's document in
    its place, as a node below the root. *)
Theorem items_cut_to_maxItems {U : Utils} (fuel : nat) (l l' : loc) (f : string)
    (o : Options) (σ σ' : store) (c : Schema) (members : list JSON) (n : Z) :
  ignoreMinAndMaxItems o = false -> normalizerRules o = None ->
  σ !! l = Some c ->
  get "items" c = Some (JArr members) ->
  get "maxItems" c = Some (JNum n) -> (0 <= n)%Z ->
  normalize fuel l f o σ = Ok (l', σ') ->
  exists c' members', σ' !! l' = Some c'
    /\ get "items" c' = Some (JArr members')
    /\ Forall2 (fun m m' => visit (applyAllAt false (pred fuel) rules l' f o) m = Ok m')
         (take (Z.to_nat n) members) members'
    /\ map eraseValue members' = take (Z.to_nat n) (map eraseValue members)
    /\ length members' = Nat.min (Z.to_nat n) (length members).
Proof.
  intros Hig Hno Hc Hit Hmax Hn0 Hn.
  destruct (normalize_rules fuel l l' f o σ σ' c Hno Hc Hn) as (c' & Hc' & Hrules).
  destruct fuel as [|fuel]; [discriminate|].
  pose proof Hrules as Hat. rewrite applyAll_at in Hat.
  destruct (node_items_cut l' f o true fuel c c' members n Hig Hit Hmax Hn0 Hat)
    as (members' & Hi & Hall).
  destruct (root_items_cut (S fuel) l' f o Hig c c' members n Hit Hmax Hn0 Hrules)
    as (members2 & Hi2 & Em).
  rewrite Hi in Hi2. injection Hi2 as <-.
  exists c', members'. repeat split; try assumption.
  apply (f_equal length) in Em.
  rewrite length_take, !length_map in Em. exact Em.
Qed.

(** Three members and [maxItems] at [1]: the first is left, with the
    [required] and [additionalProperties] the rules give an object. *)
Lemma items_cut_to_maxItems_witness :
  exists c' members',
    (<[2%positive :=
         [("items", JArr [JObj [("type", JStr "object"); ("required", JArr []);
                                ("additionalProperties", JBool true)]]);
          ("maxItems", JNum 1); ("id", JStr "a"); ("minItems", JNum 0)]]>
       (storeOf [("items", JArr [JObj [("type", JStr "object")]; JBool true; JObj []]);
                 ("maxItems", JNum 1)]))
    !! 2%positive = Some c'
    /\ get "items" c' = Some (JArr members')
    /\ Forall2 (fun m m' => visit (applyAllAt (U := plainUtils) false 1 (rules (U := plainUtils)) 2%positive "a"
                                     DEFAULT_OPTIONS) m = Ok m')
         [JObj [("type", JStr "object")]] members'
    /\ map eraseValue members' = [JObj []]
    /\ length members' = 1.
Proof.
  apply (items_cut_to_maxItems (U := plainUtils) 2 1%positive 2%positive "a" DEFAULT_OPTIONS
           (storeOf [("items", JArr [JObj [("type", JStr "object")]; JBool true; JObj []]);
                     ("maxItems", JNum 1)])
           _ [("items", JArr [JObj [("type", JStr "object")]; JBool true; JObj []]);
              ("maxItems", JNum 1)]
           [JObj [("type", JStr "object")]; JBool true; JObj []] 1); try reflexivity.
  discriminate.
Defined.
